(** * PearBot manager: a shallow embedding of the process supervisor

    The development follows [src/index.ts] (class [PearBotManager]): the
    NDJSON stream reader, the annotation parser, the project state machine,
    the port allocator and the public operations.  Definitions come first,
    the lemmas and the theorems about them follow. *)

From Stdlib Require Import ZArith List Bool Ascii String Lia PrimFloat DecimalString.
From stdpp Require Import base option list gmap sets.

Local Open Scope Z_scope.

(** ** JavaScript strings

    A JavaScript string is a sequence of UTF-16 code units. *)

Abbreviation text := (list Z).

Definition str (s : string) : text :=
  map (fun a => Z.of_N (N_of_ascii a)) (list_ascii_of_string s).

Definition text_eqb (a b : text) : bool := bool_decide (a = b).

(** [\s] of a regular expression without the [u] flag, which is also the
    set that [String.prototype.trim] strips: WhiteSpace and LineTerminator. *)
Definition is_space (c : Z) : bool :=
  (c =? 9) || (c =? 10) || (c =? 11) || (c =? 12) || (c =? 13) || (c =? 32)
  || (c =? 160) || (c =? 5760) || ((8192 <=? c) && (c <=? 8202))
  || (c =? 8232) || (c =? 8233) || (c =? 8239) || (c =? 8287)
  || (c =? 12288) || (c =? 65279).

(** [\w]: ASCII letters, digits and the underscore. *)
Definition is_word (c : Z) : bool :=
  ((48 <=? c) && (c <=? 57)) || ((65 <=? c) && (c <=? 90)) || (c =? 95)
  || ((97 <=? c) && (c <=? 122)).

Fixpoint trimStart (s : text) : text :=
  match s with
  | c :: s' => if is_space c then trimStart s' else s
  | [] => []
  end.

Definition trimEnd (s : text) : text := rev (trimStart (rev s)).

Definition trim (s : text) : text := trimEnd (trimStart s).

(** [s.split(sep)] for a separator of one code unit: a string with [n]
    separators yields [n + 1] pieces, the empty string yields one. *)
Fixpoint split (sep : Z) (s : text) : list text :=
  match s with
  | [] => [[]]
  | c :: s' =>
      if c =? sep then [] :: split sep s'
      else match split sep s' with
           | l :: ls => (c :: l) :: ls
           | [] => [[c]]
           end
  end.

(** [Array.prototype.pop]: the last element (undefined on an empty array)
    and the array that remains. *)
Definition pop {A} (l : list A) : option A * list A := (last l, removelast l).

Definition newline : Z := 10.

(** An integer in decimal, as a template literal prints it. *)
Definition decimal (n : Z) : text := str (NilZero.string_of_int (Z.to_int n)).

(** ** The streaming UTF-8 decoder

    [new TextDecoder()] with [decode(value, { stream: true })]: the UTF-8
    decoder of the Encoding standard, whose state survives from one call to
    the next.  Errors are replaced by U+FFFD, and a byte order mark at the
    very start of the stream is dropped. *)
Module Utf8.

Record dstate : Type := mk_dstate {
  code_point : Z;
  bytes_seen : Z;
  bytes_needed : Z;
  lower_boundary : Z;
  upper_boundary : Z;
  bom_seen : bool
}.

Definition init : dstate := mk_dstate 0 0 0 128 191 false.

Definition reset (st : dstate) : dstate :=
  mk_dstate 0 0 0 128 191 (bom_seen st).

Definition replacement : Z := 65533.

(** The handler when no continuation byte is expected: the code points
    it returns (an error is the replacement character) and the state. *)
Definition lead (st : dstate) (b : Z) : dstate * list Z :=
  if b <=? 127 then (st, [b])
  else if (194 <=? b) && (b <=? 223) then
    (mk_dstate (Z.land b 31) 0 1 128 191 (bom_seen st), [])
  else if (224 <=? b) && (b <=? 239) then
    (mk_dstate (Z.land b 15) 0 2
       (if b =? 224 then 160 else 128) (if b =? 237 then 159 else 191)
       (bom_seen st), [])
  else if (240 <=? b) && (b <=? 244) then
    (mk_dstate (Z.land b 7) 0 3
       (if b =? 240 then 144 else 128) (if b =? 244 then 143 else 191)
       (bom_seen st), [])
  else (st, [replacement]).

Definition handler (st : dstate) (b : Z) : dstate * list Z :=
  if bytes_needed st =? 0 then lead st b
  else if negb ((lower_boundary st <=? b) && (b <=? upper_boundary st)) then
    (* error; the byte is restored to the queue and read again *)
    let '(st', out) := lead (reset st) b in (st', replacement :: out)
  else
    let cp := Z.lor (Z.shiftl (code_point st) 6) (Z.land b 63) in
    let seen := bytes_seen st + 1 in
    if seen =? bytes_needed st then (reset st, [cp])
    else (mk_dstate cp seen (bytes_needed st) 128 191 (bom_seen st), []).

(** A code point as UTF-16 code units. *)
Definition utf16 (cp : Z) : text :=
  if cp <? 65536 then [cp]
  else [55296 + Z.shiftr (cp - 65536) 10; 56320 + Z.land (cp - 65536) 1023].

(** Serialising the output queue: the first item sets the BOM flag and is
    dropped when it is U+FEFF. *)
Fixpoint serialize (seen : bool) (cps : list Z) : bool * text :=
  match cps with
  | [] => (seen, [])
  | cp :: rest =>
      if seen then let '(b, t) := serialize true rest in (b, utf16 cp ++ t)
      else if cp =? 65279 then serialize true rest
      else let '(b, t) := serialize true rest in (b, utf16 cp ++ t)
  end.

Definition with_bom (st : dstate) (b : bool) : dstate :=
  mk_dstate (code_point st) (bytes_seen st) (bytes_needed st)
    (lower_boundary st) (upper_boundary st) b.

Definition step (st : dstate) (b : Byte.byte) : dstate * text :=
  let '(st1, cps) := handler st (Z.of_N (Byte.to_N b)) in
  let '(seen, t) := serialize (bom_seen st1) cps in
  (with_bom st1 seen, t).

(** [decoder.decode(value, { stream: true })]. *)
Fixpoint decode (st : dstate) (value : list Byte.byte) : dstate * text :=
  match value with
  | [] => (st, [])
  | b :: rest =>
      let '(st1, t1) := step st b in
      let '(st2, t2) := decode st1 rest in
      (st2, t1 ++ t2)
  end.

End Utf8.

(** ** JSON values, as [JSON.parse] returns them *)

#[local] Set Warnings "-register-all".

Inductive json : Type :=
  | JNull
  | JBool (b : bool)
  | JNum (f : float)
  | JStr (s : text)
  | JArr (items : list json)
  | JObj (fields : list (text * json)).

(** JavaScript truthiness. *)
Definition truthy (v : json) : bool :=
  match v with
  | JNull => false
  | JBool b => b
  | JNum f => negb (PrimFloat.is_zero f || PrimFloat.is_nan f)
  | JStr s => negb (text_eqb s [])
  | JArr _ | JObj _ => true
  end.

Fixpoint assoc {A} (k : text) (l : list (text * A)) : option A :=
  match l with
  | [] => None
  | (k', v) :: l' => if text_eqb k k' then Some v else assoc k l'
  end.

(** Reading a property of a parsed value: [v.k].  Reading from [null]
    throws a TypeError ([None]); a property that is absent, or any of the
    protocol's property names on a primitive or an array, is [undefined]
    ([Some None]).  A parsed object holds each key once. *)
Definition prop (v : json) (k : text) : option (option json) :=
  match v with
  | JNull => None
  | JObj fields => Some (assoc k fields)
  | _ => Some None
  end.

(** [v === "literal"] for a value that may be undefined. *)
Definition is_string (v : option json) (s : string) : bool :=
  match v with
  | Some (JStr t) => text_eqb t (str s)
  | _ => false
  end.

(** ** Regular expressions

    The backtracking matcher of ECMAScript, in continuation-passing style
    as the language specification gives it: a matcher takes the state
    reached so far and a continuation for the rest of the pattern. *)
Module Regex.

Inductive regex : Type :=
  | Empty
  | Chr (p : Z -> bool)
  | Seq (r1 r2 : regex)
  | Group (n : nat) (r : regex)
  | Quant (min : nat) (max : option nat) (greedy : bool) (r : regex).

(** The text still to be read and the captures made so far. *)
Record mstate : Type := mk_mstate {
  rest : text;
  caps : gmap nat text
}.

Definition cont : Type := mstate -> option mstate.

Fixpoint groups (r : regex) : list nat :=
  match r with
  | Empty | Chr _ => []
  | Seq r1 r2 => groups r1 ++ groups r2
  | Group n r' => n :: groups r'
  | Quant _ _ _ r' => groups r'
  end.

Definition clear (parens : list nat) (x : mstate) : mstate :=
  mk_mstate (rest x) (foldr delete (caps x) parens).

(** What was read between state [x] and the later state [y]. *)
Definition consumed (x y : mstate) : text :=
  take (length (rest x) - length (rest y))%nat (rest x).

(** RepeatMatcher: [m] is the matcher of the quantified atom and [c] the
    continuation.  An iteration that reads nothing once the minimum is
    met fails, so [fuel] bounds the iterations. *)
Fixpoint repeat (m : cont -> cont) (parens : list nat) (greedy : bool)
    (c : cont) (fuel : nat) (min : nat) (max : option nat) (x : mstate)
    : option mstate :=
  match fuel with
  | O => None
  | S fuel' =>
      match max with
      | Some O => c x
      | _ =>
          let d : cont := fun y =>
            if ((min =? 0) && (length (rest y) =? length (rest x)))%nat
            then None
            else repeat m parens greedy c fuel' (pred min) (pred <$> max) y in
          let xr := clear parens x in
          if negb (min =? 0)%nat then m d xr
          else if greedy then
            match m d xr with Some z => Some z | None => c x end
          else
            match c x with Some z => Some z | None => m d xr end
      end
  end.

Fixpoint rmatch (r : regex) (k : cont) (x : mstate) {struct r}
    : option mstate :=
  match r with
  | Empty => k x
  | Chr p =>
      match rest x with
      | c :: s => if p c then k (mk_mstate s (caps x)) else None
      | [] => None
      end
  | Seq r1 r2 => rmatch r1 (rmatch r2 k) x
  | Group n r' =>
      rmatch r' (fun y => k (mk_mstate (rest y) (<[n := consumed x y]> (caps y)))) x
  | Quant min max greedy r' =>
      repeat (rmatch r') (groups r') greedy k
        (min + length (rest x) + 1)%nat min max x
  end.

(** The result of [exec]: where the match starts and its captures. *)
Record result : Type := mk_result {
  index : nat;
  captures : gmap nat text;
  remaining : text
}.

(** RegExpBuiltinExec without the [g] and [y] flags: the start positions
    are tried from the left, the end of the text included. *)
Fixpoint exec_from (r : regex) (i : nat) (s : text) : option result :=
  match rmatch r Some (mk_mstate s ∅) with
  | Some y => Some (mk_result i (caps y) (rest y))
  | None =>
      match s with
      | [] => None
      | _ :: s' => exec_from r (S i) s'
      end
  end.

Definition exec (r : regex) (s : text) : option result := exec_from r 0 s.

Definition chr (c : Z) : regex := Chr (Z.eqb c).
Definition lit (s : string) : regex := foldr (fun c r => Seq (chr c) r) Empty (str s).
Definition cat (rs : list regex) : regex := foldr Seq Empty rs.
Definition plus (r : regex) : regex := Quant 1 None true r.
Definition star (r : regex) : regex := Quant 0 None true r.
Definition lazy_star (r : regex) : regex := Quant 0 None false r.
Definition opt (r : regex) : regex := Quant 0 (Some 1%nat) true r.

End Regex.

(** ** Notifications and their extraction *)

Record ProjectNotification : Type := mk_notification {
  n_status : text;
  n_phase : option text;
  n_content : text
}.

Definition dquote : Z := 34.

(** The classes [[^Q]], with Q the double quote, and [[\s\S]]. *)
Definition not_quote (c : Z) : bool := negb (c =? dquote).
Definition any_char (c : Z) : bool := is_space c || negb (is_space c).

(** The pattern of [parseNotification], piece by piece: the literal
    [<pearbot], white space, [status=] and a quoted word (group 1), an
    optional non-capturing group of white space, [phase=] and a quoted run
    of non-quote characters (group 2), the literal [>], a lazy run of
    arbitrary characters (group 3) and the literal closing tag. *)
Definition notification_re : Regex.regex :=
  Regex.cat
    [ Regex.lit "<pearbot"; Regex.plus (Regex.Chr is_space);
      Regex.lit "status="; Regex.chr dquote;
      Regex.Group 1 (Regex.plus (Regex.Chr is_word)); Regex.chr dquote;
      Regex.opt (Regex.cat
        [ Regex.plus (Regex.Chr is_space); Regex.lit "phase="; Regex.chr dquote;
          Regex.Group 2 (Regex.star (Regex.Chr not_quote));
          Regex.chr dquote ]);
      Regex.lit ">";
      Regex.Group 3 (Regex.lazy_star (Regex.Chr any_char));
      Regex.lit "</pearbot>" ].

Definition parseNotification (t : text) : option ProjectNotification :=
  match Regex.exec notification_re t with
  | None => None
  | Some m =>
      Some {| n_status := default [] (Regex.captures m !! 1%nat);
              n_phase := match Regex.captures m !! 2%nat with
                         | Some ((_ :: _) as p) => Some p
                         | _ => None
                         end;
              n_content := trim (default [] (Regex.captures m !! 3%nat)) |}
  end.

(** ** The data model *)

Inductive ProjectStatus : Type :=
  | creating
  | building
  | waiting_for_input
  | serving
  | completed
  | failed
  | stopped.

#[global] Instance ProjectStatus_eq_dec : EqDecision ProjectStatus.
Proof. solve_decision. Defined.

(** A subprocess handle; handles are numbered in the order of spawning. *)
Abbreviation pid := nat (only parsing).

(** [ProjectMetadata] of [types.ts].  A time stamp, which the source keeps
    as the ISO text of [toISOString] and reads back with [getTime], is the
    number of milliseconds it denotes. *)
Record ProjectMetadata : Type := mk_project {
  id : text;
  name : text;
  description : text;
  techStack : option text;
  status : ProjectStatus;
  directory : text;
  createdAt : Z;
  updatedAt : Z;
  waitingSince : option Z;
  lastNotification : option ProjectNotification;
  servingPort : option Z;
  serverProcess : option pid;
  agentProcess : option pid;
  sessionId : option json;
  outputBuffer : text
}.

Definition set_status (v : ProjectStatus) (p : ProjectMetadata) : ProjectMetadata :=
  mk_project (id p) (name p) (description p) (techStack p) v (directory p) (createdAt p) (updatedAt p) (waitingSince p) (lastNotification p) (servingPort p) (serverProcess p) (agentProcess p) (sessionId p) (outputBuffer p).

Definition set_updatedAt (v : Z) (p : ProjectMetadata) : ProjectMetadata :=
  mk_project (id p) (name p) (description p) (techStack p) (status p) (directory p) (createdAt p) v (waitingSince p) (lastNotification p) (servingPort p) (serverProcess p) (agentProcess p) (sessionId p) (outputBuffer p).

Definition set_waitingSince (v : option Z) (p : ProjectMetadata) : ProjectMetadata :=
  mk_project (id p) (name p) (description p) (techStack p) (status p) (directory p) (createdAt p) (updatedAt p) v (lastNotification p) (servingPort p) (serverProcess p) (agentProcess p) (sessionId p) (outputBuffer p).

Definition set_lastNotification (v : option ProjectNotification) (p : ProjectMetadata) : ProjectMetadata :=
  mk_project (id p) (name p) (description p) (techStack p) (status p) (directory p) (createdAt p) (updatedAt p) (waitingSince p) v (servingPort p) (serverProcess p) (agentProcess p) (sessionId p) (outputBuffer p).

Definition set_servingPort (v : option Z) (p : ProjectMetadata) : ProjectMetadata :=
  mk_project (id p) (name p) (description p) (techStack p) (status p) (directory p) (createdAt p) (updatedAt p) (waitingSince p) (lastNotification p) v (serverProcess p) (agentProcess p) (sessionId p) (outputBuffer p).

Definition set_serverProcess (v : option pid) (p : ProjectMetadata) : ProjectMetadata :=
  mk_project (id p) (name p) (description p) (techStack p) (status p) (directory p) (createdAt p) (updatedAt p) (waitingSince p) (lastNotification p) (servingPort p) v (agentProcess p) (sessionId p) (outputBuffer p).

Definition set_agentProcess (v : option pid) (p : ProjectMetadata) : ProjectMetadata :=
  mk_project (id p) (name p) (description p) (techStack p) (status p) (directory p) (createdAt p) (updatedAt p) (waitingSince p) (lastNotification p) (servingPort p) (serverProcess p) v (sessionId p) (outputBuffer p).

Definition set_sessionId (v : option json) (p : ProjectMetadata) : ProjectMetadata :=
  mk_project (id p) (name p) (description p) (techStack p) (status p) (directory p) (createdAt p) (updatedAt p) (waitingSince p) (lastNotification p) (servingPort p) (serverProcess p) (agentProcess p) v (outputBuffer p).

Definition set_outputBuffer (v : text) (p : ProjectMetadata) : ProjectMetadata :=
  mk_project (id p) (name p) (description p) (techStack p) (status p) (directory p) (createdAt p) (updatedAt p) (waitingSince p) (lastNotification p) (servingPort p) (serverProcess p) (agentProcess p) (sessionId p) v.

(** A row of the table [pearbot_projects]: the values of its columns, as
    [saveProject] passes them to the store and as the query of [init]
    returns them.  What the store does to a value in between (the
    conversions of its column types) is not modelled: [db] below holds
    what was written, and [init] takes the rows that the query returns. *)
Record Row : Type := mk_row {
  row_id : text;
  row_name : text;
  row_description : text;
  row_tech_stack : option text;
  row_status : ProjectStatus;
  row_directory : text;
  row_serving_port : option Z;
  row_session_id : option json;
  row_created_at : Z;
  row_updated_at : Z;
  row_waiting_since : option Z;
  row_last_notification_json : option ProjectNotification
}.

(** A JavaScript [Map] with string keys: the entries in insertion order,
    each key once. *)
Module JsMap.

Definition t (V : Type) : Type := list (text * V).

Definition get {V} (k : text) (m : t V) : option V := assoc k m.

Definition has {V} (k : text) (m : t V) : bool :=
  match get k m with Some _ => true | None => false end.

(** [set] replaces the value of a key in place and appends a new key. *)
Fixpoint set {V} (k : text) (v : V) (m : t V) : t V :=
  match m with
  | [] => [(k, v)]
  | (k', v') :: m' =>
      if text_eqb k k' then (k', v) :: m' else (k', v') :: set k v m'
  end.

Definition keys {V} (m : t V) : list text := map fst m.
Definition values {V} (m : t V) : list V := map snd m.

End JsMap.

Inductive Event : Type :=
  | EvNotification (projectId : text) (notification : ProjectNotification)
  | EvMessage (projectId : text) (message : json)
  | EvAgentExit (projectId : text) (exitCode : Z).

(** A [serveProject] call that is waiting for the start-up race. *)
Record PendingServe : Type := mk_pending_serve {
  ps_projectId : text;
  ps_port : Z;
  ps_cmd : text;
  ps_serveDir : text
}.

(** The manager: the fields of [PearBotManager], followed by the part of
    the world it acts on (the table of the store, the subprocesses spawned
    and killed, what was written to their input, the events emitted) and
    the callbacks that are waiting: completion watchers, stream readers and
    the calls suspended at an [await]. *)
Record Manager : Type := mk_manager {
  projects : JsMap.t ProjectMetadata;
  agentProcesses : gmap text pid;
  serverProcesses : gmap text pid;
  allocatedPorts : gset Z;
  projectsDir : text;
  portRangeStart : Z;
  portRangeEnd : Z;
  maxConcurrentBuilds : Z;
  publicHost : text;
  db : gmap text Row;
  spawned : pid;
  killed : list pid;
  stdin : list (pid * text);
  emitted : list Event;
  agentWatchers : gmap pid text;
  serverWatchers : gmap pid (text * Z);
  readers : gmap pid (text * Utf8.dstate);
  pendingSpawns : gmap pid (text * text);
  pendingServes : gmap pid PendingServe
}.

Definition set_projects (v : JsMap.t ProjectMetadata) (m : Manager) : Manager :=
  mk_manager v (agentProcesses m) (serverProcesses m) (allocatedPorts m) (projectsDir m) (portRangeStart m) (portRangeEnd m) (maxConcurrentBuilds m) (publicHost m) (db m) (spawned m) (killed m) (stdin m) (emitted m) (agentWatchers m) (serverWatchers m) (readers m) (pendingSpawns m) (pendingServes m).

Definition set_agentProcesses (v : gmap text pid) (m : Manager) : Manager :=
  mk_manager (projects m) v (serverProcesses m) (allocatedPorts m) (projectsDir m) (portRangeStart m) (portRangeEnd m) (maxConcurrentBuilds m) (publicHost m) (db m) (spawned m) (killed m) (stdin m) (emitted m) (agentWatchers m) (serverWatchers m) (readers m) (pendingSpawns m) (pendingServes m).

Definition set_serverProcesses (v : gmap text pid) (m : Manager) : Manager :=
  mk_manager (projects m) (agentProcesses m) v (allocatedPorts m) (projectsDir m) (portRangeStart m) (portRangeEnd m) (maxConcurrentBuilds m) (publicHost m) (db m) (spawned m) (killed m) (stdin m) (emitted m) (agentWatchers m) (serverWatchers m) (readers m) (pendingSpawns m) (pendingServes m).

Definition set_allocatedPorts (v : gset Z) (m : Manager) : Manager :=
  mk_manager (projects m) (agentProcesses m) (serverProcesses m) v (projectsDir m) (portRangeStart m) (portRangeEnd m) (maxConcurrentBuilds m) (publicHost m) (db m) (spawned m) (killed m) (stdin m) (emitted m) (agentWatchers m) (serverWatchers m) (readers m) (pendingSpawns m) (pendingServes m).

Definition set_db (v : gmap text Row) (m : Manager) : Manager :=
  mk_manager (projects m) (agentProcesses m) (serverProcesses m) (allocatedPorts m) (projectsDir m) (portRangeStart m) (portRangeEnd m) (maxConcurrentBuilds m) (publicHost m) v (spawned m) (killed m) (stdin m) (emitted m) (agentWatchers m) (serverWatchers m) (readers m) (pendingSpawns m) (pendingServes m).

Definition set_spawned (v : pid) (m : Manager) : Manager :=
  mk_manager (projects m) (agentProcesses m) (serverProcesses m) (allocatedPorts m) (projectsDir m) (portRangeStart m) (portRangeEnd m) (maxConcurrentBuilds m) (publicHost m) (db m) v (killed m) (stdin m) (emitted m) (agentWatchers m) (serverWatchers m) (readers m) (pendingSpawns m) (pendingServes m).

Definition set_killed (v : list pid) (m : Manager) : Manager :=
  mk_manager (projects m) (agentProcesses m) (serverProcesses m) (allocatedPorts m) (projectsDir m) (portRangeStart m) (portRangeEnd m) (maxConcurrentBuilds m) (publicHost m) (db m) (spawned m) v (stdin m) (emitted m) (agentWatchers m) (serverWatchers m) (readers m) (pendingSpawns m) (pendingServes m).

Definition set_stdin (v : list (pid * text)) (m : Manager) : Manager :=
  mk_manager (projects m) (agentProcesses m) (serverProcesses m) (allocatedPorts m) (projectsDir m) (portRangeStart m) (portRangeEnd m) (maxConcurrentBuilds m) (publicHost m) (db m) (spawned m) (killed m) v (emitted m) (agentWatchers m) (serverWatchers m) (readers m) (pendingSpawns m) (pendingServes m).

Definition set_emitted (v : list Event) (m : Manager) : Manager :=
  mk_manager (projects m) (agentProcesses m) (serverProcesses m) (allocatedPorts m) (projectsDir m) (portRangeStart m) (portRangeEnd m) (maxConcurrentBuilds m) (publicHost m) (db m) (spawned m) (killed m) (stdin m) v (agentWatchers m) (serverWatchers m) (readers m) (pendingSpawns m) (pendingServes m).

Definition set_agentWatchers (v : gmap pid text) (m : Manager) : Manager :=
  mk_manager (projects m) (agentProcesses m) (serverProcesses m) (allocatedPorts m) (projectsDir m) (portRangeStart m) (portRangeEnd m) (maxConcurrentBuilds m) (publicHost m) (db m) (spawned m) (killed m) (stdin m) (emitted m) v (serverWatchers m) (readers m) (pendingSpawns m) (pendingServes m).

Definition set_serverWatchers (v : gmap pid (text * Z)) (m : Manager) : Manager :=
  mk_manager (projects m) (agentProcesses m) (serverProcesses m) (allocatedPorts m) (projectsDir m) (portRangeStart m) (portRangeEnd m) (maxConcurrentBuilds m) (publicHost m) (db m) (spawned m) (killed m) (stdin m) (emitted m) (agentWatchers m) v (readers m) (pendingSpawns m) (pendingServes m).

Definition set_readers (v : gmap pid (text * Utf8.dstate)) (m : Manager) : Manager :=
  mk_manager (projects m) (agentProcesses m) (serverProcesses m) (allocatedPorts m) (projectsDir m) (portRangeStart m) (portRangeEnd m) (maxConcurrentBuilds m) (publicHost m) (db m) (spawned m) (killed m) (stdin m) (emitted m) (agentWatchers m) (serverWatchers m) v (pendingSpawns m) (pendingServes m).

Definition set_pendingSpawns (v : gmap pid (text * text)) (m : Manager) : Manager :=
  mk_manager (projects m) (agentProcesses m) (serverProcesses m) (allocatedPorts m) (projectsDir m) (portRangeStart m) (portRangeEnd m) (maxConcurrentBuilds m) (publicHost m) (db m) (spawned m) (killed m) (stdin m) (emitted m) (agentWatchers m) (serverWatchers m) (readers m) v (pendingServes m).

Definition set_pendingServes (v : gmap pid PendingServe) (m : Manager) : Manager :=
  mk_manager (projects m) (agentProcesses m) (serverProcesses m) (allocatedPorts m) (projectsDir m) (portRangeStart m) (portRangeEnd m) (maxConcurrentBuilds m) (publicHost m) (db m) (spawned m) (killed m) (stdin m) (emitted m) (agentWatchers m) (serverWatchers m) (readers m) (pendingSpawns m) v.

Inductive Error : Type :=
  | NotFound (projectId : text)
  | CapacityExceeded (max : Z)
  | NoLiveAgent (projectId : text)
  | NoPortsAvailable (rangeStart rangeEnd : Z)
  | ServeStartupFailure (exitCode : Z) (cmd : text) (serveDir : text).

Inductive Result (A : Type) : Type :=
  | Ok (a : A)
  | Err (e : Error).
Arguments Ok {A} a.
Arguments Err {A} e.

(** ** The operations of the manager *)

Definition WAITING_REMINDER_INTERVAL_MS : Z := 10 * 60 * 1000.
Definition COMPLETED_CLEANUP_MS : Z := 30 * 60 * 1000.
Definition STALLED_AGENT_TIMEOUT_MS : Z := 60 * 60 * 1000.

(** [x || d] for a numeric setting. *)
Definition or_default (x : option Z) (d : Z) : Z :=
  match x with
  | Some n => if n =? 0 then d else n
  | None => d
  end.

(** [x || null] for a string, a number and an arbitrary value. *)
Definition text_or_null (x : option text) : option text :=
  match x with
  | Some (_ :: _) => x
  | _ => None
  end.

Definition number_or_null (x : option Z) : option Z :=
  match x with
  | Some n => if n =? 0 then None else Some n
  | None => None
  end.

Definition value_or_null (x : option json) : option json :=
  match x with
  | Some v => if truthy v then Some v else None
  | None => None
  end.

(** The constructor; [dir] is the resolved projects directory. *)
Definition constructor (dir : text)
    (portRangeStart portRangeEnd maxConcurrentBuilds : option Z)
    (publicHost : option text) : Manager :=
  {| projects := []; agentProcesses := ∅; serverProcesses := ∅;
     allocatedPorts := ∅; projectsDir := dir;
     portRangeStart := or_default portRangeStart 4000;
     portRangeEnd := or_default portRangeEnd 4999;
     maxConcurrentBuilds := or_default maxConcurrentBuilds 3;
     publicHost := default [] publicHost;
     db := ∅; spawned := 0%nat; killed := []; stdin := []; emitted := [];
     agentWatchers := ∅; serverWatchers := ∅; readers := ∅;
     pendingSpawns := ∅; pendingServes := ∅ |}.

(** The project built from a row in [init]. *)
Definition loadRow (row : Row) : ProjectMetadata :=
  {| id := row_id row;
     name := row_name row;
     description := row_description row;
     techStack := text_or_null (row_tech_stack row);
     status := if bool_decide (row_status row = building)
                  || bool_decide (row_status row = creating)
               then stopped else row_status row;
     directory := row_directory row;
     createdAt := row_created_at row;
     updatedAt := row_updated_at row;
     waitingSince := row_waiting_since row;
     lastNotification := row_last_notification_json row;
     servingPort := number_or_null (row_serving_port row);
     serverProcess := None;
     agentProcess := None;
     sessionId := value_or_null (row_session_id row);
     outputBuffer := [] |}.

(** [init]: [rows] is the result of the query on the store. *)
Definition init (m : Manager) (rows : list Row) : Manager :=
  foldl (fun m row =>
           let project := loadRow row in
           set_projects (JsMap.set (id project) project (projects m)) m)
        m rows.

(** The row that [saveProject] writes. *)
Definition row_of (project : ProjectMetadata) : Row :=
  {| row_id := id project;
     row_name := name project;
     row_description := description project;
     row_tech_stack := techStack project;
     row_status := status project;
     row_directory := directory project;
     row_serving_port := servingPort project;
     row_session_id := sessionId project;
     row_created_at := createdAt project;
     row_updated_at := updatedAt project;
     row_waiting_since := waitingSince project;
     row_last_notification_json := lastNotification project |}.

(** [saveProject(project)] for the project object held under [projectId]:
    INSERT OR REPLACE on the primary key.  (The source catches and logs a
    failure of the store; the store is taken to accept every write.) *)
Definition saveProject (projectId : text) (m : Manager) : Manager :=
  match JsMap.get projectId (projects m) with
  | Some project => set_db (<[id project := row_of project]> (db m)) m
  | None => m
  end.

(** Assignments to fields of the project object held under [projectId]:
    the object is shared, so the entry of the map changes. *)
Definition assign (projectId : text) (f : ProjectMetadata -> ProjectMetadata)
    (m : Manager) : Manager :=
  match JsMap.get projectId (projects m) with
  | Some project => set_projects (JsMap.set projectId (f project) (projects m)) m
  | None => m
  end.

Definition emit (e : Event) (m : Manager) : Manager :=
  set_emitted (emitted m ++ [e]) m.

Definition in_flight (s : ProjectStatus) : bool :=
  bool_decide (s = building) || bool_decide (s = creating).

Definition getRunningCount (m : Manager) : Z :=
  foldl (fun count p => if in_flight (status p) then count + 1 else count)
        0 (JsMap.values (projects m)).

Definition killAgentProcess (projectId : text) (m : Manager) : Manager :=
  let m1 :=
    match agentProcesses m !! projectId with
    | Some proc =>
        set_agentProcesses (delete projectId (agentProcesses m))
          (set_killed (killed m ++ [proc]) m)
    | None => m
    end in
  assign projectId (set_agentProcess None) m1.

Definition killServerProcess (projectId : text) (m : Manager) : Manager :=
  let m1 :=
    match serverProcesses m !! projectId with
    | Some proc =>
        set_serverProcesses (delete projectId (serverProcesses m))
          (set_killed (killed m ++ [proc]) m)
    | None => m
    end in
  match JsMap.get projectId (projects m1) with
  | Some project =>
      let m2 :=
        match number_or_null (servingPort project) with
        | Some port => set_allocatedPorts (allocatedPorts m1 ∖ {[port]}) m1
        | None => m1
        end in
      assign projectId (fun p => set_serverProcess None (set_servingPort None p)) m2
  | None => m1
  end.

(** The loop of [findAvailablePort], with [n] candidates left from [port]
    on; [testPort] is the answer of the operating system to the probe. *)
Fixpoint scanPorts (allocated : gset Z) (testPort : Z -> bool) (n : nat)
    (port : Z) : option Z :=
  match n with
  | O => None
  | S n' =>
      if bool_decide (port ∈ allocated) then scanPorts allocated testPort n' (port + 1)
      else if testPort port then Some port
      else scanPorts allocated testPort n' (port + 1)
  end.

Definition findAvailablePort (m : Manager) (testPort : Z -> bool) : Result Z :=
  match scanPorts (allocatedPorts m) testPort
          (Z.to_nat (portRangeEnd m - portRangeStart m + 1)) (portRangeStart m) with
  | Some port => Ok port
  | None => Err (NoPortsAvailable (portRangeStart m) (portRangeEnd m))
  end.

Definition join_lines (ls : list text) : text :=
  match ls with
  | [] => []
  | l :: ls' => l ++ concat (map (fun x => newline :: x) ls')
  end.

Definition buildCreatePrompt (name description : text) (techStack : option text)
    : text :=
  join_lines
    ([ str "Build a complete project called " ++ [dquote] ++ name ++ [dquote] ++ str ".";
       [];
       str "Description: " ++ description ]
     ++ match text_or_null techStack with
        | Some ts => [ str "Tech stack: " ++ ts ]
        | None => []
        end
     ++ [ [];
          str "Build this project from scratch in the current directory.";
          str "Follow the instructions in your system prompt for communication protocol and workflow." ]).

Definition buildOpenPrompt (project : ProjectMetadata) (task : text) : text :=
  join_lines
    (filter (fun l => l ≠ [])
       [ str "You are resuming work on an existing project called "
           ++ [dquote] ++ name project ++ [dquote] ++ str ".";
         str "Project description: " ++ description project;
         match text_or_null (techStack project) with
         | Some ts => str "Tech stack: " ++ ts
         | None => []
         end;
         [];
         str "FIRST: Explore the existing files in this directory to understand what has already been built.";
         str "THEN: Perform this task:";
         [];
         task ]).

(** [spawnAgent] up to its [await]: the process is spawned and entered in
    the table, the readers and the completion watcher are installed, and
    the call is suspended for the settle delay. *)
Definition spawnAgent_begin (projectId initialPrompt : text) (m : Manager)
    : Manager :=
  match JsMap.get projectId (projects m) with
  | None => m
  | Some _ =>
      let proc := spawned m in
      let m1 := set_spawned (S proc) m in
      let m2 := set_agentProcesses (<[projectId := proc]> (agentProcesses m1)) m1 in
      let m3 := assign projectId (set_agentProcess (Some proc)) m2 in
      let m4 := set_readers (<[proc := (projectId, Utf8.init)]> (readers m3)) m3 in
      let m5 := set_agentWatchers (<[proc := projectId]> (agentWatchers m4)) m4 in
      set_pendingSpawns (<[proc := (projectId, initialPrompt)]> (pendingSpawns m5)) m5
  end.

(** [spawnAgent] after the settle delay: the prompt is written and the
    project is building. *)
Definition spawnAgent_settle (proc : pid) (projectId initialPrompt : text)
    (now : Z) (m : Manager) : Manager :=
  let m1 := set_stdin (stdin m ++ [(proc, initialPrompt)]) m in
  let m2 := assign projectId (fun p => set_updatedAt now (set_status building p)) m1 in
  saveProject projectId m2.

Definition join (dir name : text) : text := dir ++ str "/" ++ name.

(** [createProject] up to the [await] inside [spawnAgent]; [projectId] is
    the identifier generated from the clock and the random source. *)
Definition createProject_begin (name description : text)
    (techStack : option text) (projectId : text) (now : Z) (m : Manager)
    : Manager * Result pid :=
  let running := getRunningCount m in
  if running >=? maxConcurrentBuilds m then
    (m, Err (CapacityExceeded (maxConcurrentBuilds m)))
  else
    let project :=
      {| id := projectId; name := name; description := description;
         techStack := text_or_null techStack; status := creating;
         directory := join (projectsDir m) projectId;
         createdAt := now; updatedAt := now; waitingSince := None;
         lastNotification := None; servingPort := None;
         serverProcess := None; agentProcess := None; sessionId := None;
         outputBuffer := [] |} in
    let m1 := set_projects (JsMap.set projectId project (projects m)) m in
    let m2 := saveProject projectId m1 in
    (spawnAgent_begin projectId (buildCreatePrompt name description techStack) m2,
     Ok (spawned m2)).

(** A [createProject] call during which nothing else happens; [settled]
    is the time at which the settle delay ends. *)
Definition createProject (name description : text) (techStack : option text)
    (projectId : text) (now settled : Z) (m : Manager)
    : Manager * Result (text * ProjectStatus) :=
  match createProject_begin name description techStack projectId now m with
  | (m1, Err e) => (m1, Err e)
  | (m1, Ok proc) =>
      (spawnAgent_settle proc projectId
         (buildCreatePrompt name description techStack) settled
         (set_pendingSpawns (delete proc (pendingSpawns m1)) m1),
       Ok (projectId, creating))
  end.

(** [openProject] up to the [await] inside [spawnAgent]. *)
Definition openProject_begin (projectId task : text) (now : Z) (m : Manager)
    : Manager * Result pid :=
  match JsMap.get projectId (projects m) with
  | None => (m, Err (NotFound projectId))
  | Some project =>
      let m1 := match agentProcesses m !! projectId with
                | Some _ => killAgentProcess projectId m
                | None => m
                end in
      let running := getRunningCount m1 in
      if running >=? maxConcurrentBuilds m1 then
        (m1, Err (CapacityExceeded (maxConcurrentBuilds m1)))
      else
        let prompt := buildOpenPrompt project task in
        let m2 := assign projectId (fun p => set_updatedAt now (set_status building p)) m1 in
        let m3 := saveProject projectId m2 in
        (spawnAgent_begin projectId prompt m3, Ok (spawned m3))
  end.

(** An [openProject] call during which no callback runs: the schedule
    in which nothing is observed between the spawn and the end of the
    settle delay.  What the call decides before it waits (the not-found
    and the capacity error) does not depend on the schedule.  When the
    call has killed an agent, the exit of that agent is a callback of its
    own, [AgentExited] below; a call during which it is observed is a run
    of [handle]. *)
Definition openProject (projectId task : text) (now settled : Z) (m : Manager)
    : Manager * Result ProjectStatus :=
  match openProject_begin projectId task now m with
  | (m1, Err e) => (m1, Err e)
  | (m1, Ok proc) =>
      match pendingSpawns m1 !! proc with
      | Some (_, prompt) =>
          (spawnAgent_settle proc projectId prompt settled
             (set_pendingSpawns (delete proc (pendingSpawns m1)) m1),
           Ok building)
      | None => (m1, Ok building)
      end
  end.

(** [sendToProject]: the reply to an agent.  The payload written is the
    JSON text of the user message; the log keeps its content. *)
Definition sendToProject (projectId message : text) (now : Z) (m : Manager)
    : Manager * Result ProjectStatus :=
  match JsMap.get projectId (projects m) with
  | None => (m, Err (NotFound projectId))
  | Some _ =>
      match agentProcesses m !! projectId with
      | None => (m, Err (NoLiveAgent projectId))
      | Some proc =>
          let m1 := set_stdin (stdin m ++ [(proc, message)]) m in
          let m2 := assign projectId
                      (fun p => set_updatedAt now
                                  (set_waitingSince None (set_status building p))) m1 in
          (saveProject projectId m2, Ok building)
      end
  end.

Definition sanitizeProject (p : ProjectMetadata) : ProjectMetadata :=
  set_outputBuffer [] (set_serverProcess None (set_agentProcess None p)).

Definition getStatus (projectId : option text) (m : Manager)
    : list ProjectMetadata :=
  match text_or_null projectId with
  | Some k =>
      match JsMap.get k (projects m) with
      | Some p => [sanitizeProject p]
      | None => []
      end
  | None => map sanitizeProject (JsMap.values (projects m))
  end.

(** [listProjectFiles]; [walk] is what the file system holds under a
    directory, [None] when the directory does not exist. *)
Definition listProjectFiles (projectId : text)
    (walk : text -> option (list text)) (m : Manager) : Result (list text) :=
  match JsMap.get projectId (projects m) with
  | None => Err (NotFound projectId)
  | Some project => Ok (default [] (walk (directory project)))
  end.

Definition stopProject (projectId : text) (now : Z) (m : Manager)
    : Manager * bool :=
  match JsMap.get projectId (projects m) with
  | None => (m, false)
  | Some _ =>
      let m1 := killAgentProcess projectId m in
      let m2 := killServerProcess projectId m1 in
      let m3 := assign projectId (fun p => set_updatedAt now (set_status stopped p)) m2 in
      (saveProject projectId m3, true)
  end.

(** What the host answers during a [serveProject] call: the probe of a
    port, the project root found on the file system and the command
    detected there. *)
Record Host : Type := mk_host {
  testPort : Z -> bool;
  findProjectRoot : text -> text;
  detectServeCommand : text -> text
}.

(** [serveProject] up to the race between the exit of the process and the
    grace timer. *)
Definition serveProject_begin (projectId : text) (command : option text)
    (host : Host) (m : Manager) : Manager * Result (pid * PendingServe) :=
  match JsMap.get projectId (projects m) with
  | None => (m, Err (NotFound projectId))
  | Some project =>
      let m1 := killServerProcess projectId m in
      match findAvailablePort m1 (testPort host) with
      | Err e => (m1, Err e)
      | Ok port =>
          let m2 := set_allocatedPorts ({[port]} ∪ allocatedPorts m1) m1 in
          let serveDir := findProjectRoot host (directory project) in
          let cmd := match text_or_null command with
                     | Some c => c
                     | None => detectServeCommand host serveDir
                     end in
          let proc := spawned m2 in
          let m3 := set_spawned (S proc) m2 in
          let m4 := set_serverProcesses (<[projectId := proc]> (serverProcesses m3)) m3 in
          let ps := mk_pending_serve projectId port cmd serveDir in
          (set_pendingServes (<[proc := ps]> (pendingServes m4)) m4, Ok (proc, ps))
      end
  end.

(** [serveProject] after the race: [earlyExit] is the exit code when the
    process finished within the grace window of 3000 ms. *)
Definition serveProject_settle (proc : pid) (ps : PendingServe)
    (earlyExit : option Z) (now : Z) (m : Manager) : Manager * Result (Z * text) :=
  let projectId := ps_projectId ps in
  let port := ps_port ps in
  match earlyExit with
  | Some code =>
      let m1 := set_allocatedPorts (allocatedPorts m ∖ {[port]}) m in
      let m2 := set_serverProcesses (delete projectId (serverProcesses m1)) m1 in
      let m3 := assign projectId (fun p => set_updatedAt now (set_status failed p)) m2 in
      (saveProject projectId m3,
       Err (ServeStartupFailure code (ps_cmd ps) (ps_serveDir ps)))
  | None =>
      let m1 := set_serverWatchers (<[proc := (projectId, port)]> (serverWatchers m)) m in
      let m2 := assign projectId
                  (fun p => set_updatedAt now
                              (set_servingPort (Some port) (set_status serving p))) m1 in
      let host := match publicHost m with [] => str "localhost" | h => h end in
      let protocol := match publicHost m with [] => str "http" | _ => str "https" end in
      (saveProject projectId m2,
       Ok (port, protocol ++ str "://" ++ host ++ str ":" ++ decimal port))
  end.

(** A [serveProject] call during which no callback runs: the schedule
    in which nothing but the outcome of the start-up race is observed
    within the grace window.  What the call decides before it waits (the
    not-found error, the lack of a port) does not depend on the schedule.
    When the call has killed a preview, the exit of that preview is a
    callback of its own, [ServerExited] below; a call during which it is
    observed is a run of [handle]. *)
Definition serveProject (projectId : text) (command : option text)
    (host : Host) (earlyExit : option Z) (now : Z) (m : Manager)
    : Manager * Result (Z * text) :=
  match serveProject_begin projectId command host m with
  | (m1, Err e) => (m1, Err e)
  | (m1, Ok (proc, ps)) =>
      serveProject_settle proc ps earlyExit now
        (set_pendingServes (delete proc (pendingServes m1)) m1)
  end.

(** The watcher that [serveProject] leaves on the preview process. *)
Definition serverExited (projectId : text) (port : Z) (now : Z) (m : Manager)
    : Manager :=
  let m1 := set_allocatedPorts (allocatedPorts m ∖ {[port]}) m in
  let m2 := set_serverProcesses (delete projectId (serverProcesses m1)) m1 in
  match JsMap.get projectId (projects m2) with
  | Some p =>
      if bool_decide (status p = serving) then
        saveProject projectId
          (assign projectId
             (fun p => set_updatedAt now (set_servingPort None (set_status completed p))) m2)
      else m2
  | None => m2
  end.

(** The watcher that [spawnAgent] leaves on the agent process. *)
Definition agentExited (projectId : text) (exitCode : Z) (now : Z) (m : Manager)
    : Manager :=
  let m1 := set_agentProcesses (delete projectId (agentProcesses m)) m in
  match JsMap.get projectId (projects m1) with
  | Some _ =>
      let m2 := assign projectId
                  (fun p =>
                     let p1 := set_agentProcess None p in
                     let p2 := if in_flight (status p1)
                               then set_status (if exitCode =? 0 then completed else failed) p1
                               else p1 in
                     set_updatedAt now p2) m1 in
      emit (EvAgentExit projectId exitCode) (saveProject projectId m2)
  | None => m1
  end.

Definition stopAll (m : Manager) : Manager :=
  let m1 := foldl (fun m projectId => killServerProcess projectId (killAgentProcess projectId m))
                  m (JsMap.keys (projects m)) in
  set_allocatedPorts ∅ m1.

Definition timedOut : ProjectNotification :=
  {| n_status := str "failed"; n_phase := None;
     n_content := str "Agent timed out after 1 hour" |}.

(** The body of the loop of the stall sweep, for one entry of the map. *)
Definition checkStalled (now : Z) (m : Manager) (projectId : text) : Manager :=
  match JsMap.get projectId (projects m) with
  | Some project =>
      if in_flight (status project)
         && bool_decide (is_Some (agentProcesses m !! projectId)) then
        let runtime := now - createdAt project in
        if runtime >? STALLED_AGENT_TIMEOUT_MS then
          let m1 := killAgentProcess projectId m in
          let m2 := assign projectId
                      (fun p => set_updatedAt now
                                  (set_lastNotification (Some timedOut)
                                     (set_status failed p))) m1 in
          emit (EvNotification projectId timedOut) (saveProject projectId m2)
        else m
      else m
  | None => m
  end.

(** One run of the stall sweep. *)
Definition stalledCheck (now : Z) (m : Manager) : Manager :=
  foldl (checkStalled now) m (JsMap.keys (projects m)).

(** The effect of an extracted annotation on the project. *)
Definition applyNotification (projectId : text) (notification : ProjectNotification)
    (now : Z) (m : Manager) : Manager :=
  let m1 := assign projectId
              (fun p =>
                 let p1 := set_updatedAt now (set_lastNotification (Some notification) p) in
                 if text_eqb (n_status notification) (str "success") then
                   set_waitingSince None (set_status completed p1)
                 else if text_eqb (n_status notification) (str "failed") then
                   set_waitingSince None (set_status failed p1)
                 else if text_eqb (n_status notification) (str "clarify") then
                   set_waitingSince (Some now) (set_status waiting_for_input p1)
                 else p1) m in
  emit (EvNotification projectId notification) (saveProject projectId m1).

(** The loop over the content blocks of an assistant record; the flag is
    false when a block raised an exception, which ends the record. *)
Fixpoint processBlocks (projectId : text) (now : Z) (blocks : list json)
    (m : Manager) : Manager * bool :=
  match blocks with
  | [] => (m, true)
  | block :: more =>
      match prop block (str "type") with
      | None => (m, false)
      | Some ty =>
          if is_string ty "text" then
            match prop block (str "text") with
            | Some (Some v) =>
                if truthy v then
                  match v with
                  | JStr t =>
                      match parseNotification t with
                      | Some notification =>
                          processBlocks projectId now more
                            (applyNotification projectId notification now m)
                      | None => processBlocks projectId now more m
                      end
                  | _ => (m, false)
                  end
                else processBlocks projectId now more m
            | _ => processBlocks projectId now more m
            end
          else processBlocks projectId now more m
      end
  end.

(** [message.message?.content]. *)
Definition messageContent (message : json) : option json :=
  match prop message (str "message") with
  | Some (Some JNull) => None
  | Some (Some inner) => mjoin (prop inner (str "content"))
  | _ => None
  end.

(** The body of the [try] for one parsed record. *)
Definition processRecord (projectId : text) (now : Z) (message : json)
    (m : Manager) : Manager :=
  match prop message (str "type") with
  | None => m
  | Some ty =>
      let m1 :=
        if is_string ty "system"
           && is_string (mjoin (prop message (str "subtype"))) "init" then
          match value_or_null (mjoin (prop message (str "session_id"))) with
          | Some sid => assign projectId (set_sessionId (Some sid)) m
          | None => m
          end
        else m in
      let '(m2, finished) :=
        if is_string ty "assistant" then
          match messageContent message with
          | Some (JArr blocks) => processBlocks projectId now blocks m1
          | _ => (m1, true)
          end
        else (m1, true) in
      if finished then emit (EvMessage projectId message) m2 else m2
  end.

Section Reader.

(** [JSON.parse]: [None] when it throws. *)
Variable JSON_parse : text -> option json.

Definition processLine (projectId : text) (now : Z) (m : Manager)
    (line : text) : Manager :=
  if text_eqb (trim line) [] then m
  else match JSON_parse line with
       | Some message => processRecord projectId now message m
       | None => m
       end.

(** One turn of the loop of [readOutputStream], for the chunk [value]. *)
Definition readChunk (projectId : text) (decoder : Utf8.dstate)
    (value : list Byte.byte) (now : Z) (m : Manager) : Manager * Utf8.dstate :=
  match JsMap.get projectId (projects m) with
  | None => (m, decoder)
  | Some project =>
      let '(decoder', decoded) := Utf8.decode decoder value in
      let '(fragment, lines) := pop (split newline (outputBuffer project ++ decoded)) in
      let m1 := assign projectId (set_outputBuffer (default [] fragment)) m in
      (foldl (processLine projectId now) m1 lines, decoder')
  end.

(** [readOutputStream]: the chunks in the order read, each with the
    time at which it arrives. *)
Fixpoint readOutputStream (projectId : text) (decoder : Utf8.dstate)
    (chunks : list (list Byte.byte * Z)) (m : Manager) : Manager * Utf8.dstate :=
  match chunks with
  | [] => (m, decoder)
  | (value, now) :: more =>
      let '(m1, decoder1) := readChunk projectId decoder value now m in
      readOutputStream projectId decoder1 more m1
  end.

(** ** The manager as a transition system

    What can happen to a manager: the calls of the public operations,
    the resumption of a suspended call, and the callbacks of the
    subprocesses and of the timers. *)
Inductive Input : Type :=
  | CreateProject (name description : text) (techStack : option text)
      (projectId : text) (now : Z)
  | OpenProject (projectId task : text) (now : Z)
  | SpawnSettled (proc : pid) (now : Z)
  | SendToProject (projectId message : text) (now : Z)
  | StopProject (projectId : text) (now : Z)
  | ServeProject (projectId : text) (command : option text) (host : Host)
  | ServeSettled (proc : pid) (earlyExit : option Z) (now : Z)
  | StopAll
  | AgentOutput (proc : pid) (value : list Byte.byte) (now : Z)
  | AgentExited (proc : pid) (exitCode : Z) (now : Z)
  | ServerExited (proc : pid) (exitCode : Z) (now : Z)
  | StalledCheck (now : Z).

Definition handle (m : Manager) (i : Input) : Manager :=
  match i with
  | CreateProject name description techStack projectId now =>
      (* a generated identifier is not that of an existing project *)
      if JsMap.has projectId (projects m) then m
      else fst (createProject_begin name description techStack projectId now m)
  | OpenProject projectId task now => fst (openProject_begin projectId task now m)
  | SpawnSettled proc now =>
      match pendingSpawns m !! proc with
      | Some (projectId, prompt) =>
          spawnAgent_settle proc projectId prompt now
            (set_pendingSpawns (delete proc (pendingSpawns m)) m)
      | None => m
      end
  | SendToProject projectId message now => fst (sendToProject projectId message now m)
  | StopProject projectId now => fst (stopProject projectId now m)
  | ServeProject projectId command host =>
      fst (serveProject_begin projectId command host m)
  | ServeSettled proc earlyExit now =>
      match pendingServes m !! proc with
      | Some ps =>
          fst (serveProject_settle proc ps earlyExit now
                 (set_pendingServes (delete proc (pendingServes m)) m))
      | None => m
      end
  | StopAll => stopAll m
  | AgentOutput proc value now =>
      match readers m !! proc with
      | Some (projectId, decoder) =>
          let '(m1, decoder1) := readChunk projectId decoder value now m in
          set_readers (<[proc := (projectId, decoder1)]> (readers m1)) m1
      | None => m
      end
  | AgentExited proc exitCode now =>
      match agentWatchers m !! proc with
      | Some projectId =>
          agentExited projectId exitCode now
            (set_agentWatchers (delete proc (agentWatchers m)) m)
      | None => m
      end
  | ServerExited proc exitCode now =>
      match serverWatchers m !! proc with
      | Some (projectId, port) =>
          serverExited projectId port now
            (set_serverWatchers (delete proc (serverWatchers m)) m)
      | None => m
      end
  | StalledCheck now => stalledCheck now m
  end.

Definition run (m : Manager) (inputs : list Input) : Manager :=
  foldl handle m inputs.

(** The states a manager can be in: those that a run reaches from a
    freshly constructed manager loaded from the store. *)
Definition reachable (m : Manager) : Prop :=
  ∃ dir ps pe mx host rows inputs,
    m = run (init (constructor dir ps pe mx host) rows) inputs.

End Reader.

(** ** Concrete scenarios

    Small managers on which the statements below are tried. *)

Definition parse_none : text → option json := fun _ => None.

Definition demo_fresh : Manager :=
  init (constructor (str "/srv/projects") None None None None) [].

Definition demo_host : Host :=
  mk_host (fun _ => true) (fun dir => dir) (fun _ => str "npm start").

Definition proj_a : text := str "proj_a".
Definition proj_b : text := str "proj_b".

(** One project whose agent was spawned and given its prompt. *)
Definition demo_building : Manager :=
  run parse_none demo_fresh
    [ CreateProject (str "todo") (str "a todo list") None proj_a 1000;
      SpawnSettled 0%nat 3000 ].

(** One project that was opened again while its first agent was running:
    the first agent is killed, and when its exit is observed the watcher
    removes the table entry of the second agent.  The project is building
    and no agent process is attached to it. *)
Definition demo_building_no_agent : Manager :=
  run parse_none demo_fresh
    [ CreateProject (str "todo") (str "a todo list") None proj_a 1000;
      SpawnSettled 0%nat 3000;
      OpenProject proj_a (str "add a dark mode") 10000;
      AgentExited 0%nat 143 10100;
      SpawnSettled 1%nat 12000 ].

Definition proj_c : text := str "proj_c".

(** Three projects are built; the first is served, then stopped; the
    second is served and is given the port that the first has released;
    only then is the exit of the first preview process observed, and its
    watcher releases the port once more; the third project is served and
    is given the same port while the second holds it. *)
Definition demo_stale_watcher : list Input :=
  [ CreateProject (str "one") (str "first") None proj_a 1000;
    SpawnSettled 0%nat 3000;
    CreateProject (str "two") (str "second") None proj_b 1100;
    SpawnSettled 1%nat 3100;
    CreateProject (str "three") (str "third") None proj_c 1200;
    SpawnSettled 2%nat 3200;
    ServeProject proj_a None demo_host;
    ServeSettled 3%nat None 10000;
    StopProject proj_a 20000;
    ServeProject proj_b None demo_host;
    ServerExited 3%nat 143 20100;
    ServeProject proj_c None demo_host;
    ServeSettled 4%nat None 23000;
    ServeSettled 5%nat None 23100 ].

Definition demo_clarify : ProjectNotification :=
  {| n_status := str "clarify"; n_phase := None;
     n_content := str "Sidebar or top navigation?" |}.

(** ** Auxiliary definitions of the proofs *)

(** Three projects admitted one after the other fill a manager whose
    maximum is three. *)
Definition demo_full : Manager :=
  run parse_none demo_fresh
    [ CreateProject (str "one") (str "first") None (str "proj_1") 1000;
      CreateProject (str "two") (str "second") None (str "proj_2") 1100;
      CreateProject (str "three") (str "third") None (str "proj_3") 1200 ].

Definition demo_rows : list Row :=
  [ {| row_id := proj_a; row_name := str "todo"; row_description := str "a todo list";
       row_tech_stack := None; row_status := building;
       row_directory := str "/srv/projects/proj_a"; row_serving_port := None;
       row_session_id := None; row_created_at := 1000; row_updated_at := 3000;
       row_waiting_since := None; row_last_notification_json := None |};
    {| row_id := proj_b; row_name := str "blog"; row_description := str "a blog";
       row_tech_stack := Some (str "Next.js"); row_status := waiting_for_input;
       row_directory := str "/srv/projects/proj_b"; row_serving_port := None;
       row_session_id := None; row_created_at := 2000; row_updated_at := 4000;
       row_waiting_since := Some 4000;
       row_last_notification_json := Some demo_clarify |} ].

(** What the sweep leaves of a project it has failed. *)
Definition stalled_out (projectId : text) (proc : pid) (m : Manager) : Prop :=
  (∃ p, JsMap.get projectId (projects m) = Some p
        ∧ status p = failed ∧ lastNotification p = Some timedOut
        ∧ agentProcess p = None)
  ∧ agentProcesses m !! projectId = None
  ∧ proc ∈ killed m
  ∧ EvNotification projectId timedOut ∈ emitted m.

Definition demo_progress (phase : string) (what : string) : ProjectNotification :=
  {| n_status := str "progress"; n_phase := Some (str phase); n_content := str what |}.

(** The events that the reader emits for the blocks of an assistant
    record, for a record and for a line; the flag is that of
    [processBlocks]. *)
Fixpoint blockEvents (projectId : text) (blocks : list json) : list Event * bool :=
  match blocks with
  | [] => ([], true)
  | block :: more =>
      match prop block (str "type") with
      | None => ([], false)
      | Some ty =>
          if is_string ty "text" then
            match prop block (str "text") with
            | Some (Some v) =>
                if truthy v then
                  match v with
                  | JStr t =>
                      match parseNotification t with
                      | Some notification =>
                          let '(es, ok) := blockEvents projectId more in
                          (EvNotification projectId notification :: es, ok)
                      | None => blockEvents projectId more
                      end
                  | _ => ([], false)
                  end
                else blockEvents projectId more
            | _ => blockEvents projectId more
            end
          else blockEvents projectId more
      end
  end.

Definition recordEvents (projectId : text) (message : json) : list Event :=
  match prop message (str "type") with
  | None => []
  | Some ty =>
      let '(es, finished) :=
        if is_string ty "assistant" then
          match messageContent message with
          | Some (JArr blocks) => blockEvents projectId blocks
          | _ => ([], true)
          end
        else ([], true) in
      if finished then es ++ [EvMessage projectId message] else es
  end.

Definition lineEvents (JSON_parse : text → option json) (projectId : text)
    (line : text) : list Event :=
  if text_eqb (trim line) [] then []
  else match JSON_parse line with
       | Some message => recordEvents projectId message
       | None => []
       end.

(** The buffer of a project, when the project exists. *)
Definition bufferOf (projectId : text) (m : Manager) : option text :=
  outputBuffer <$> JsMap.get projectId (projects m).

(** A stand-in for [JSON.parse] that knows two lines. *)
Definition demo_annotated : text :=
  str "<pearbot status=" ++ [dquote] ++ str "clarify" ++ [dquote]
    ++ str ">Sidebar or top navigation?</pearbot>".

Definition demo_parse (line : text) : option json :=
  if text_eqb line (str "ASSISTANT") then
    Some (JObj [ (str "type", JStr (str "assistant"));
                 (str "message",
                  JObj [ (str "content",
                          JArr [ JObj [ (str "type", JStr (str "text"));
                                        (str "text", JStr demo_annotated) ] ]) ]) ])
  else if text_eqb line (str "RESULT") then
    Some (JObj [ (str "type", JStr (str "result")) ])
  else None.

Definition bytes (s : string) : list Byte.byte := list_byte_of_string s.

(** ** A direct reading of the notification pattern *)

(** The text after the prefix [w], when the text starts with [w]. *)
Fixpoint strip (w s : text) : option text :=
  match w, s with
  | [], _ => Some s
  | a :: w', b :: s' => if a =? b then strip w' s' else None
  | _ :: _, [] => None
  end.

(** The longest prefix in a class, and what follows it. *)
Fixpoint span (p : Z → bool) (s : text) : text :=
  match s with
  | c :: s' => if p c then c :: span p s' else []
  | [] => []
  end.

Fixpoint after (p : Z → bool) (s : text) : text :=
  match s with
  | c :: s' => if p c then after p s' else s
  | [] => []
  end.

(** The first suffix, from the left, on which a continuation succeeds. *)
Fixpoint first_success (k : Regex.cont) (caps : gmap nat text) (s : text)
    : option Regex.mstate :=
  match k (Regex.mk_mstate s caps) with
  | Some z => Some z
  | None =>
      match s with
      | [] => None
      | _ :: s' => first_success k caps s'
      end
  end.

Definition expect (c : Z) (s : text) : option text :=
  match s with
  | b :: s' => if c =? b then Some s' else None
  | [] => None
  end.

Definition expect_class (p : Z → bool) (s : text) : option (Z * text) :=
  match s with
  | c :: s' => if p c then Some (c, s') else None
  | [] => None
  end.

Definition close_tag : text := str "</pearbot>".

(** From the [>] of the opening tag on: the body is read up to the first
    closing tag. *)
Definition match_tail (caps : gmap nat text) (s : text) : option Regex.mstate :=
  s10 ← strip (str ">") s;
  first_success
    (fun y =>
       r ← strip close_tag (Regex.rest y);
       Some (Regex.mk_mstate r
               (<[3%nat := take (length s10 - length (Regex.rest y)) s10]> (Regex.caps y))))
    caps s10.

(** The optional phase attribute, then the rest. *)
Definition match_phase (caps : gmap nat text) (s5 : text) : option Regex.mstate :=
  '(_, s5') ← expect_class is_space s5;
  s6 ← strip (str "phase=") (after is_space s5');
  s7 ← expect dquote s6;
  s9 ← expect dquote (after not_quote s7);
  match_tail (<[2%nat := span not_quote s7]> caps) s9.

(** The whole pattern, tried at the start of [s]. *)
Definition match_here (s : text) : option Regex.mstate :=
  s1 ← strip (str "<pearbot") s;
  '(_, s1') ← expect_class is_space s1;
  s3 ← strip (str "status=") (after is_space s1');
  s4 ← expect dquote s3;
  '(c, s4') ← expect_class is_word s4;
  s5 ← expect dquote (after is_word s4');
  let caps := <[1%nat := c :: span is_word s4']> ∅ in
  match match_phase caps s5 with
  | Some z => Some z
  | None => match_tail caps s5
  end.

(** ** Well-formed annotations, in the words of the specification *)

Definition spaces (ws : text) : Prop :=
  ws ≠ [] ∧ Forall (fun c => is_space c = true) ws.

Definition keyword (w : text) : Prop :=
  w ≠ [] ∧ Forall (fun c => is_word c = true) w.

Definition unquoted (p : text) : Prop := Forall (fun c => c ≠ dquote) p.

(** The opening tag with its required status keyword and its optional
    phase. *)
Definition open_tag (st : text) (ph : option text) (tag : text) : Prop :=
  ∃ ws, spaces ws ∧ keyword st
    ∧ match ph with
      | None =>
          tag = str "<pearbot" ++ ws ++ str "status=" ++ [dquote] ++ st ++ [dquote]
                  ++ str ">"
      | Some p =>
          ∃ ws', spaces ws' ∧ unquoted p
            ∧ tag = str "<pearbot" ++ ws ++ str "status=" ++ [dquote] ++ st ++ [dquote]
                      ++ ws' ++ str "phase=" ++ [dquote] ++ p ++ [dquote] ++ str ">"
      end.

(** The text [t] holds, after the prefix [pre], a tagged span with status
    [st], phase [ph] and enclosed text [body]. *)
Definition annotated_at (t pre st : text) (ph : option text) (body : text) : Prop :=
  ∃ tag post, open_tag st ph tag ∧ t = pre ++ tag ++ body ++ close_tag ++ post.

(** [match[2] || undefined]. *)
Definition phase_or_undefined (ph : option text) : option text :=
  match ph with
  | Some ((_ :: _) as p) => Some p
  | _ => None
  end.

(** A block of text with two annotations and text around them. *)
Definition demo_block : text :=
  str "Working. <pearbot status=" ++ [dquote] ++ str "progress" ++ [dquote]
    ++ str " phase=" ++ [dquote] ++ str "coding" ++ [dquote]
    ++ str "> wrote the model </pearbot> then <pearbot status=" ++ [dquote]
    ++ str "failed" ++ [dquote] ++ str ">tests fail</pearbot> bye".

(** The buffers of a manager are fragments: none holds a newline. *)
Definition buffers_ok (m : Manager) : Prop :=
  ∀ k buffer, bufferOf k m = Some buffer → newline ∉ buffer.

(** Two managers whose projects have the same buffers. *)
Definition same_buffers (m m' : Manager) : Prop :=
  ∀ k, bufferOf k m' = bufferOf k m.

(** Texts without a well-formed annotation: a tag that is never closed, a
    tag without the status attribute, and a tag whose status is not
    quoted. *)
Definition demo_unterminated : text :=
  str "<pearbot status=" ++ [dquote] ++ str "progress" ++ [dquote]
    ++ str ">still working".

Definition demo_no_status : text :=
  str "<pearbot phase=" ++ [dquote] ++ str "coding" ++ [dquote]
    ++ str ">text</pearbot>".

Definition demo_unquoted : text := str "<pearbot status=progress>text</pearbot>".

(** An annotation whose phase is the empty string. *)
Definition demo_empty_phase : text :=
  str "<pearbot status=" ++ [dquote] ++ str "success" ++ [dquote]
    ++ str " phase=" ++ [dquote; dquote] ++ str ">done</pearbot>".

(** ** Listing the projects *)

(** An entry of [listAll]. *)
Record ProjectSummary : Type := mk_summary {
  s_id : text;
  s_name : text;
  s_status : ProjectStatus;
  s_techStack : option text;
  s_createdAt : Z;
  s_updatedAt : Z
}.

Definition summary (p : ProjectMetadata) : ProjectSummary :=
  {| s_id := id p; s_name := name p; s_status := status p;
     s_techStack := techStack p; s_createdAt := createdAt p;
     s_updatedAt := updatedAt p |}.

Definition listAll (m : Manager) : list ProjectSummary :=
  map summary (JsMap.values (projects m)).

(** ** Paths

    [join] and [normalize] of the module [path], in its POSIX flavour. *)
Module Path.

Definition slash : Z := 47.

(** [parts.join(sep)] for a separator of one code unit. *)
Definition join_with (sep : Z) (parts : list text) : text :=
  match parts with
  | [] => []
  | p :: ps => p ++ concat (map (fun x => sep :: x) ps)
  end.

(** [normalizeString], segment by segment: [res] holds the segments kept
    so far, the last one first.  An empty segment and [.] are dropped;
    [..] removes the segment before it, unless there is none or it is
    [..] itself, in which case it is kept when the path is relative. *)
Fixpoint normalizeString (allowAboveRoot : bool) (res segments : list text)
    : list text :=
  match segments with
  | [] => res
  | s :: more =>
      if text_eqb s [] || text_eqb s (str ".") then
        normalizeString allowAboveRoot res more
      else if text_eqb s (str "..") then
        match res with
        | top :: below =>
            if text_eqb top (str "..") then
              normalizeString allowAboveRoot
                (if allowAboveRoot then s :: res else res) more
            else normalizeString allowAboveRoot below more
        | [] =>
            normalizeString allowAboveRoot
              (if allowAboveRoot then [s] else []) more
        end
      else normalizeString allowAboveRoot (s :: res) more
  end.

Definition normalize (path : text) : text :=
  match path with
  | [] => str "."
  | c :: _ =>
      let isAbsolute := c =? slash in
      let trailingSeparator :=
        match last path with Some d => d =? slash | None => false end in
      let kept :=
        join_with slash
          (rev (normalizeString (negb isAbsolute) [] (split slash path))) in
      match kept with
      | [] =>
          if isAbsolute then str "/"
          else if trailingSeparator then str "./" else str "."
      | _ =>
          (if isAbsolute then [slash] else [])
            ++ kept ++ (if trailingSeparator then [slash] else [])
      end
  end.

(** [join(...args)]: the arguments that are not empty, joined by a slash
    and normalized. *)
Definition join (args : list text) : text :=
  match filter (fun a => a ≠ []) args with
  | [] => str "."
  | parts => normalize (join_with slash parts)
  end.

(** A name as a directory holds it: not empty, without a slash, and
    neither [.] nor [..]. *)
Definition plain (s : text) : bool :=
  negb (text_eqb s []) && negb (bool_decide (slash ∈ s))
  && negb (text_eqb s (str ".")) && negb (text_eqb s (str "..")).

(** A path as [resolve] returns it, the root directory apart: a slash
    before each of its names, of which there is at least one. *)
Definition resolved (path : text) : bool :=
  match split slash path with
  | [] :: s :: segments => forallb plain (s :: segments)
  | _ => false
  end.

End Path.

(** [s.replace(pattern, replacement)] for a pattern that is a string: the
    first occurrence is replaced.  (The replacements of the source hold no
    dollar sign.) *)
Fixpoint replace (pattern replacement s : text) : text :=
  match strip pattern s with
  | Some rest => replacement ++ rest
  | None =>
      match s with
      | [] => []
      | c :: s' => c :: replace pattern replacement s'
      end
  end.

Definition startsWith (w s : text) : bool :=
  match strip w s with Some _ => true | None => false end.

(** ** The file system

    What the manager reads of the disk.  A directory holds named
    entries; [Locked] is a directory that may not be read or searched, and
    [Broken] an entry on which [statSync] throws (a dangling link). *)
Module Fs.

Inductive node : Type :=
  | File (content : text)
  | Dir (entries : list (text * node))
  | Locked
  | Broken.

(** What is found at a path that is not empty; [None] when there is
    nothing. *)
Definition Disk : Type := text → option node.

Definition existsSync (n : option node) : bool :=
  match n with
  | Some Broken | None => false
  | Some _ => true
  end.

Definition isDirectory (n : node) : bool :=
  match n with
  | Dir _ | Locked => true
  | _ => false
  end.

(** The entry [name] of a directory. *)
Definition child (name : text) (n : option node) : option node :=
  match n with
  | Some (Dir entries) => assoc name entries
  | _ => None
  end.

Definition skipDirs : list text :=
  map str [ "node_modules"; ".git"; ".next"; "dist"; "build"; "__pycache__";
            ".venv"; "venv" ]%string.

(** [walkDir(dir, root)], where [n] is what the disk holds at [dir]. *)
Fixpoint walkDir (n : node) (dir root : text) {struct n} : list text :=
  match n with
  | Dir entries =>
      (fix loop (entries : list (text * node)) : list text :=
         match entries with
         | [] => []
         | (entry, sub) :: more =>
             if bool_decide (entry ∈ skipDirs) then loop more
             else
               let fullPath := Path.join [dir; entry] in
               let relativePath := replace (root ++ str "/") [] fullPath in
               match sub with
               | Broken => loop more
               | File _ => relativePath :: loop more
               | Dir _ | Locked =>
                   (relativePath ++ str "/")
                     :: walkDir sub fullPath root ++ loop more
               end
         end) entries
  | _ => []
  end.

(** The listing of a directory for [listProjectFiles]: [None] when
    [existsSync] denies the directory. *)
Definition walk (disk : Disk) (directory : text) : option (list text) :=
  match disk directory with
  | Some Broken | None => None
  | Some n => Some (walkDir n directory directory)
  end.

(** The entries that a walk reaches from a directory: the names that
    lead to the entry, none of which is skipped, through directories that
    can be read, and the entry itself, on which [statSync] succeeds. *)
Inductive visible : node → list text → node → Prop :=
  | visible_entry entries entry n :
      (entry, n) ∈ entries → entry ∉ skipDirs → n ≠ Broken →
      visible (Dir entries) [entry] n
  | visible_below entries entry below names n :
      (entry, Dir below) ∈ entries → entry ∉ skipDirs →
      visible (Dir below) names n →
      visible (Dir entries) (entry :: names) n.

(** Every name in a tree is one that a directory can hold. *)
Fixpoint names_plain (n : node) : bool :=
  match n with
  | Dir entries =>
      forallb (fun '(entry, sub) => Path.plain entry && names_plain sub) entries
  | _ => true
  end.

(** A directory holds a manifest: [package.json] or [manage.py]. *)
Definition hasManifest (n : option node) : bool :=
  existsSync (child (str "package.json") n) || existsSync (child (str "manage.py") n).

(** The test of [findProjectRoot] on an entry: a directory that is not
    hidden and not [node_modules], and that holds a manifest. *)
Definition candidate (entry : text) (sub : node) : bool :=
  isDirectory sub && negb (startsWith (str ".") entry)
  && negb (text_eqb entry (str "node_modules"))
  && hasManifest (Some sub).

(** The loop of [findProjectRoot] over the entries of [directory]. *)
Fixpoint firstRoot (directory : text) (entries : list (text * node)) : text :=
  match entries with
  | [] => directory
  | (entry, sub) :: more =>
      if candidate entry sub then Path.join [directory; entry]
      else firstRoot directory more
  end.

Definition findProjectRoot (disk : Disk) (directory : text) : text :=
  if hasManifest (disk directory) then directory
  else match disk directory with
       | Some (Dir entries) => firstRoot directory entries
       | _ => directory
       end.

(** [v?.k] for a value that may be undefined. *)
Definition chain (v : option json) (k : string) : option json :=
  match v with
  | None | Some JNull => None
  | Some w => mjoin (prop w (str k))
  end.

Definition truthy_value (v : option json) : bool :=
  match v with
  | Some w => truthy w
  | None => false
  end.

(** The body of the [try] of [detectServeCommand] for a parsed
    [package.json]: the command found, [None] when the body throws or
    falls through. *)
Definition commandOfPackage (bindAll : bool) (pkg : json) : option text :=
  dependencies ← prop pkg (str "dependencies");
  let isNext :=
    truthy_value (chain dependencies "next")
    || truthy_value (chain (mjoin (prop pkg (str "devDependencies"))) "next") in
  let hostFlag := if bindAll && isNext then str " --hostname 0.0.0.0" else [] in
  let scripts := mjoin (prop pkg (str "scripts")) in
  if truthy_value (chain scripts "dev") then Some (str "npm run dev" ++ hostFlag)
  else if truthy_value (chain scripts "start") then Some (str "npm start" ++ hostFlag)
  else if truthy_value (chain scripts "serve") then Some (str "npm run serve" ++ hostFlag)
  else None.

Section Detect.

Variable JSON_parse : text → option json.

Definition detectServeCommand (publicHost : text) (disk : Disk)
    (directory : text) : text :=
  let bindAll := negb (text_eqb publicHost []) in
  let here := disk directory in
  let fromPackage :=
    match child (str "package.json") here with
    | Some (File content) => JSON_parse content ≫= commandOfPackage bindAll
    | _ => None
    end in
  match fromPackage with
  | Some cmd => cmd
  | None =>
      if existsSync (child (str "manage.py") here) then
        if bindAll then str "python manage.py runserver 0.0.0.0"
        else str "python manage.py runserver"
      else if existsSync (child (str "app.py") here) then
        if bindAll then str "python app.py --host 0.0.0.0" else str "python app.py"
      else str "npm start"
  end.

(** The host of a [serveProject] call, for a disk and the answers of the
    operating system to the probes of the ports. *)
Definition host (publicHost : text) (disk : Disk) (probe : Z → bool) : Host :=
  mk_host probe (findProjectRoot disk) (detectServeCommand publicHost disk).

End Detect.

End Fs.

(** ** Forwarding a notification to the chat *)

Definition projectLabel (projectId : text) (m : Manager) : text :=
  match JsMap.get projectId (projects m) with
  | Some project =>
      [dquote] ++ name project ++ [dquote] ++ str " (" ++ projectId ++ str ")"
  | None => projectId
  end.

(** [forwardNotification]: the message that is sent to the chat, if any. *)
Definition forwardNotification (projectId : text)
    (notification : ProjectNotification) (m : Manager) : option text :=
  let projectLabel := projectLabel projectId m in
  if text_eqb (n_status notification) (str "clarify") then
    Some (str "<system>PEARBOT " ++ projectLabel ++ str " needs input: "
            ++ n_content notification ++ [newline]
            ++ str "Use the pearbot_reply tool with project_id=" ++ [dquote]
            ++ projectId ++ [dquote] ++ str " to respond.</system>")
  else if text_eqb (n_status notification) (str "progress") then
    Some (str "<system>PEARBOT " ++ projectLabel ++ str " progress"
            ++ match text_or_null (n_phase notification) with
               | Some phase => str " [" ++ phase ++ str "]"
               | None => []
               end
            ++ str ": " ++ n_content notification ++ str "</system>")
  else if text_eqb (n_status notification) (str "success") then
    Some (str "<system>PEARBOT " ++ projectLabel ++ str " completed successfully: "
            ++ n_content notification ++ str "</system>")
  else if text_eqb (n_status notification) (str "failed") then
    Some (str "<system>PEARBOT " ++ projectLabel ++ str " failed: "
            ++ n_content notification ++ str "</system>")
  else None.

(** The messages that the listener installed by the constructor sends for
    the events emitted. *)
Definition forwarded (m : Manager) : list text :=
  omap (fun e =>
          match e with
          | EvNotification projectId notification =>
              forwardNotification projectId notification m
          | _ => None
          end) (emitted m).

(** ** The plug-in: its tools and routes *)
Module Plugin.

(** A tool result: the text of its one content item, and the flag. *)
Record ToolResult : Type := mk_tool_result {
  content_text : text;
  isError : bool
}.

Definition ok (t : text) : ToolResult := mk_tool_result t false.
Definition err (t : text) : ToolResult := mk_tool_result t true.

(** The message of an error that the manager throws. *)
Definition errorMessage (e : Error) : text :=
  match e with
  | NotFound projectId => str "Project " ++ projectId ++ str " not found"
  | CapacityExceeded max =>
      str "Max concurrent builds reached (" ++ decimal max
        ++ str "). Stop a running project first."
  | NoLiveAgent projectId => str "Project " ++ projectId ++ str " agent not running"
  | NoPortsAvailable rangeStart rangeEnd =>
      str "No available ports in range " ++ decimal rangeStart ++ str "-"
        ++ decimal rangeEnd
  | ServeStartupFailure exitCode cmd serveDir =>
      str "Dev server exited immediately with code " ++ decimal exitCode
        ++ str ". Command: " ++ [dquote] ++ cmd ++ [dquote] ++ str " in " ++ serveDir
  end.

Definition statusText (s : ProjectStatus) : text :=
  str match s with
      | creating => "creating"
      | building => "building"
      | waiting_for_input => "waiting_for_input"
      | serving => "serving"
      | completed => "completed"
      | failed => "failed"
      | stopped => "stopped"
      end.

Definition notActive : ToolResult := err (str "Plugin not active").

(** [activate]: the manager is constructed from the settings and loaded
    from the rows of the store. *)
Definition activate (dir : text)
    (portRangeStart portRangeEnd maxConcurrentBuilds : option Z)
    (publicHost : option text) (rows : list Row) : option Manager :=
  Some (init (constructor dir portRangeStart portRangeEnd maxConcurrentBuilds
               publicHost) rows).

(** [deactivate]: the variable [manager] afterwards, and the manager that
    was stopped. *)
Definition deactivate (manager : option Manager)
    : option Manager * option Manager :=
  (None, stopAll <$> manager).

Definition pearbot_create (name description : text) (tech_stack : option text)
    (projectId : text) (now settled : Z) (manager : option Manager)
    : option Manager * ToolResult :=
  match manager with
  | None => (None, notActive)
  | Some m =>
      match createProject name description tech_stack projectId now settled m with
      | (m', Ok (projectId', status')) =>
          (Some m',
           ok (str "Project " ++ [dquote] ++ name ++ [dquote] ++ str " created (ID: "
                 ++ projectId' ++ str "). Status: " ++ statusText status' ++ str "."
                 ++ [newline]
                 ++ str "PearBot is now working. You'll receive progress updates and any questions in chat."))
      | (m', Err e) => (Some m', err (errorMessage e))
      end
  end.

Definition pearbot_reply (project_id message : text) (now : Z)
    (manager : option Manager) : option Manager * ToolResult :=
  match manager with
  | None => (None, notActive)
  | Some m =>
      match sendToProject project_id message now m with
      | (m', Ok status') =>
          (Some m',
           ok (str "Reply sent to project " ++ project_id ++ str ". Status: "
                 ++ statusText status'))
      | (m', Err e) => (Some m', err (errorMessage e))
      end
  end.

Definition pearbot_open (project_id task : text) (now settled : Z)
    (manager : option Manager) : option Manager * ToolResult :=
  match manager with
  | None => (None, notActive)
  | Some m =>
      match openProject project_id task now settled m with
      | (m', Ok status') =>
          (Some m',
           ok (str "Opened project " ++ project_id ++ str " with task: " ++ [dquote]
                 ++ take 100 task ++ [dquote] ++ str ". Status: " ++ statusText status'))
      | (m', Err e) => (Some m', err (errorMessage e))
      end
  end.

Definition pearbot_stop (project_id : text) (now : Z) (manager : option Manager)
    : option Manager * ToolResult :=
  match manager with
  | None => (None, notActive)
  | Some m =>
      let '(m', stopped') := stopProject project_id now m in
      (Some m',
       ok (if stopped' : bool
           then str "Project " ++ project_id ++ str " stopped."
           else str "Project " ++ project_id ++ str " not found."))
  end.

Definition pearbot_serve (project_id : text) (command : option text)
    (host : Host) (earlyExit : option Z) (now : Z) (manager : option Manager)
    : option Manager * ToolResult :=
  match manager with
  | None => (None, notActive)
  | Some m =>
      match serveProject project_id command host earlyExit now m with
      | (m', Ok (port, url)) =>
          (Some m',
           ok (str "Dev server started for project " ++ project_id ++ str "."
                 ++ [newline] ++ str "URL: " ++ url ++ [newline] ++ str "Port: "
                 ++ decimal port))
      | (m', Err e) => (Some m', err (errorMessage e))
      end
  end.

Definition pearbot_files (project_id : text)
    (walk : text → option (list text)) (manager : option Manager) : ToolResult :=
  match manager with
  | None => notActive
  | Some m =>
      match listProjectFiles project_id walk m with
      | Ok [] => ok (str "No files in project directory.")
      | Ok files =>
          ok (str "Files (" ++ decimal (Z.of_nat (length files)) ++ str "):"
                ++ [newline] ++ join_lines files)
      | Err e => err (errorMessage e)
      end
  end.

Definition pearbot_list (manager : option Manager) : ToolResult :=
  match manager with
  | None => notActive
  | Some m =>
      match listAll m with
      | [] => ok (str "No projects yet.")
      | projects =>
          ok (str "Projects (" ++ decimal (Z.of_nat (length projects)) ++ str "):"
                ++ [newline]
                ++ join_lines
                     (map (fun p =>
                             s_name p ++ str " (" ++ s_id p ++ str ") " ++ [8212]
                               ++ str " " ++ statusText (s_status p)
                               ++ match text_or_null (s_techStack p) with
                                  | Some ts => str " [" ++ ts ++ str "]"
                                  | None => []
                                  end) projects))
      end
  end.

Section Status.

(** The ISO text of a time stamp, which a record holds in the source. *)
Variable toISOString : Z → text.

(** The lines of [pearbot_status] for one project. *)
Definition statusLines (p : ProjectMetadata) : list text :=
  [ name p ++ str " (" ++ id p ++ str ")";
    str "  Status: " ++ statusText (status p) ]
  ++ match text_or_null (techStack p) with
     | Some ts => [ str "  Tech: " ++ ts ]
     | None => []
     end
  ++ match number_or_null (servingPort p) with
     | Some port => [ str "  Serving: http://localhost:" ++ decimal port ]
     | None => []
     end
  ++ match lastNotification p with
     | Some n =>
         [ str "  Last update [" ++ n_status n
             ++ match text_or_null (n_phase n) with
                | Some phase => str "/" ++ phase
                | None => []
                end
             ++ str "]: " ++ take 200 (n_content n) ]
     | None => []
     end
  ++ [ str "  Created: " ++ toISOString (createdAt p); [] ].

Definition pearbot_status (project_id : option text) (manager : option Manager)
    : ToolResult :=
  match manager with
  | None => notActive
  | Some m =>
      match getStatus project_id m with
      | [] =>
          ok (match text_or_null project_id with
              | Some _ => str "Project not found."
              | None => str "No projects."
              end)
      | projects => ok (join_lines (concat (map statusLines projects)))
      end
  end.

End Status.

(** The answers of the routes. *)
Inductive Answer (A : Type) : Type :=
  | Body (a : A)
  | ErrorBody (error : text).
Arguments Body {A} a.
Arguments ErrorBody {A} error.

Definition route_projects (manager : option Manager) : Answer (list ProjectSummary) :=
  match manager with
  | None => ErrorBody (str "Plugin not active")
  | Some m => Body (listAll m)
  end.

Definition route_project (projectId : text) (manager : option Manager)
    : Answer ProjectMetadata :=
  match manager with
  | None => ErrorBody (str "Plugin not active")
  | Some m =>
      match getStatus (Some projectId) m with
      | [] => ErrorBody (str "Project not found")
      | p :: _ => Body p
      end
  end.

Definition route_files (projectId : text) (walk : text → option (list text))
    (manager : option Manager) : Answer (list text) :=
  match manager with
  | None => ErrorBody (str "Plugin not active")
  | Some m =>
      match listProjectFiles projectId walk m with
      | Ok files => Body files
      | Err e => ErrorBody (errorMessage e)
      end
  end.

End Plugin.

(** ** Definitions for the invariants of the manager *)

(** What a step may not change of a project: the fields that identify it,
    and a project that has left [creating] does not return to it. *)
Definition keeps (p p' : ProjectMetadata) : Prop :=
  id p' = id p ∧ name p' = name p ∧ description p' = description p
  ∧ techStack p' = techStack p ∧ directory p' = directory p
  ∧ createdAt p' = createdAt p
  ∧ (status p' = creating → status p = creating).

(** The map of projects only grows: every project stays, a new entry is
    held under its own identifier, and the new keys come after the old
    ones, each once. *)
Definition grows (m m' : Manager) : Prop :=
  (∀ k p, JsMap.get k (projects m) = Some p →
     ∃ p', JsMap.get k (projects m') = Some p' ∧ keeps p p')
  ∧ (∀ k p', JsMap.get k (projects m') = Some p' →
       is_Some (JsMap.get k (projects m)) ∨ id p' = k)
  ∧ (∃ new, JsMap.keys (projects m') = JsMap.keys (projects m) ++ new)
  ∧ (NoDup (JsMap.keys (projects m)) → NoDup (JsMap.keys (projects m'))).

(** The settings read by the constructor. *)
Definition config (m : Manager) : text * Z * Z * Z * text :=
  (projectsDir m, portRangeStart m, portRangeEnd m, maxConcurrentBuilds m,
   publicHost m).

(** A step of the manager: the projects grow, the settings stay, an entry
    that is new in a process table belongs to a project, and a port that
    is newly reserved lies in the configured range. *)
Definition step_ok (m m' : Manager) : Prop :=
  grows m m'
  ∧ config m' = config m
  ∧ (∀ k, is_Some (agentProcesses m' !! k) →
       is_Some (agentProcesses m !! k) ∨ is_Some (JsMap.get k (projects m')))
  ∧ (∀ k, is_Some (serverProcesses m' !! k) →
       is_Some (serverProcesses m !! k) ∨ is_Some (JsMap.get k (projects m')))
  ∧ (∀ port, port ∈ allocatedPorts m' →
       port ∈ allocatedPorts m ∨ portRangeStart m <= port <= portRangeEnd m).

(** The tables of a manager are consistent: the map holds each key once
    and a project under its identifier, the process tables name projects
    only, and the reserved ports lie in the configured range. *)
Definition well_formed (m : Manager) : Prop :=
  NoDup (JsMap.keys (projects m))
  ∧ (∀ k p, JsMap.get k (projects m) = Some p → id p = k)
  ∧ (∀ k, is_Some (agentProcesses m !! k) → is_Some (JsMap.get k (projects m)))
  ∧ (∀ k, is_Some (serverProcesses m !! k) → is_Some (JsMap.get k (projects m)))
  ∧ (∀ port, port ∈ allocatedPorts m →
       portRangeStart m <= port <= portRangeEnd m).

(** ** Further scenarios *)

(** One project whose agent is running and whose preview is served. *)
Definition demo_serving : Manager :=
  run parse_none demo_fresh
    [ CreateProject (str "todo") (str "a todo list") None proj_a 1000;
      SpawnSettled 0%nat 3000;
      ServeProject proj_a None demo_host;
      ServeSettled 1%nat None 10000 ].

(** A day in the life of a manager that holds one project. *)
Definition demo_day : list Input :=
  [ ServeProject proj_a None demo_host;
    ServeSettled 1%nat None 10000;
    OpenProject proj_a (str "add a dark mode") 20000;
    SpawnSettled 2%nat 22000;
    AgentExited 0%nat 143 22100;
    StopProject proj_a 30000;
    StalledCheck 4000000;
    StopAll ].

Definition demo_success : ProjectNotification :=
  {| n_status := str "success"; n_phase := None; n_content := str "All done." |}.

(** The agent of the first project has reported success and is still
    attached; three more projects are being built, which is the maximum. *)
Definition demo_resumable : Manager :=
  run parse_none (applyNotification proj_a demo_success 5000 demo_building)
    [ CreateProject (str "one") (str "first") None (str "proj_1") 6000;
      CreateProject (str "two") (str "second") None (str "proj_2") 6100;
      CreateProject (str "three") (str "third") None (str "proj_3") 6200 ].


(** An annotation whose status is a word that the protocol does not
    know. *)
Definition demo_unknown : ProjectNotification :=
  {| n_status := str "done"; n_phase := None; n_content := str "Finished." |}.

(** A system record that opens a session. *)
Definition demo_init_record : json :=
  JObj [ (str "type", JStr (str "system")); (str "subtype", JStr (str "init"));
         (str "session_id", JStr (str "s-1")) ].

(** A project that the store holds as served on port 4000. *)
Definition demo_served_row : Row :=
  {| row_id := proj_c; row_name := str "shop"; row_description := str "a shop";
     row_tech_stack := Some []; row_status := serving;
     row_directory := str "/srv/projects/proj_c"; row_serving_port := Some 4000;
     row_session_id := Some (JStr (str "s-7")); row_created_at := 500;
     row_updated_at := 900; row_waiting_since := None;
     row_last_notification_json := Some demo_success |}.

(** The directory of a project on the disk: a manifest, sources with a
    file that is named as a build directory, dependencies, a dangling
    link and a directory that may not be read. *)
Definition demo_tree : Fs.node :=
  Fs.Dir [ (str "package.json", Fs.File (str "PACKAGE"));
           (str "node_modules", Fs.Dir [ (str "left-pad", Fs.Dir [ (str "index.js", Fs.File []) ]) ]);
           (str "src", Fs.Dir [ (str "index.ts", Fs.File []);
                                (str "build", Fs.File []);
                                (str "lib", Fs.Dir [ (str "util.ts", Fs.File []) ]) ]);
           (str "latest", Fs.Broken);
           (str "secret", Fs.Locked);
           (str "README.md", Fs.File []) ].

Definition demo_disk : Fs.Disk :=
  fun path => if text_eqb path (str "/srv/projects/proj_a") then Some demo_tree else None.

(** A project that the agent has built in a folder of its own, beside a
    hidden folder and the dependencies. *)
Definition demo_nested_tree : Fs.node :=
  Fs.Dir [ (str ".cache", Fs.Dir [ (str "package.json", Fs.File []) ]);
           (str "node_modules", Fs.Dir [ (str "package.json", Fs.File []) ]);
           (str "notes.txt", Fs.File []);
           (str "docs", Fs.Dir [ (str "index.md", Fs.File []) ]);
           (str "shop", Fs.Dir [ (str "package.json", Fs.File (str "PACKAGE"));
                                 (str "manage.py", Fs.File []) ]);
           (str "api", Fs.Dir [ (str "manage.py", Fs.File []) ]) ].

Definition demo_nested_disk : Fs.Disk :=
  fun path =>
    if text_eqb path (str "/srv/projects/proj_a") then Some demo_nested_tree
    else if text_eqb path (str "/srv/projects/proj_a/shop") then
      Fs.child (str "shop") (Some demo_nested_tree)
    else None.

(** A stand-in for [JSON.parse] that knows one manifest: a Next.js
    project with a [start] script. *)
Definition demo_package : json :=
  JObj [ (str "scripts", JObj [ (str "start", JStr (str "next start")) ]);
         (str "dependencies", JObj [ (str "next", JStr (str "14.0.0")) ]) ].

Definition demo_parse_package (content : text) : option json :=
  if text_eqb content (str "PACKAGE") then Some demo_package else None.

(** The two places that hold the processes of a project agree: the
    agent field of every record is the entry of the agent table, and the
    server field of a record is empty (the preview process is held by the
    server table alone). *)
Definition handles_agree (m : Manager) : Prop :=
  ∀ k p, JsMap.get k (projects m) = Some p →
    agentProcess p = agentProcesses m !! k ∧ serverProcess p = None.

(** The agent of a project has written the beginning of a line. *)
Definition demo_partial : Manager :=
  run demo_parse demo_fresh
    [ CreateProject (str "todo") (str "a todo list") None proj_a 1000;
      SpawnSettled 0%nat 3000;
      AgentOutput 0%nat (bytes "RESULT" ++ [Byte.x0a] ++ bytes "ASSIS") 5000 ].

(** * Properties *)

(** ** Maps and assignments *)

Lemma text_eqb_true (a b : text) : text_eqb a b = true ↔ a = b.
Proof. unfold text_eqb. apply bool_decide_eq_true. Qed.

Lemma text_eqb_refl (a : text) : text_eqb a a = true.
Proof. by apply text_eqb_true. Qed.

Lemma text_eqb_ne (a b : text) : a ≠ b → text_eqb a b = false.
Proof. intros. unfold text_eqb. by apply bool_decide_eq_false. Qed.

Lemma get_set_eq {V} (k : text) (v : V) (m : JsMap.t V) :
  JsMap.get k (JsMap.set k v m) = Some v.
Proof.
  unfold JsMap.get. induction m as [|[k' v'] m IH]; simpl.
  - by rewrite text_eqb_refl.
  - destruct (text_eqb k k') eqn:E; simpl; rewrite E; [done | exact IH].
Qed.

Lemma get_set_ne {V} (k k' : text) (v : V) (m : JsMap.t V) :
  k ≠ k' → JsMap.get k' (JsMap.set k v m) = JsMap.get k' m.
Proof.
  intros Hne. unfold JsMap.get. induction m as [|[k0 v0] m IH]; simpl.
  - rewrite text_eqb_ne; [done | congruence].
  - destruct (text_eqb k k0) eqn:E; simpl.
    + apply text_eqb_true in E as <-. by rewrite text_eqb_ne by congruence.
    + by rewrite IH.
Qed.

Lemma keys_set_present {V} (k : text) (v v0 : V) (m : JsMap.t V) :
  JsMap.get k m = Some v0 → JsMap.keys (JsMap.set k v m) = JsMap.keys m.
Proof.
  unfold JsMap.get, JsMap.keys. induction m as [|[k' v'] m IH]; simpl; [done|].
  destruct (text_eqb k k') eqn:E; simpl; [done|]. intros H. by rewrite IH.
Qed.

Lemma get_in_keys {V} (k : text) (v : V) (m : JsMap.t V) :
  JsMap.get k m = Some v → k ∈ JsMap.keys m.
Proof.
  unfold JsMap.get, JsMap.keys. induction m as [|[k' v'] m IH]; simpl; [done|].
  destruct (text_eqb k k') eqn:E.
  - apply text_eqb_true in E as ->. intros _. apply list_elem_of_here.
  - intros H. apply list_elem_of_further. by apply IH.
Qed.

Lemma get_assign_eq projectId f m p :
  JsMap.get projectId (projects m) = Some p →
  JsMap.get projectId (projects (assign projectId f m)) = Some (f p).
Proof. intros H. unfold assign. rewrite H. simpl. apply get_set_eq. Qed.

Lemma get_assign_ne projectId k f m :
  projectId ≠ k →
  JsMap.get k (projects (assign projectId f m)) = JsMap.get k (projects m).
Proof.
  intros H. unfold assign. destruct (JsMap.get projectId (projects m)); [|done].
  simpl. by apply get_set_ne.
Qed.

Lemma get_assign_none projectId f m :
  JsMap.get projectId (projects m) = None → assign projectId f m = m.
Proof. intros H. unfold assign. by rewrite H. Qed.

Lemma keys_assign projectId f m :
  JsMap.keys (projects (assign projectId f m)) = JsMap.keys (projects m).
Proof.
  unfold assign. destruct (JsMap.get projectId (projects m)) eqn:E; [|done].
  simpl. by eapply keys_set_present.
Qed.

Lemma projects_saveProject projectId m :
  projects (saveProject projectId m) = projects m.
Proof. unfold saveProject. by destruct (JsMap.get projectId (projects m)). Qed.

Lemma projects_emit e m : projects (emit e m) = projects m.
Proof. done. Qed.

Lemma db_saveProject projectId m p :
  JsMap.get projectId (projects m) = Some p →
  db (saveProject projectId m) !! id p = Some (row_of p).
Proof. intros H. unfold saveProject. rewrite H. simpl. apply lookup_insert_eq. Qed.

(** An assignment to a project changes the map of projects only, and
    saving a project changes the store only. *)
Ltac frame_tac :=
  unfold assign, saveProject, emit; repeat case_match; reflexivity.

Lemma assign_agentProcesses projectId f m :
  agentProcesses (assign projectId f m) = agentProcesses m.
Proof. frame_tac. Qed.

Lemma assign_serverProcesses projectId f m :
  serverProcesses (assign projectId f m) = serverProcesses m.
Proof. frame_tac. Qed.

Lemma assign_allocatedPorts projectId f m :
  allocatedPorts (assign projectId f m) = allocatedPorts m.
Proof. frame_tac. Qed.

Lemma assign_projectsDir projectId f m :
  projectsDir (assign projectId f m) = projectsDir m.
Proof. frame_tac. Qed.

Lemma assign_portRangeStart projectId f m :
  portRangeStart (assign projectId f m) = portRangeStart m.
Proof. frame_tac. Qed.

Lemma assign_portRangeEnd projectId f m :
  portRangeEnd (assign projectId f m) = portRangeEnd m.
Proof. frame_tac. Qed.

Lemma assign_maxConcurrentBuilds projectId f m :
  maxConcurrentBuilds (assign projectId f m) = maxConcurrentBuilds m.
Proof. frame_tac. Qed.

Lemma assign_publicHost projectId f m :
  publicHost (assign projectId f m) = publicHost m.
Proof. frame_tac. Qed.

Lemma assign_db projectId f m :
  db (assign projectId f m) = db m.
Proof. frame_tac. Qed.

Lemma assign_spawned projectId f m :
  spawned (assign projectId f m) = spawned m.
Proof. frame_tac. Qed.

Lemma assign_killed projectId f m :
  killed (assign projectId f m) = killed m.
Proof. frame_tac. Qed.

Lemma assign_stdin projectId f m :
  stdin (assign projectId f m) = stdin m.
Proof. frame_tac. Qed.

Lemma assign_emitted projectId f m :
  emitted (assign projectId f m) = emitted m.
Proof. frame_tac. Qed.

Lemma assign_agentWatchers projectId f m :
  agentWatchers (assign projectId f m) = agentWatchers m.
Proof. frame_tac. Qed.

Lemma assign_serverWatchers projectId f m :
  serverWatchers (assign projectId f m) = serverWatchers m.
Proof. frame_tac. Qed.

Lemma assign_readers projectId f m :
  readers (assign projectId f m) = readers m.
Proof. frame_tac. Qed.

Lemma assign_pendingSpawns projectId f m :
  pendingSpawns (assign projectId f m) = pendingSpawns m.
Proof. frame_tac. Qed.

Lemma assign_pendingServes projectId f m :
  pendingServes (assign projectId f m) = pendingServes m.
Proof. frame_tac. Qed.

Lemma saveProject_agentProcesses projectId m :
  agentProcesses (saveProject projectId m) = agentProcesses m.
Proof. frame_tac. Qed.

Lemma saveProject_serverProcesses projectId m :
  serverProcesses (saveProject projectId m) = serverProcesses m.
Proof. frame_tac. Qed.

Lemma saveProject_allocatedPorts projectId m :
  allocatedPorts (saveProject projectId m) = allocatedPorts m.
Proof. frame_tac. Qed.

Lemma saveProject_projectsDir projectId m :
  projectsDir (saveProject projectId m) = projectsDir m.
Proof. frame_tac. Qed.

Lemma saveProject_portRangeStart projectId m :
  portRangeStart (saveProject projectId m) = portRangeStart m.
Proof. frame_tac. Qed.

Lemma saveProject_portRangeEnd projectId m :
  portRangeEnd (saveProject projectId m) = portRangeEnd m.
Proof. frame_tac. Qed.

Lemma saveProject_maxConcurrentBuilds projectId m :
  maxConcurrentBuilds (saveProject projectId m) = maxConcurrentBuilds m.
Proof. frame_tac. Qed.

Lemma saveProject_publicHost projectId m :
  publicHost (saveProject projectId m) = publicHost m.
Proof. frame_tac. Qed.

Lemma saveProject_spawned projectId m :
  spawned (saveProject projectId m) = spawned m.
Proof. frame_tac. Qed.

Lemma saveProject_killed projectId m :
  killed (saveProject projectId m) = killed m.
Proof. frame_tac. Qed.

Lemma saveProject_stdin projectId m :
  stdin (saveProject projectId m) = stdin m.
Proof. frame_tac. Qed.

Lemma saveProject_emitted projectId m :
  emitted (saveProject projectId m) = emitted m.
Proof. frame_tac. Qed.

Lemma saveProject_agentWatchers projectId m :
  agentWatchers (saveProject projectId m) = agentWatchers m.
Proof. frame_tac. Qed.

Lemma saveProject_serverWatchers projectId m :
  serverWatchers (saveProject projectId m) = serverWatchers m.
Proof. frame_tac. Qed.

Lemma saveProject_readers projectId m :
  readers (saveProject projectId m) = readers m.
Proof. frame_tac. Qed.

Lemma saveProject_pendingSpawns projectId m :
  pendingSpawns (saveProject projectId m) = pendingSpawns m.
Proof. frame_tac. Qed.

Lemma saveProject_pendingServes projectId m :
  pendingServes (saveProject projectId m) = pendingServes m.
Proof. frame_tac. Qed.

Create Rewrite HintDb frame.

#[global] Hint Rewrite projects_saveProject projects_emit
  assign_agentProcesses assign_serverProcesses assign_allocatedPorts
  assign_projectsDir assign_portRangeStart assign_portRangeEnd
  assign_maxConcurrentBuilds assign_publicHost assign_db assign_spawned
  assign_killed assign_stdin assign_emitted assign_agentWatchers
  assign_serverWatchers assign_readers assign_pendingSpawns
  assign_pendingServes saveProject_agentProcesses saveProject_serverProcesses
  saveProject_allocatedPorts saveProject_projectsDir
  saveProject_portRangeStart saveProject_portRangeEnd
  saveProject_maxConcurrentBuilds saveProject_publicHost saveProject_spawned
  saveProject_killed saveProject_stdin saveProject_emitted
  saveProject_agentWatchers saveProject_serverWatchers saveProject_readers
  saveProject_pendingSpawns saveProject_pendingServes : frame.

(** ** The exit of an agent process *)

(** C4. When the agent process of a project exits while the project is
    building or creating, exit code 0 makes the project completed and any
    other exit code makes it failed; either way the entry of the process
    table is removed, the agent-process field of the record is cleared and
    the updated record is written to the store. *)
Theorem agentExited_in_flight projectId exitCode now m p :
  JsMap.get projectId (projects m) = Some p →
  in_flight (status p) = true →
  ∃ p',
    JsMap.get projectId (projects (agentExited projectId exitCode now m)) = Some p'
    ∧ (exitCode = 0 → status p' = completed)
    ∧ (exitCode ≠ 0 → status p' = failed)
    ∧ agentProcesses (agentExited projectId exitCode now m) !! projectId = None
    ∧ agentProcess p' = None
    ∧ db (agentExited projectId exitCode now m) !! id p' = Some (row_of p').
Proof.
  intros Hget Hfl. unfold agentExited. simpl. rewrite Hget.
  exists (set_updatedAt now
            (set_status (if exitCode =? 0 then completed else failed)
               (set_agentProcess None p))).
  assert (Hget' : ∀ f, JsMap.get projectId
            (projects (assign projectId f
               (set_agentProcesses (delete projectId (agentProcesses m)) m)))
            = Some (f p)).
  { intros f. by apply get_assign_eq. }
  repeat split.
  - autorewrite with frame. rewrite Hget'. simpl. by rewrite Hfl.
  - by intros ->.
  - intros Hne. simpl. by destruct (Z.eqb_spec exitCode 0).
  - unfold emit. simpl. autorewrite with frame. simpl. apply lookup_delete_eq.
  - unfold emit. simpl.
    match goal with |- db (saveProject _ ?m2) !! _ = Some (row_of ?q) =>
      apply (db_saveProject projectId m2 q)
    end.
    rewrite Hget'. simpl. by rewrite Hfl.
Qed.

Lemma agentExited_in_flight_witness :
  ∃ p, JsMap.get proj_a (projects demo_building) = Some p
       ∧ in_flight (status p) = true
       ∧ ∃ p', JsMap.get proj_a (projects (agentExited proj_a 7 9000 demo_building)) = Some p'
               ∧ (7 = 0 → status p' = completed)
               ∧ (7 ≠ 0 → status p' = failed)
               ∧ agentProcesses (agentExited proj_a 7 9000 demo_building) !! proj_a = None
               ∧ agentProcess p' = None
               ∧ db (agentExited proj_a 7 9000 demo_building) !! id p' = Some (row_of p').
Proof.
  eexists. split; [vm_compute; reflexivity|]. split; [reflexivity|].
  eapply (agentExited_in_flight proj_a 7 9000 demo_building);
    [vm_compute; reflexivity | reflexivity].
Defined.

(** ** Killing processes *)

Lemma killAgentProcess_spec projectId m :
  let m' := killAgentProcess projectId m in
  JsMap.get projectId (projects m')
    = set_agentProcess None <$> JsMap.get projectId (projects m)
  ∧ (∀ k, k ≠ projectId → JsMap.get k (projects m') = JsMap.get k (projects m))
  ∧ agentProcesses m' = delete projectId (agentProcesses m)
  ∧ serverProcesses m' = serverProcesses m
  ∧ allocatedPorts m' = allocatedPorts m
  ∧ (∀ proc, agentProcesses m !! projectId = Some proc → proc ∈ killed m')
  ∧ (∀ proc, proc ∈ killed m → proc ∈ killed m')
  ∧ emitted m' = emitted m
  ∧ maxConcurrentBuilds m' = maxConcurrentBuilds m.
Proof.
  unfold killAgentProcess.
  set (m1 := match agentProcesses m !! projectId with
             | Some proc => _ | None => m end).
  assert (H1 : projects m1 = projects m
               ∧ agentProcesses m1 = delete projectId (agentProcesses m)
               ∧ serverProcesses m1 = serverProcesses m
               ∧ allocatedPorts m1 = allocatedPorts m
               ∧ (∀ proc, agentProcesses m !! projectId = Some proc → proc ∈ killed m1)
               ∧ (∀ proc, proc ∈ killed m → proc ∈ killed m1)
               ∧ emitted m1 = emitted m
               ∧ maxConcurrentBuilds m1 = maxConcurrentBuilds m).
  { subst m1. destruct (agentProcesses m !! projectId) as [proc|] eqn:E; simpl.
    - repeat split; try done.
      + intros ? [= ->]. set_solver.
      + set_solver.
    - repeat split; try done. by rewrite delete_id. }
  destruct H1 as (Hp & Ha & Hs & Hal & Hk1 & Hk2 & He & Hmx).
  simpl. autorewrite with frame. repeat split; try done.
  - destruct (JsMap.get projectId (projects m)) as [p|] eqn:E.
    + simpl. erewrite get_assign_eq; [reflexivity | by rewrite Hp].
    + simpl. rewrite get_assign_none; by rewrite Hp.
  - intros k Hk. rewrite get_assign_ne by done. by rewrite Hp.
Qed.

Lemma killServerProcess_spec projectId m :
  let m' := killServerProcess projectId m in
  JsMap.get projectId (projects m')
    = (fun p => set_serverProcess None (set_servingPort None p))
        <$> JsMap.get projectId (projects m)
  ∧ (∀ k, k ≠ projectId → JsMap.get k (projects m') = JsMap.get k (projects m))
  ∧ serverProcesses m' = delete projectId (serverProcesses m)
  ∧ agentProcesses m' = agentProcesses m
  ∧ allocatedPorts m'
    = match JsMap.get projectId (projects m) with
      | Some p => match number_or_null (servingPort p) with
                  | Some port => allocatedPorts m ∖ {[port]}
                  | None => allocatedPorts m
                  end
      | None => allocatedPorts m
      end
  ∧ (∀ proc, serverProcesses m !! projectId = Some proc → proc ∈ killed m')
  ∧ (∀ proc, proc ∈ killed m → proc ∈ killed m')
  ∧ emitted m' = emitted m
  ∧ maxConcurrentBuilds m' = maxConcurrentBuilds m
  ∧ serverWatchers m' = serverWatchers m
  ∧ pendingServes m' = pendingServes m
  ∧ spawned m' = spawned m.
Proof.
  unfold killServerProcess.
  set (m1 := match serverProcesses m !! projectId with
             | Some proc => _ | None => m end).
  assert (H1 : projects m1 = projects m
               ∧ serverProcesses m1 = delete projectId (serverProcesses m)
               ∧ agentProcesses m1 = agentProcesses m
               ∧ allocatedPorts m1 = allocatedPorts m
               ∧ (∀ proc, serverProcesses m !! projectId = Some proc → proc ∈ killed m1)
               ∧ (∀ proc, proc ∈ killed m → proc ∈ killed m1)
               ∧ emitted m1 = emitted m
               ∧ maxConcurrentBuilds m1 = maxConcurrentBuilds m
               ∧ serverWatchers m1 = serverWatchers m
               ∧ pendingServes m1 = pendingServes m
               ∧ spawned m1 = spawned m).
  { subst m1. destruct (serverProcesses m !! projectId) as [proc|] eqn:E; simpl.
    - repeat split; try done.
      + intros ? [= ->]. set_solver.
      + set_solver.
    - repeat split; try done. by rewrite delete_id. }
  destruct H1 as (Hp & Hs & Ha & Hal & Hk1 & Hk2 & He & Hmx & Hw & Hps & Hsp).
  rewrite Hp. destruct (JsMap.get projectId (projects m)) as [p|] eqn:E; simpl.
  - set (m2 := match number_or_null (servingPort p) with
               | Some port => _ | None => m1 end).
    assert (H2 : projects m2 = projects m1 ∧ serverProcesses m2 = serverProcesses m1
                 ∧ agentProcesses m2 = agentProcesses m1 ∧ killed m2 = killed m1
                 ∧ emitted m2 = emitted m1
                 ∧ maxConcurrentBuilds m2 = maxConcurrentBuilds m1
                 ∧ serverWatchers m2 = serverWatchers m1
                 ∧ pendingServes m2 = pendingServes m1
                 ∧ spawned m2 = spawned m1
                 ∧ allocatedPorts m2 = match number_or_null (servingPort p) with
                                       | Some port => allocatedPorts m ∖ {[port]}
                                       | None => allocatedPorts m
                                       end).
    { subst m2. destruct (number_or_null (servingPort p)); simpl; by rewrite ?Hal. }
    destruct H2 as (Hp2 & Hs2 & Ha2 & Hk & He2 & Hmx2 & Hw2 & Hps2 & Hsp2 & Hal2).
    autorewrite with frame.
    rewrite Hs2, Ha2, Hk, He2, Hmx2, Hal2, Hw2, Hps2, Hsp2.
    repeat split; try done.
    + erewrite get_assign_eq; [reflexivity | by rewrite Hp2, Hp].
    + intros k Hk'. rewrite get_assign_ne by done. by rewrite Hp2, Hp.
  - rewrite Hp, E. by repeat split.
Qed.

(** ** Stopping a project *)




(** ** Questions and replies *)

Lemma get_applyNotification projectId notification now m :
  JsMap.get projectId (projects (applyNotification projectId notification now m))
  = (fun p =>
       let p1 := set_updatedAt now (set_lastNotification (Some notification) p) in
       if text_eqb (n_status notification) (str "success") then
         set_waitingSince None (set_status completed p1)
       else if text_eqb (n_status notification) (str "failed") then
         set_waitingSince None (set_status failed p1)
       else if text_eqb (n_status notification) (str "clarify") then
         set_waitingSince (Some now) (set_status waiting_for_input p1)
       else p1) <$> JsMap.get projectId (projects m).
Proof.
  unfold applyNotification. autorewrite with frame.
  destruct (JsMap.get projectId (projects m)) as [p|] eqn:E; simpl.
  - erewrite get_assign_eq; [reflexivity | exact E].
  - by rewrite get_assign_none.
Qed.

Lemma agentProcesses_applyNotification projectId notification now m :
  agentProcesses (applyNotification projectId notification now m) = agentProcesses m.
Proof. unfold applyNotification, emit. simpl. by autorewrite with frame. Qed.

(** C3, as the code has it.  An annotation with status clarify makes a
    building project wait for input and records the time since which it
    waits.  A reply that follows puts the project back to building and
    clears the waiting time when an agent process is attached to the
    project; when none is attached the reply fails with the no-live-agent
    error and changes nothing. *)
Theorem clarify_then_reply projectId notification message t1 t2 m p :
  JsMap.get projectId (projects m) = Some p →
  status p = building →
  n_status notification = str "clarify" →
  let m1 := applyNotification projectId notification t1 m in
  (∃ p1, JsMap.get projectId (projects m1) = Some p1
         ∧ status p1 = waiting_for_input ∧ waitingSince p1 = Some t1)
  ∧ (∀ proc, agentProcesses m !! projectId = Some proc →
       snd (sendToProject projectId message t2 m1) = Ok building
       ∧ ∃ p2, JsMap.get projectId
                 (projects (fst (sendToProject projectId message t2 m1))) = Some p2
               ∧ status p2 = building ∧ waitingSince p2 = None)
  ∧ (agentProcesses m !! projectId = None →
       sendToProject projectId message t2 m1 = (m1, Err (NoLiveAgent projectId))).
Proof.
  intros Hget Hst Hn m1.
  assert (Hg1 : JsMap.get projectId (projects m1)
                = Some (set_waitingSince (Some t1)
                          (set_status waiting_for_input
                             (set_updatedAt t1
                                (set_lastNotification (Some notification) p))))).
  { subst m1. rewrite get_applyNotification, Hget. simpl. by rewrite Hn. }
  assert (Ha1 : agentProcesses m1 = agentProcesses m)
    by apply agentProcesses_applyNotification.
  split; [by eexists|]. split.
  - intros proc Hproc. unfold sendToProject. rewrite Hg1, Ha1, Hproc. simpl.
    split; [done|]. eexists. rewrite projects_saveProject.
    split; [erewrite get_assign_eq; [reflexivity | exact Hg1]|]. done.
  - intros Hnone. unfold sendToProject. by rewrite Hg1, Ha1, Hnone.
Qed.

Lemma clarify_then_reply_witness :
  ∃ p, JsMap.get proj_a (projects demo_building) = Some p
       ∧ status p = building
       ∧ n_status demo_clarify = str "clarify"
       ∧ agentProcesses demo_building !! proj_a = Some 0%nat
       ∧ let m1 := applyNotification proj_a demo_clarify 5000 demo_building in
         snd (sendToProject proj_a (str "sidebar") 6000 m1) = Ok building.
Proof.
  eexists. split; [vm_compute; reflexivity|].
  split; [reflexivity|]. split; [reflexivity|]. split; [reflexivity|].
  edestruct (clarify_then_reply proj_a demo_clarify (str "sidebar") 5000 6000
               demo_building) as (_ & Hreply & _);
    [vm_compute; reflexivity | reflexivity | reflexivity |].
  exact (proj1 (Hreply 0%nat eq_refl)).
Defined.

(** C3, as the claim states it, fails.  A building project to which no
    agent process is attached takes the clarify annotation, and the reply
    that follows is refused and leaves the project waiting for input.  So
    does the reply to a project whose agent asked its question and then
    exited. *)
Lemma reply_without_agent_counterexample :
  (∃ p, JsMap.get proj_a (projects demo_building_no_agent) = Some p
        ∧ status p = building
        ∧ n_status demo_clarify = str "clarify"
        ∧ let m1 := applyNotification proj_a demo_clarify 13000 demo_building_no_agent in
          let m2 := fst (sendToProject proj_a (str "sidebar") 14000 m1) in
          snd (sendToProject proj_a (str "sidebar") 14000 m1) = Err (NoLiveAgent proj_a)
          ∧ (status <$> JsMap.get proj_a (projects m2)) = Some waiting_for_input
          ∧ (waitingSince <$> JsMap.get proj_a (projects m2)) = Some (Some 13000))
  ∧ (let m1 := handle demo_parse demo_building
                 (AgentOutput 0%nat (bytes "ASSISTANT" ++ [Byte.x0a]) 5000) in
     let m2 := handle demo_parse m1 (AgentExited 0%nat 0 5500) in
     let m3 := fst (sendToProject proj_a (str "sidebar") 6000 m2) in
     (status <$> JsMap.get proj_a (projects demo_building)) = Some building
     ∧ (status <$> JsMap.get proj_a (projects m1)) = Some waiting_for_input
     ∧ (waitingSince <$> JsMap.get proj_a (projects m1)) = Some (Some 5000)
     ∧ snd (sendToProject proj_a (str "sidebar") 6000 m2) = Err (NoLiveAgent proj_a)
     ∧ (status <$> JsMap.get proj_a (projects m3)) = Some waiting_for_input
     ∧ (waitingSince <$> JsMap.get proj_a (projects m3)) = Some (Some 5000)).
Proof.
  split.
  - eexists. split; [vm_compute; reflexivity|].
    split; [reflexivity|]. split; [reflexivity|]. vm_compute. done.
  - vm_compute. done.
Qed.

(** ** Serving a project *)

(** C6. When the command launched by [serveProject] exits, with any code,
    within the grace window, the call fails with the start-up error that
    carries the exit code and the command attempted; afterwards the project
    is failed, hence not serving, the port that was allocated is no longer
    reserved and no preview process is entered for the project. *)
Theorem serveProject_startup_failure projectId command host code now m m1 proc ps :
  serveProject_begin projectId command host m = (m1, Ok (proc, ps)) →
  let m' := fst (serveProject projectId command host (Some code) now m) in
  snd (serveProject projectId command host (Some code) now m)
    = Err (ServeStartupFailure code (ps_cmd ps) (ps_serveDir ps))
  ∧ ps_cmd ps = (match text_or_null command with
                 | Some c => c
                 | None => detectServeCommand host (ps_serveDir ps)
                 end)
  ∧ ps_port ps ∈ allocatedPorts m1
  ∧ (ps_port ps ∉ allocatedPorts m')
  ∧ serverProcesses m' !! projectId = None
  ∧ pendingServes m' !! proc = None
  ∧ serverWatchers m' = serverWatchers m
  ∧ ∃ p', JsMap.get projectId (projects m') = Some p'
          ∧ status p' = failed ∧ status p' ≠ serving
          ∧ db m' !! id p' = Some (row_of p').
Proof.
  intros Hbegin. unfold serveProject. rewrite Hbegin.
  unfold serveProject_begin in Hbegin.
  destruct (JsMap.get projectId (projects m)) as [p|] eqn:Hget; [|done].
  destruct (killServerProcess_spec projectId m)
    as (Hg & _ & _ & _ & _ & _ & _ & _ & _ & Hw & _).
  simpl in Hg. rewrite Hget in Hg. simpl in Hg.
  set (mk := killServerProcess projectId m) in *.
  destruct (findAvailablePort mk (testPort host)) as [port|e] eqn:Hport; [|done].
  injection Hbegin as <- <- <-. simpl.
  autorewrite with frame. simpl.
  repeat split.
  - set_solver.
  - set_solver.
  - apply lookup_delete_eq.
  - apply lookup_delete_eq.
  - done.
  - eexists. split; [erewrite get_assign_eq; [reflexivity | exact Hg]|].
    split; [done|]. split; [done|].
    match goal with |- db (saveProject _ ?m2) !! _ = Some (row_of ?q) =>
      apply (db_saveProject projectId m2 q)
    end.
    erewrite get_assign_eq; [reflexivity | exact Hg].
Qed.

Lemma serveProject_startup_failure_witness :
  ∃ m1 proc ps,
    serveProject_begin proj_a None demo_host demo_building = (m1, Ok (proc, ps))
    ∧ snd (serveProject proj_a None demo_host (Some 127) 9000 demo_building)
      = Err (ServeStartupFailure 127 (str "npm start") (str "/srv/projects/proj_a"))
    ∧ ps_port ps = 4000
    ∧ 4000 ∉ allocatedPorts
               (fst (serveProject proj_a None demo_host (Some 127) 9000 demo_building)).
Proof.
  eexists _, _, _. split; [vm_compute; reflexivity|].
  edestruct (serveProject_startup_failure proj_a None demo_host 127 9000
               demo_building) as (Hr & _ & _ & Hport & _);
    [vm_compute; reflexivity|].
  split; [exact Hr|]. split; [reflexivity | exact Hport].
Defined.

(** ** Admission of builds *)

Lemma running_count_acc (ps : list ProjectMetadata) (acc : Z) :
  foldl (fun count p => if in_flight (status p) then count + 1 else count) acc ps
  = acc + Z.of_nat (length (filter (fun p => in_flight (status p) = true) ps)).
Proof.
  revert acc. induction ps as [|p ps IH]; intros acc; simpl; [lia|].
  rewrite IH. rewrite filter_cons.
  destruct (in_flight (status p)) eqn:E.
  - rewrite decide_True by done. simpl. lia.
  - rewrite decide_False by done. done.
Qed.

Lemma getRunningCount_length m :
  getRunningCount m
  = Z.of_nat (length (filter (fun p => in_flight (status p) = true)
                        (JsMap.values (projects m)))).
Proof. unfold getRunningCount. by rewrite running_count_acc. Qed.

Lemma statuses_set (k : text) (v v0 : ProjectMetadata) (ps : JsMap.t ProjectMetadata) :
  JsMap.get k ps = Some v0 → status v = status v0 →
  map status (JsMap.values (JsMap.set k v ps)) = map status (JsMap.values ps).
Proof.
  unfold JsMap.get, JsMap.values. induction ps as [|[k' v'] ps IH]; simpl; [done|].
  destruct (text_eqb k k') eqn:E; simpl.
  - intros [= ->] ->. done.
  - intros H1 H2. by rewrite IH.
Qed.

Lemma getRunningCount_statuses m1 m2 :
  map status (JsMap.values (projects m1)) = map status (JsMap.values (projects m2)) →
  getRunningCount m1 = getRunningCount m2.
Proof.
  rewrite !getRunningCount_length. intros H. f_equal.
  assert (Hl : ∀ ps : list ProjectMetadata,
             length (filter (fun p => in_flight (status p) = true) ps)
             = length (filter (fun s => in_flight s = true) (map status ps))).
  { induction ps as [|p ps IH]; [done|]. simpl. rewrite !filter_cons.
    destruct (decide (in_flight (status p) = true)); simpl; by rewrite IH. }
  by rewrite !Hl, H.
Qed.

Lemma getRunningCount_killAgentProcess projectId m :
  getRunningCount (killAgentProcess projectId m) = getRunningCount m.
Proof.
  apply getRunningCount_statuses. unfold killAgentProcess.
  set (m1 := match agentProcesses m !! projectId with
             | Some proc => _ | None => m end).
  assert (Hp : projects m1 = projects m).
  { subst m1. by destruct (agentProcesses m !! projectId). }
  unfold assign. rewrite Hp.
  destruct (JsMap.get projectId (projects m)) as [p|] eqn:E; simpl.
  - by apply (statuses_set _ _ p).
  - by rewrite Hp.
Qed.

(** C5. [createProject] fails with the capacity error exactly when the
    number of projects that are creating or building has reached the
    configured maximum: it fails when the count equals the maximum and
    succeeds when the count is one less.  [openProject], on a known
    project, is admitted by the same test. *)
Theorem capacity_admission name description techStack projectId task now settled m :
  (snd (createProject name description techStack projectId now settled m)
     = Err (CapacityExceeded (maxConcurrentBuilds m))
   ↔ getRunningCount m >= maxConcurrentBuilds m)
  ∧ (getRunningCount m = maxConcurrentBuilds m →
       createProject name description techStack projectId now settled m
       = (m, Err (CapacityExceeded (maxConcurrentBuilds m))))
  ∧ (getRunningCount m = maxConcurrentBuilds m - 1 →
       snd (createProject name description techStack projectId now settled m)
       = Ok (projectId, creating))
  ∧ (getRunningCount m < maxConcurrentBuilds m →
       snd (createProject name description techStack projectId now settled m)
       = Ok (projectId, creating))
  ∧ (is_Some (JsMap.get projectId (projects m)) →
       (snd (openProject projectId task now settled m)
          = Err (CapacityExceeded (maxConcurrentBuilds m))
        ↔ getRunningCount m >= maxConcurrentBuilds m)
       ∧ (getRunningCount m = maxConcurrentBuilds m - 1 →
            snd (openProject projectId task now settled m) = Ok building))
  ∧ getRunningCount m
    = Z.of_nat (length (filter (fun p => in_flight (status p) = true)
                          (JsMap.values (projects m)))).
Proof.
  assert (Hc : ∀ b : bool,
             snd (createProject name description techStack projectId now settled m)
             = if getRunningCount m >=? maxConcurrentBuilds m
               then Err (CapacityExceeded (maxConcurrentBuilds m))
               else Ok (projectId, creating)).
  { intros _. unfold createProject, createProject_begin.
    by destruct (getRunningCount m >=? maxConcurrentBuilds m). }
  specialize (Hc true).
  split; [|split; [|split; [|split; [|split]]]].
  - rewrite Hc. destruct (Z.geb_spec (getRunningCount m) (maxConcurrentBuilds m));
      split; intros; try done; lia.
  - intros Heq. unfold createProject, createProject_begin.
    destruct (Z.geb_spec (getRunningCount m) (maxConcurrentBuilds m)); [done | lia].
  - intros Heq. rewrite Hc.
    destruct (Z.geb_spec (getRunningCount m) (maxConcurrentBuilds m)); [lia | done].
  - intros Hlt. rewrite Hc.
    destruct (Z.geb_spec (getRunningCount m) (maxConcurrentBuilds m)); [lia | done].
  - intros [p Hget].
    set (m1 := match agentProcesses m !! projectId with
               | Some _ => killAgentProcess projectId m
               | None => m
               end).
    assert (Hrun : getRunningCount m1 = getRunningCount m).
    { subst m1. destruct (agentProcesses m !! projectId); [|done].
      apply getRunningCount_killAgentProcess. }
    assert (Hmax : maxConcurrentBuilds m1 = maxConcurrentBuilds m).
    { subst m1. destruct (agentProcesses m !! projectId); [|done].
      by destruct (killAgentProcess_spec projectId m) as (_&_&_&_&_&_&_&_&->). }
    assert (Ho : snd (openProject projectId task now settled m)
                 = if getRunningCount m >=? maxConcurrentBuilds m
                   then Err (CapacityExceeded (maxConcurrentBuilds m))
                   else Ok building).
    { unfold openProject, openProject_begin. rewrite Hget. fold m1.
      rewrite Hrun, Hmax.
      destruct (getRunningCount m >=? maxConcurrentBuilds m); [done|].
      by repeat case_match. }
    rewrite Ho. destruct (Z.geb_spec (getRunningCount m) (maxConcurrentBuilds m));
      split; try split; intros; try done; lia.
  - apply getRunningCount_length.
Qed.

Lemma capacity_admission_witness :
  getRunningCount demo_full = maxConcurrentBuilds demo_full
  ∧ createProject (str "four") (str "fourth") None (str "proj_4") 2000 4000 demo_full
    = (demo_full, Err (CapacityExceeded 3))
  ∧ getRunningCount demo_building = maxConcurrentBuilds demo_building - 2
  ∧ snd (createProject (str "four") (str "fourth") None (str "proj_4") 2000 4000
           demo_building) = Ok (str "proj_4", creating).
Proof.
  split; [reflexivity|]. split.
  - apply (capacity_admission (str "four") (str "fourth") None (str "proj_4") []
             2000 4000 demo_full). reflexivity.
  - split; [reflexivity|].
    apply (capacity_admission (str "four") (str "fourth") None (str "proj_4") []
             2000 4000 demo_building). reflexivity.
Defined.

(** ** Loading the store at start-up *)

Lemma init_cons m row rows :
  init m (row :: rows)
  = init (set_projects (JsMap.set (row_id row) (loadRow row) (projects m)) m) rows.
Proof. done. Qed.

Lemma init_frame m rows :
  agentProcesses (init m rows) = agentProcesses m
  ∧ serverProcesses (init m rows) = serverProcesses m.
Proof.
  revert m. induction rows as [|row rows IH]; intros m; [done|].
  rewrite init_cons.
  by destruct (IH (set_projects
    (JsMap.set (row_id row) (loadRow row) (projects m)) m)) as [-> ->].
Qed.

Lemma init_get_other m rows k :
  k ∉ map row_id rows →
  JsMap.get k (projects (init m rows)) = JsMap.get k (projects m).
Proof.
  revert m. induction rows as [|row rows IH]; intros m Hk; [done|].
  rewrite init_cons, IH by set_solver. simpl.
  apply get_set_ne. set_solver.
Qed.

Lemma init_get m rows row :
  NoDup (map row_id rows) → row ∈ rows →
  JsMap.get (row_id row) (projects (init m rows)) = Some (loadRow row).
Proof.
  revert m. induction rows as [|r rows IH]; intros m Hnd Hin.
  - by apply not_elem_of_nil in Hin.
  - simpl in Hnd. apply NoDup_cons in Hnd as [Hr Hnd].
    apply elem_of_cons in Hin as [->|Hin].
    + rewrite init_cons, init_get_other by done. simpl. apply get_set_eq.
    + rewrite init_cons. by apply IH.
Qed.

(** C8. Every row of the store (the identifier is the primary key, so no
    two rows share one) is loaded at start-up as a project which is stopped
    when the stored status was building or creating and keeps the stored
    status otherwise, and to which neither an agent process nor a preview
    process is attached. *)
Theorem init_normalizes dir ps pe mx host rows row :
  NoDup (map row_id rows) →
  row ∈ rows →
  let m := init (constructor dir ps pe mx host) rows in
  ∃ p, JsMap.get (row_id row) (projects m) = Some p
       ∧ (row_status row = building ∨ row_status row = creating → status p = stopped)
       ∧ (row_status row ≠ building → row_status row ≠ creating →
            status p = row_status row)
       ∧ agentProcess p = None ∧ serverProcess p = None
       ∧ agentProcesses m !! row_id row = None
       ∧ serverProcesses m !! row_id row = None.
Proof.
  intros Hnd Hin m. exists (loadRow row).
  split; [by apply init_get|].
  destruct (init_frame (constructor dir ps pe mx host) rows) as [Ha Hs].
  subst m. rewrite Ha, Hs. simpl.
  repeat split.
  - intros [->| ->]; done.
  - intros H1 H2. rewrite !bool_decide_eq_false_2 by done. done.
Qed.

Lemma init_normalizes_witness :
  NoDup (map row_id demo_rows)
  ∧ (∃ row, row ∈ demo_rows ∧ row_status row = building
       ∧ ∃ p, JsMap.get (row_id row)
                (projects (init (constructor (str "/srv/projects") None None None None)
                             demo_rows)) = Some p
              ∧ status p = stopped ∧ agentProcess p = None ∧ serverProcess p = None).
Proof.
  assert (Hnd : NoDup (map row_id demo_rows)).
  { apply (bool_decide_unpack (NoDup (map row_id demo_rows))). vm_compute. exact I. }
  split; [exact Hnd|].
  eexists. split; [apply list_elem_of_here|]. split; [reflexivity|].
  edestruct (init_normalizes (str "/srv/projects") None None None None demo_rows)
    as (p & Hp & Hst & _ & Ha & Hs & _); [exact Hnd | apply list_elem_of_here |].
  exists p. split; [exact Hp|]. split; [apply Hst; by left|]. by split.
Defined.


(** ** The stall sweep *)

Lemma checkStalled_other now m projectId k :
  k ≠ projectId →
  JsMap.get projectId (projects (checkStalled now m k))
    = JsMap.get projectId (projects m)
  ∧ agentProcesses (checkStalled now m k) !! projectId
    = agentProcesses m !! projectId
  ∧ (∀ proc, proc ∈ killed m → proc ∈ killed (checkStalled now m k))
  ∧ (∀ e, e ∈ emitted m → e ∈ emitted (checkStalled now m k)).
Proof.
  intros Hk. unfold checkStalled.
  destruct (JsMap.get k (projects m)) as [project|]; [|done].
  destruct (in_flight (status project)
            && bool_decide (is_Some (agentProcesses m !! k))); [|done].
  destruct (now - createdAt project >? STALLED_AGENT_TIMEOUT_MS); [|done].
  destruct (killAgentProcess_spec k m) as (_ & Hg & Ha & _ & _ & _ & Hkd & He & _).
  simpl in *. unfold emit. simpl. autorewrite with frame.
  rewrite get_assign_ne by done. rewrite Hg by done. rewrite Ha, He.
  rewrite lookup_delete_ne by done. repeat split; try done. set_solver.
Qed.

Lemma checkStalled_out now projectId proc m k :
  stalled_out projectId proc m → stalled_out projectId proc (checkStalled now m k).
Proof.
  intros ((p & Hget & Hst & Hn & Hap) & Hproc & Hk & He).
  destruct (decide (k = projectId)) as [->|Hne].
  - unfold checkStalled. rewrite Hget, Hst. simpl.
    unfold stalled_out. by eauto 10.
  - destruct (checkStalled_other now m projectId k Hne) as (Hg & Ha & Hkd & Hem).
    unfold stalled_out. rewrite Hg, Ha. by eauto 10.
Qed.

Lemma checkStalled_late now projectId proc m p :
  JsMap.get projectId (projects m) = Some p →
  in_flight (status p) = true →
  agentProcesses m !! projectId = Some proc →
  now - createdAt p > STALLED_AGENT_TIMEOUT_MS →
  stalled_out projectId proc (checkStalled now m projectId).
Proof.
  intros Hget Hfl Hproc Hlate. unfold checkStalled.
  rewrite Hget, Hfl, Hproc.
  rewrite bool_decide_eq_true_2 by by eexists.
  cbv zeta. simpl andb. cbv iota.
  destruct (Z.gtb_spec (now - createdAt p) STALLED_AGENT_TIMEOUT_MS); [|lia].
  destruct (killAgentProcess_spec projectId m)
    as (Hg & _ & Ha & _ & _ & Hkd & _ & He & _).
  simpl in *. rewrite Hget in Hg. simpl in Hg.
  unfold stalled_out, emit. simpl. autorewrite with frame.
  split; [|split; [|split]].
  - eexists. split; [erewrite get_assign_eq; [reflexivity | exact Hg]|]. done.
  - rewrite Ha. apply lookup_delete_eq.
  - by apply Hkd.
  - set_solver.
Qed.

Lemma stalledCheck_fold_out now projectId proc keys m :
  stalled_out projectId proc m →
  stalled_out projectId proc (foldl (checkStalled now) m keys).
Proof.
  revert m. induction keys as [|k keys IH]; intros m Hm; [done|].
  simpl. apply IH. by apply checkStalled_out.
Qed.

Lemma stalledCheck_fold_late now projectId proc keys m p :
  JsMap.get projectId (projects m) = Some p →
  in_flight (status p) = true →
  agentProcesses m !! projectId = Some proc →
  now - createdAt p > STALLED_AGENT_TIMEOUT_MS →
  projectId ∈ keys →
  stalled_out projectId proc (foldl (checkStalled now) m keys).
Proof.
  revert m. induction keys as [|k keys IH]; intros m Hget Hfl Hproc Hlate Hin.
  - by apply not_elem_of_nil in Hin.
  - simpl. destruct (decide (k = projectId)) as [->|Hne].
    + apply stalledCheck_fold_out. by eapply checkStalled_late.
    + apply elem_of_cons in Hin as [->|Hin]; [done|].
      destruct (checkStalled_other now m projectId k Hne) as (Hg & Ha & _).
      apply IH; try done; by rewrite ?Hg, ?Ha.
Qed.

Lemma stalledCheck_fold_young now projectId keys m p :
  JsMap.get projectId (projects m) = Some p →
  now - createdAt p <= STALLED_AGENT_TIMEOUT_MS →
  JsMap.get projectId (projects (foldl (checkStalled now) m keys)) = Some p.
Proof.
  revert m. induction keys as [|k keys IH]; intros m Hget Hyoung; [done|].
  simpl. apply IH; [|done].
  destruct (decide (k = projectId)) as [->|Hne].
  - unfold checkStalled. rewrite Hget.
    destruct (in_flight (status p)
              && bool_decide (is_Some (agentProcesses m !! projectId))); [|done].
    destruct (Z.gtb_spec (now - createdAt p) STALLED_AGENT_TIMEOUT_MS); [lia | done].
  - destruct (checkStalled_other now m projectId k Hne) as (Hg & _). by rewrite Hg.
Qed.

(** A progress annotation changes neither the status nor the creation
    time of a project, nor the table of agent processes. *)
Lemma progress_keeps_age projectId (progress : list (ProjectNotification * Z)) m p :
  JsMap.get projectId (projects m) = Some p →
  Forall (fun nt => n_status nt.1 = str "progress") progress →
  let m1 := foldl (fun m nt => applyNotification projectId nt.1 nt.2 m) m progress in
  (∃ p1, JsMap.get projectId (projects m1) = Some p1
         ∧ status p1 = status p ∧ createdAt p1 = createdAt p)
  ∧ agentProcesses m1 = agentProcesses m.
Proof.
  intros Hget Hall. revert m p Hget.
  induction Hall as [|[n t] progress Hn Hall IH]; intros m p Hget; simpl.
  - split; [by exists p | done].
  - simpl in Hn.
    assert (Hg : JsMap.get projectId (projects (applyNotification projectId n t m))
                 = Some (set_updatedAt t (set_lastNotification (Some n) p))).
    { rewrite get_applyNotification, Hget, Hn. reflexivity. }
    destruct (IH _ _ Hg) as ((p1 & Hp1 & Hs1 & Hc1) & Ha).
    split; [exists p1; split; [exact Hp1 | by split]|].
    etrans; [exact Ha|]. apply agentProcesses_applyNotification.
Qed.

(** C9. The stall sweep measures from the creation of the project, not
    from its last update or notification.  A project that is building or
    creating, with an agent process attached, is failed by the sweep as
    soon as the time since its creation exceeds the timeout: the agent is
    killed and removed, and a timed-out notification is made up and
    emitted.  That holds whatever progress annotations the agent has sent
    in between; and a project created less than the timeout ago is left
    as it is however old its last update. *)
Theorem stalledCheck_by_creation_time projectId proc now m p
    (progress : list (ProjectNotification * Z)) :
  JsMap.get projectId (projects m) = Some p →
  in_flight (status p) = true →
  agentProcesses m !! projectId = Some proc →
  Forall (fun nt => n_status nt.1 = str "progress") progress →
  let m1 := foldl (fun m nt => applyNotification projectId nt.1 nt.2 m) m progress in
  (now - createdAt p > STALLED_AGENT_TIMEOUT_MS →
     ∃ p', JsMap.get projectId (projects (stalledCheck now m1)) = Some p'
           ∧ status p' = failed
           ∧ lastNotification p' = Some timedOut
           ∧ agentProcess p' = None
           ∧ agentProcesses (stalledCheck now m1) !! projectId = None
           ∧ proc ∈ killed (stalledCheck now m1)
           ∧ EvNotification projectId timedOut ∈ emitted (stalledCheck now m1))
  ∧ (now - createdAt p <= STALLED_AGENT_TIMEOUT_MS →
     JsMap.get projectId (projects (stalledCheck now m)) = Some p).
Proof.
  intros Hget Hfl Hproc Hall m1. split.
  - intros Hlate.
    destruct (progress_keeps_age projectId progress m p Hget Hall)
      as ((p1 & Hp1 & Hs1 & Hc1) & Ha).
    fold m1 in Hp1, Ha.
    assert (Hout : stalled_out projectId proc (stalledCheck now m1)).
    { unfold stalledCheck. apply (stalledCheck_fold_late _ _ _ _ _ p1); try done.
      - by rewrite Hs1.
      - by rewrite Ha.
      - by rewrite Hc1.
      - by eapply get_in_keys. }
    destruct Hout as ((p' & Hp' & Hst & Hn & Hap) & Hnone & Hk & He).
    exists p'. done.
  - intros Hyoung. unfold stalledCheck. by apply stalledCheck_fold_young.
Qed.

Lemma stalledCheck_by_creation_time_witness :
  ∃ p, JsMap.get proj_a (projects demo_building) = Some p
       ∧ in_flight (status p) = true
       ∧ agentProcesses demo_building !! proj_a = Some 0%nat
       ∧ 3602000 - createdAt p > STALLED_AGENT_TIMEOUT_MS
       ∧ let m1 := foldl (fun m nt => applyNotification proj_a nt.1 nt.2 m) demo_building
                     [ (demo_progress "coding" "wrote the model", 3000000);
                       (demo_progress "testing" "ran the tests", 3601000) ] in
         ∃ p', JsMap.get proj_a (projects (stalledCheck 3602000 m1)) = Some p'
               ∧ updatedAt p' = 3602000
               ∧ status p' = failed.
Proof.
  assert (Hp : ∃ p, JsMap.get proj_a (projects demo_building) = Some p
                    ∧ status p = building ∧ createdAt p = 1000)
    by (eexists; vm_compute; repeat split).
  destruct Hp as (p & Hp & Hst & Hcr).
  assert (Hfl : in_flight (status p) = true) by by rewrite Hst.
  assert (Hlate : 3602000 - createdAt p > STALLED_AGENT_TIMEOUT_MS)
    by by rewrite Hcr.
  exists p. split; [exact Hp|]. split; [exact Hfl|].
  split; [reflexivity|]. split; [exact Hlate|].
  destruct (stalledCheck_by_creation_time proj_a 0%nat 3602000 demo_building p
              [ (demo_progress "coding" "wrote the model", 3000000);
                (demo_progress "testing" "ran the tests", 3601000) ]
              Hp Hfl eq_refl) as [H _]; [repeat constructor|].
  destruct (H Hlate) as (p' & Hp' & Hst' & _).
  exists p'. split; [exact Hp'|]. split; [|exact Hst'].
  vm_compute in Hp'. by injection Hp' as <-.
Defined.

(** ** The port allocator *)

Lemma scanPorts_spec allocated probe n start port :
  scanPorts allocated probe n start = Some port →
  (port ∉ allocated)
  ∧ probe port = true
  ∧ start <= port < start + Z.of_nat n
  ∧ ∀ q, start <= q < port → q ∈ allocated ∨ probe q = false.
Proof.
  revert start. induction n as [|n IH]; intros start; simpl; [done|].
  destruct (bool_decide (port ∈ allocated)) eqn:Hres.
  - apply bool_decide_eq_true in Hres.
    destruct (bool_decide (start ∈ allocated)) eqn:Hs.
    + intros H. apply IH in H as (H1 & _). done.
    + destruct (probe start) eqn:Hp.
      * intros [= ->]. apply bool_decide_eq_false in Hs. done.
      * intros H. apply IH in H as (H1 & _). done.
  - apply bool_decide_eq_false in Hres.
    destruct (bool_decide (start ∈ allocated)) eqn:Hs.
    + apply bool_decide_eq_true in Hs. intros H.
      apply IH in H as (_ & H2 & H3 & H4).
      repeat split; try done; try lia.
      intros q Hq. destruct (decide (q = start)) as [->|]; [by left|].
      apply H4. lia.
    + destruct (probe start) eqn:Hp.
      * intros [= ->]. repeat split; try done; try lia.
      * intros H. apply IH in H as (_ & H2 & H3 & H4).
        repeat split; try done; try lia.
        intros q Hq. destruct (decide (q = start)) as [->|]; [by right|].
        apply H4. lia.
Qed.

(** The allocator scans the configured range upwards and returns the
    first port that is neither reserved nor refused by the probe. *)
Lemma findAvailablePort_skips_reserved m probe port :
  findAvailablePort m probe = Ok port →
  (port ∉ allocatedPorts m)
  ∧ probe port = true
  ∧ portRangeStart m <= port <= portRangeEnd m
  ∧ ∀ q, portRangeStart m <= q < port → q ∈ allocatedPorts m ∨ probe q = false.
Proof.
  unfold findAvailablePort.
  destruct (scanPorts _ _ _ _) as [q|] eqn:E; [|done].
  intros [= ->]. apply scanPorts_spec in E as (H1 & H2 & H3 & H4).
  repeat split; try done; lia.
Qed.

(** C7 does not hold of the code.  The watcher that [serveProject] leaves
    on a preview process releases the port and the table entry it captured
    without checking that they still belong to that process.  In the run
    [demo_stale_watcher] the watcher of the first project, stopped long
    before, releases the port that the second project has been given in
    the meantime; the allocator then hands the same port to the third
    project, and both end up serving on it. *)
Theorem stale_watcher_double_allocation :
  let m := run parse_none demo_fresh demo_stale_watcher in
  reachable parse_none m
  ∧ (status <$> JsMap.get proj_b (projects m)) = Some serving
  ∧ (servingPort <$> JsMap.get proj_b (projects m)) = Some (Some 4000)
  ∧ serverProcesses m !! proj_b = Some 4%nat
  ∧ (status <$> JsMap.get proj_c (projects m)) = Some serving
  ∧ (servingPort <$> JsMap.get proj_c (projects m)) = Some (Some 4000)
  ∧ serverProcesses m !! proj_c = Some 5%nat
  ∧ let before := run parse_none demo_fresh (take 11 demo_stale_watcher) in
    pendingServes before !! 4%nat
      = Some (mk_pending_serve proj_b 4000 (str "npm start") (str "/srv/projects/proj_b"))
    ∧ (4000 ∉ allocatedPorts before)
    ∧ findAvailablePort before (testPort demo_host) = Ok 4000.
Proof.
  split.
  { exists (str "/srv/projects"), None, None, None, None, [], demo_stale_watcher.
    reflexivity. }
  repeat split; try (vm_compute; reflexivity).
  apply (bool_decide_unpack (4000 ∉ allocatedPorts _)). vm_compute. exact I.
Qed.

(** ** Reassembling lines *)

Lemma split_snoc (sep : Z) (s : text) : ∃ ls f, split sep s = ls ++ [f].
Proof.
  induction s as [|c s (ls & f & IH)]; simpl.
  - by exists [], [].
  - destruct (c =? sep).
    + exists ([] :: ls), f. by rewrite IH.
    + rewrite IH. destruct ls as [|l ls]; simpl.
      * by exists [], (c :: f).
      * by exists ((c :: l) :: ls), f.
Qed.

Lemma split_app (sep : Z) (a b : text) ls f :
  split sep a = ls ++ [f] → split sep (a ++ b) = ls ++ split sep (f ++ b).
Proof.
  revert ls f. induction a as [|c a IH]; intros ls f; simpl.
  - destruct ls as [|l ls]; [by intros [= <-]|].
    intros [= _ H]. by destruct ls.
  - destruct (split_snoc sep a) as (ls' & f' & Ha). rewrite Ha.
    specialize (IH ls' f' Ha).
    destruct (c =? sep) eqn:Hc.
    + intros H. change ([] :: ls' ++ [f']) with (([] :: ls') ++ [f']) in H.
      apply app_inj_tail in H as [<- <-]. simpl. by rewrite IH.
    + destruct ls' as [|l0 ls'']; simpl.
      * intros H. change [c :: f'] with ([] ++ [c :: f']) in H.
        apply app_inj_tail in H as [<- <-]. simpl. rewrite Hc.
        simpl in IH. by rewrite IH.
      * intros H. change ((c :: l0) :: ls'' ++ [f']) with (((c :: l0) :: ls'') ++ [f']) in H.
        apply app_inj_tail in H as [<- <-]. simpl. by rewrite IH.
Qed.

Lemma split_whole (sep : Z) (s : text) : sep ∉ s → split sep s = [s].
Proof.
  induction s as [|c s IH]; simpl; [done|].
  intros Hc. apply not_elem_of_cons in Hc as [Hne Hs].
  destruct (Z.eqb_spec c sep); [congruence|]. by rewrite IH.
Qed.

Lemma split_fragment (sep : Z) (s : text) ls f :
  split sep s = ls ++ [f] → sep ∉ f.
Proof.
  revert ls f. induction s as [|c s IH]; intros ls f; simpl.
  - destruct ls as [|l ls]; [intros [= <-]; apply not_elem_of_nil|].
    intros [= _ H]. by destruct ls.
  - destruct (split_snoc sep s) as (ls' & f' & Hs). rewrite Hs.
    specialize (IH ls' f' Hs).
    destruct (Z.eqb_spec c sep) as [->|Hne].
    + intros H. change ([] :: ls' ++ [f']) with (([] :: ls') ++ [f']) in H.
      by apply app_inj_tail in H as [_ <-].
    + destruct ls' as [|l0 ls'']; simpl.
      * intros H. change [c :: f'] with ([] ++ [c :: f']) in H.
        apply app_inj_tail in H as [_ <-]. apply not_elem_of_cons. done.
      * intros H. change ((c :: l0) :: ls'' ++ [f']) with (((c :: l0) :: ls'') ++ [f']) in H.
        by apply app_inj_tail in H as [_ <-].
Qed.

Lemma pop_snoc {A} (ls : list A) (f : A) : pop (ls ++ [f]) = (Some f, ls).
Proof. unfold pop. by rewrite last_snoc, removelast_last. Qed.

Lemma decode_app st (a b : list Byte.byte) :
  Utf8.decode st (a ++ b)
  = let '(st1, t1) := Utf8.decode st a in
    let '(st2, t2) := Utf8.decode st1 b in
    (st2, t1 ++ t2).
Proof.
  revert st. induction a as [|x a IH]; intros st; simpl.
  - by destruct (Utf8.decode st b).
  - destruct (Utf8.step st x) as [st1 t1]. rewrite IH.
    destruct (Utf8.decode st1 a) as [st2 t2].
    destruct (Utf8.decode st2 b) as [st3 t3]. by rewrite app_assoc.
Qed.

(** ** The events of the reader *)

Lemma bufferOf_assign projectId f k m :
  (∀ p, outputBuffer (f p) = outputBuffer p) →
  bufferOf k (assign projectId f m) = bufferOf k m.
Proof.
  intros Hf. unfold bufferOf.
  destruct (decide (projectId = k)) as [->|Hne].
  - destruct (JsMap.get k (projects m)) as [p|] eqn:E.
    + erewrite get_assign_eq by exact E. simpl. by rewrite Hf.
    + rewrite get_assign_none by exact E. by rewrite E.
  - by rewrite get_assign_ne.
Qed.

Lemma bufferOf_saveProject projectId k m :
  bufferOf k (saveProject projectId m) = bufferOf k m.
Proof. unfold bufferOf. by rewrite projects_saveProject. Qed.

Lemma applyNotification_obs projectId notification now k m :
  emitted (applyNotification projectId notification now m)
    = emitted m ++ [EvNotification projectId notification]
  ∧ bufferOf k (applyNotification projectId notification now m) = bufferOf k m.
Proof.
  unfold applyNotification. split.
  - unfold emit. simpl. by autorewrite with frame.
  - change (bufferOf k (emit ?e ?x)) with (bufferOf k x).
    rewrite bufferOf_saveProject. apply bufferOf_assign.
    intros p. by repeat case_match.
Qed.

Lemma processBlocks_obs projectId now blocks k m :
  emitted (processBlocks projectId now blocks m).1
    = emitted m ++ (blockEvents projectId blocks).1
  ∧ (processBlocks projectId now blocks m).2 = (blockEvents projectId blocks).2
  ∧ bufferOf k (processBlocks projectId now blocks m).1 = bufferOf k m.
Proof.
  revert m. induction blocks as [|block more IH]; intros m; simpl.
  - by rewrite app_nil_r.
  - destruct (prop block (str "type")) as [ty|]; simpl; [|by rewrite app_nil_r].
    destruct (is_string ty "text"); [|apply IH].
    destruct (prop block (str "text")) as [[v|]|]; try apply IH.
    destruct (truthy v); [|apply IH].
    destruct v; simpl; try by rewrite app_nil_r.
    destruct (parseNotification s) as [n|]; [|apply IH].
    destruct (IH (applyNotification projectId n now m)) as (He & Hf & Hb).
    destruct (applyNotification_obs projectId n now k m) as (He' & Hb').
    destruct (blockEvents projectId more) as [es ok]. simpl in *.
    rewrite He, Hf, Hb, He', Hb'. by rewrite <- app_assoc.
Qed.

Lemma processRecord_obs projectId now message k m :
  emitted (processRecord projectId now message m)
    = emitted m ++ recordEvents projectId message
  ∧ bufferOf k (processRecord projectId now message m) = bufferOf k m.
Proof.
  unfold processRecord, recordEvents.
  destruct (prop message (str "type")) as [ty|]; [|by rewrite app_nil_r].
  set (m1 := if is_string ty "system" && _ then _ else m).
  assert (H1 : emitted m1 = emitted m ∧ bufferOf k m1 = bufferOf k m).
  { subst m1. destruct (_ && _); [|done].
    destruct (value_or_null _); [|done].
    split; [by autorewrite with frame | by apply bufferOf_assign]. }
  destruct H1 as [He1 Hb1].
  assert (Hplain : emitted (emit (EvMessage projectId message) m1)
                   = emitted m ++ [] ++ [EvMessage projectId message]
                   ∧ bufferOf k (emit (EvMessage projectId message) m1) = bufferOf k m).
  { split; [unfold emit; simpl; by rewrite He1 | exact Hb1]. }
  destruct (is_string ty "assistant"); [|exact Hplain].
  destruct (messageContent message) as [[|b|x|s|blocks|fields]|]; try exact Hplain.
  destruct (processBlocks_obs projectId now blocks k m1) as (He & Hf & Hb).
  destruct (processBlocks projectId now blocks m1) as [m2 fin].
  destruct (blockEvents projectId blocks) as [es ok]. simpl in He, Hf, Hb. subst fin.
  destruct ok.
  - split; [unfold emit; simpl; by rewrite He, He1, app_assoc|].
    etrans; [exact Hb | exact Hb1].
  - split; [by rewrite He, He1|]. etrans; [exact Hb | exact Hb1].
Qed.

Lemma processLine_obs JSON_parse projectId now k m line :
  emitted (processLine JSON_parse projectId now m line)
    = emitted m ++ lineEvents JSON_parse projectId line
  ∧ bufferOf k (processLine JSON_parse projectId now m line) = bufferOf k m.
Proof.
  unfold processLine, lineEvents.
  destruct (text_eqb (trim line) []); [by rewrite app_nil_r|].
  destruct (JSON_parse line) as [message|]; [|by rewrite app_nil_r].
  apply processRecord_obs.
Qed.

Lemma processLines_obs JSON_parse projectId now k lines m :
  emitted (foldl (processLine JSON_parse projectId now) m lines)
    = emitted m ++ concat (map (lineEvents JSON_parse projectId) lines)
  ∧ bufferOf k (foldl (processLine JSON_parse projectId now) m lines) = bufferOf k m.
Proof.
  revert m. induction lines as [|line lines IH]; intros m; simpl.
  - by rewrite app_nil_r.
  - destruct (IH (processLine JSON_parse projectId now m line)) as [-> ->].
    destruct (processLine_obs JSON_parse projectId now k m line) as [-> ->].
    by rewrite app_assoc.
Qed.

(** One turn of the reader: the decoded text is appended to the buffer,
    the complete lines are processed in order, and the last piece, which
    holds no newline, is kept. *)
Lemma readChunk_obs JSON_parse projectId decoder value now m buffer decoder' decoded ls f :
  bufferOf projectId m = Some buffer →
  Utf8.decode decoder value = (decoder', decoded) →
  split newline (buffer ++ decoded) = ls ++ [f] →
  let r := readChunk JSON_parse projectId decoder value now m in
  r.2 = decoder'
  ∧ emitted r.1 = emitted m ++ concat (map (lineEvents JSON_parse projectId) ls)
  ∧ bufferOf projectId r.1 = Some f.
Proof.
  unfold bufferOf. intros Hbuf Hdec Hsplit. unfold readChunk.
  destruct (JsMap.get projectId (projects m)) as [p|] eqn:Hget; [|done].
  injection Hbuf as Hbuf. rewrite Hdec, Hbuf, Hsplit, pop_snoc. simpl.
  destruct (processLines_obs JSON_parse projectId now projectId ls
              (assign projectId (set_outputBuffer f) m)) as [-> Hb].
  unfold bufferOf in Hb. rewrite Hb.
  autorewrite with frame. repeat split.
  erewrite get_assign_eq by exact Hget. done.
Qed.

Lemma readOutputStream_absent JSON_parse projectId decoder chunks m :
  JsMap.get projectId (projects m) = None →
  readOutputStream JSON_parse projectId decoder chunks m = (m, decoder).
Proof.
  intros Hnone. induction chunks as [|[value now] chunks IH]; [done|].
  simpl. unfold readChunk. by rewrite Hnone.
Qed.

(** Whatever the chunks, the reader ends where a single split of the
    whole decoded text would put it. *)
Lemma readOutputStream_obs JSON_parse projectId chunks :
  ∀ decoder m buffer decoder' decoded ls f,
    bufferOf projectId m = Some buffer →
    (chunks = [] → newline ∉ buffer) →
    Utf8.decode decoder (concat (map fst chunks)) = (decoder', decoded) →
    split newline (buffer ++ decoded) = ls ++ [f] →
    let r := readOutputStream JSON_parse projectId decoder chunks m in
    r.2 = decoder'
    ∧ emitted r.1 = emitted m ++ concat (map (lineEvents JSON_parse projectId) ls)
    ∧ bufferOf projectId r.1 = Some f.
Proof.
  induction chunks as [|[value now] chunks IH];
    intros decoder m buffer decoder' decoded ls f Hbuf Hnl Hdec Hsplit.
  - simpl in *. injection Hdec as <- <-. rewrite app_nil_r in Hsplit.
    rewrite split_whole in Hsplit by by apply Hnl.
    change [buffer] with ([] ++ [buffer]) in Hsplit.
    apply app_inj_tail in Hsplit as [<- <-]. simpl. by rewrite app_nil_r.
  - simpl in Hdec. rewrite decode_app in Hdec.
    destruct (Utf8.decode decoder value) as [d1 t1] eqn:Hd1.
    destruct (Utf8.decode d1 (concat (map fst chunks))) as [d2 t2] eqn:Hd2.
    injection Hdec as <- <-.
    destruct (split_snoc newline (buffer ++ t1)) as (ls1 & f1 & Hs1).
    rewrite app_assoc in Hsplit. rewrite (split_app _ _ _ _ _ Hs1) in Hsplit.
    destruct (split_snoc newline (f1 ++ t2)) as (ls2 & f2 & Hs2).
    rewrite Hs2, app_assoc in Hsplit. apply app_inj_tail in Hsplit as [<- <-].
    destruct (readChunk_obs JSON_parse projectId decoder value now m
                buffer d1 t1 ls1 f1 Hbuf Hd1 Hs1) as (Hr1 & He1 & Hb1).
    simpl.
    destruct (readChunk JSON_parse projectId decoder value now m) as [m1 dd] eqn:Hrc.
    simpl in Hr1, He1, Hb1. subst dd.
    destruct (IH d1 m1 f1 d2 t2 ls2 f2 Hb1
                (fun _ => split_fragment _ _ _ _ Hs1) Hd2 Hs2) as (Hr2 & He2 & Hb2).
    repeat split; try done.
    rewrite He2, He1, map_app, concat_app. by rewrite app_assoc.
Qed.

(** C1. Feeding a byte stream to the reader chunk by chunk, however the
    stream is cut, has the reader emit the same records and annotations,
    in the same order, as feeding the whole stream as one chunk, and the
    same fragment is left in the buffer and the same state in the decoder:
    the lines processed are the complete lines of the buffer followed by
    the whole decoded text, and what is kept is the last piece, which
    holds no newline.  (With nothing read at all, the buffer must already
    be such a fragment, as the reader always leaves it.) *)
Theorem readOutputStream_chunking JSON_parse projectId decoder
    (chunks : list (list Byte.byte * Z)) now m :
  (chunks = [] → ∀ buffer, bufferOf projectId m = Some buffer → newline ∉ buffer) →
  let whole := concat (map fst chunks) in
  let r1 := readOutputStream JSON_parse projectId decoder chunks m in
  let r2 := readOutputStream JSON_parse projectId decoder [(whole, now)] m in
  emitted r1.1 = emitted r2.1
  ∧ r1.2 = r2.2
  ∧ bufferOf projectId r1.1 = bufferOf projectId r2.1
  ∧ ∀ buffer, bufferOf projectId m = Some buffer →
      ∃ ls f,
        split newline (buffer ++ (Utf8.decode decoder whole).2) = ls ++ [f]
        ∧ emitted r1.1
          = emitted m ++ concat (map (lineEvents JSON_parse projectId) ls)
        ∧ bufferOf projectId r1.1 = Some f
        ∧ newline ∉ f.
Proof.
  intros Hnl whole r1 r2.
  destruct (bufferOf projectId m) as [buffer|] eqn:Hbuf.
  - destruct (Utf8.decode decoder whole) as [d t] eqn:Hdec.
    destruct (split_snoc newline (buffer ++ t)) as (ls & f & Hs).
    destruct (readOutputStream_obs JSON_parse projectId chunks decoder m
                buffer d t ls f Hbuf (fun H => Hnl H buffer eq_refl) Hdec Hs)
      as (H1 & H2 & H3).
    destruct (readOutputStream_obs JSON_parse projectId [(whole, now)] decoder m
                buffer d t ls f Hbuf) as (H1' & H2' & H3'); try done.
    { simpl. by rewrite app_nil_r. }
    subst r1 r2. rewrite H1, H2, H3, H1', H2', H3'.
    split; [done|]. split; [done|]. split; [done|].
    intros ? [= <-]. exists ls, f. simpl.
    split; [done|]. split; [done|]. split; [done|].
    by eapply split_fragment.
  - unfold bufferOf in Hbuf.
    destruct (JsMap.get projectId (projects m)) eqn:Hget; [done|].
    subst r1 r2. rewrite !readOutputStream_absent by done. done.
Qed.

(** A character of three bytes cut after its second byte is decoded as
    one character. *)
Example decode_across_chunks :
  (Utf8.decode (Utf8.decode Utf8.init [Byte.xe2; Byte.x82]).1 [Byte.xac]).2 = [8364]
  ∧ (Utf8.decode Utf8.init [Byte.xe2; Byte.x82]).2 = [].
Proof. split; reflexivity. Qed.

Lemma readOutputStream_chunking_witness :
  let chunks := [ (bytes "ASSIS", 5000); (bytes "TANT", 5001); ([Byte.x0a], 5002);
                  ([Byte.xe2; Byte.x82], 5003); ([Byte.xac; Byte.x0a], 5004);
                  (bytes "RESULT", 5005); ([Byte.x0a; Byte.x7b], 5006) ] in
  (chunks = [] →
     ∀ buffer, bufferOf proj_a demo_building = Some buffer → newline ∉ buffer)
  ∧ emitted (readOutputStream demo_parse proj_a Utf8.init chunks demo_building).1
    = [ EvNotification proj_a
          {| n_status := str "clarify"; n_phase := None;
             n_content := str "Sidebar or top navigation?" |};
        EvMessage proj_a (default JNull (demo_parse (str "ASSISTANT")));
        EvMessage proj_a (default JNull (demo_parse (str "RESULT"))) ]
  ∧ emitted (readOutputStream demo_parse proj_a Utf8.init chunks demo_building).1
    = emitted (readOutputStream demo_parse proj_a Utf8.init
                 [(concat (map fst chunks), 9000)] demo_building).1
  ∧ bufferOf proj_a
      (readOutputStream demo_parse proj_a Utf8.init chunks demo_building).1
    = Some (str "{").
Proof.
  intros chunks. split; [done|]. split; [vm_compute; reflexivity|]. split.
  - apply (readOutputStream_chunking demo_parse proj_a Utf8.init chunks 9000
             demo_building). done.
  - vm_compute. reflexivity.
Defined.

(** ** The matcher on the pieces of the notification pattern *)

Lemma rmatch_lit_text (w : text) k s caps :
  Regex.rmatch (foldr (fun c r => Regex.Seq (Regex.chr c) r) Regex.Empty w) k
    (Regex.mk_mstate s caps)
  = s' ← strip w s; k (Regex.mk_mstate s' caps).
Proof.
  revert s. induction w as [|a w IH]; intros s; simpl; [done|].
  destruct s as [|b s]; [done|]. simpl.
  destruct (a =? b); [apply IH | done].
Qed.

Lemma rmatch_lit (w : string) r k s caps :
  Regex.rmatch (Regex.Seq (Regex.lit w) r) k (Regex.mk_mstate s caps)
  = s' ← strip (str w) s; Regex.rmatch r k (Regex.mk_mstate s' caps).
Proof. simpl. unfold Regex.lit. apply rmatch_lit_text. Qed.

Lemma rmatch_chr (c : Z) r k s caps :
  Regex.rmatch (Regex.Seq (Regex.chr c) r) k (Regex.mk_mstate s caps)
  = s' ← expect c s; Regex.rmatch r k (Regex.mk_mstate s' caps).
Proof. simpl. destruct s as [|b s]; [done|]. simpl. by destruct (c =? b). Qed.

Lemma length_after p s : (length (after p s) <= length s)%nat.
Proof. induction s as [|c s IH]; simpl; [lia|]. destruct (p c); simpl; lia. Qed.

Lemma span_after p s : s = span p s ++ after p s.
Proof. induction s as [|c s IH]; simpl; [done|]. destruct (p c); simpl; congruence. Qed.

Lemma take_span p s : take (length s - length (after p s)) s = span p s.
Proof.
  rewrite (span_after p s) at 1 3. rewrite length_app.
  replace (length (span p s) + length (after p s) - length (after p s))%nat
    with (length (span p s)) by lia.
  by rewrite take_app_length.
Qed.

(** A greedy run of a class, followed by something that cannot start in
    the class, reads the longest run: giving characters back cannot help. *)
Lemma repeat_star_class p k fuel s caps :
  (length s < fuel)%nat →
  (∀ c s' caps', p c = true → k (Regex.mk_mstate (c :: s') caps') = None) →
  Regex.repeat (Regex.rmatch (Regex.Chr p)) [] true k fuel 0 None
    (Regex.mk_mstate s caps)
  = k (Regex.mk_mstate (after p s) caps).
Proof.
  intros Hfuel Hrej. revert fuel Hfuel.
  induction s as [|c s IH]; intros fuel Hfuel;
    (destruct fuel as [|fuel]; [simpl in Hfuel; lia|]); simpl.
  - unfold Regex.clear. simpl. by destruct (k _).
  - unfold Regex.clear. simpl. destruct (p c) eqn:Hp.
    + replace (length s =? S (length s))%nat with false
        by (symmetry; apply Nat.eqb_neq; lia).
      rewrite IH by (simpl in Hfuel; lia).
      destruct (k (Regex.mk_mstate (after p s) caps)); [done|].
      by apply Hrej.
    + done.
Qed.

Lemma repeat_plus_class p k fuel s caps :
  (S (length s) < fuel)%nat →
  (∀ c s' caps', p c = true → k (Regex.mk_mstate (c :: s') caps') = None) →
  Regex.repeat (Regex.rmatch (Regex.Chr p)) [] true k fuel 1 None
    (Regex.mk_mstate s caps)
  = '(_, s') ← expect_class p s; k (Regex.mk_mstate (after p s') caps).
Proof.
  intros Hfuel Hrej. destruct fuel as [|fuel]; [lia|]. simpl.
  unfold Regex.clear. simpl. destruct s as [|c s]; [done|]. simpl.
  destruct (p c); [|done]. simpl.
  apply repeat_star_class; [simpl in Hfuel; lia | done].
Qed.

(** A lazy run of arbitrary characters tries the continuation first and
    reads one more character only when it fails. *)
Lemma repeat_lazy_any p k fuel s caps :
  (length s < fuel)%nat →
  (∀ c, p c = true) →
  Regex.repeat (Regex.rmatch (Regex.Chr p)) [] false k fuel 0 None
    (Regex.mk_mstate s caps)
  = first_success k caps s.
Proof.
  intros Hfuel Hany. revert fuel Hfuel.
  induction s as [|c s IH]; intros fuel Hfuel;
    (destruct fuel as [|fuel]; [simpl in Hfuel; lia|]); simpl.
  - by destruct (k _).
  - destruct (k _); [done|]. unfold Regex.clear. simpl. rewrite Hany.
    replace (length s =? S (length s))%nat with false
      by (symmetry; apply Nat.eqb_neq; lia).
    apply IH. simpl in Hfuel. lia.
Qed.

(** An optional group on a text that is not empty. *)
Lemma rmatch_opt r r' k c s caps :
  Regex.rmatch (Regex.Seq (Regex.opt r) r') k (Regex.mk_mstate (c :: s) caps)
  = match Regex.rmatch r
            (fun y => if (length (Regex.rest y) =? S (length s))%nat then None
                      else Regex.rmatch r' k y)
            (Regex.clear (Regex.groups r) (Regex.mk_mstate (c :: s) caps)) with
    | Some z => Some z
    | None => Regex.rmatch r' k (Regex.mk_mstate (c :: s) caps)
    end.
Proof.
  simpl. replace (length s + 1)%nat with (S (length s)) by lia. done.
Qed.

Lemma rmatch_seq r1 r2 k x :
  Regex.rmatch (Regex.Seq r1 r2) k x = Regex.rmatch r1 (Regex.rmatch r2 k) x.
Proof. done. Qed.

Lemma rmatch_group n r k x :
  Regex.rmatch (Regex.Group n r) k x
  = Regex.rmatch r
      (fun y => k (Regex.mk_mstate (Regex.rest y)
                     (<[n := Regex.consumed x y]> (Regex.caps y)))) x.
Proof. done. Qed.

Lemma rmatch_plus p k s caps :
  (∀ c s' caps', p c = true → k (Regex.mk_mstate (c :: s') caps') = None) →
  Regex.rmatch (Regex.plus (Regex.Chr p)) k (Regex.mk_mstate s caps)
  = '(_, s') ← expect_class p s; k (Regex.mk_mstate (after p s') caps).
Proof.
  intros Hrej. unfold Regex.plus. cbn [Regex.rmatch Regex.groups Regex.rest].
  apply repeat_plus_class; [lia | done].
Qed.

Lemma rmatch_star p k s caps :
  (∀ c s' caps', p c = true → k (Regex.mk_mstate (c :: s') caps') = None) →
  Regex.rmatch (Regex.star (Regex.Chr p)) k (Regex.mk_mstate s caps)
  = k (Regex.mk_mstate (after p s) caps).
Proof.
  intros Hrej. unfold Regex.star. cbn [Regex.rmatch Regex.groups Regex.rest].
  apply repeat_star_class; [lia | done].
Qed.

Lemma rmatch_lazy_star p k s caps :
  (∀ c, p c = true) →
  Regex.rmatch (Regex.lazy_star (Regex.Chr p)) k (Regex.mk_mstate s caps)
  = first_success k caps s.
Proof.
  intros Hany. unfold Regex.lazy_star. cbn [Regex.rmatch Regex.groups Regex.rest].
  apply repeat_lazy_any; [lia | done].
Qed.

Lemma first_success_ext k1 k2 caps s :
  (∀ x, k1 x = k2 x) → first_success k1 caps s = first_success k2 caps s.
Proof.
  intros H. induction s as [|c s IH]; simpl; rewrite H; [done|].
  by rewrite IH.
Qed.

Lemma any_char_true c : any_char c = true.
Proof. unfold any_char. by destruct (is_space c). Qed.

Lemma space_not_char (a c : Z) :
  is_space a = false → is_space c = true → (a =? c) = false.
Proof. intros Ha Hc. destruct (Z.eqb_spec a c) as [->|]; congruence. Qed.

Lemma word_not_quote c : is_word c = true → (dquote =? c) = false.
Proof.
  intros Hc. destruct (Z.eqb_spec dquote c) as [<-|]; [|done].
  vm_compute in Hc. discriminate.
Qed.

Lemma not_quote_true c : not_quote c = true → (dquote =? c) = false.
Proof.
  unfold not_quote. rewrite negb_true_iff, Z.eqb_sym. done.
Qed.

Lemma length_strip w s s' : strip w s = Some s' → (length s' <= length s)%nat.
Proof.
  revert s. induction w as [|a w IH]; intros s; simpl.
  - intros [= <-]. lia.
  - destruct s as [|b s]; [done|]. destruct (a =? b); [|done].
    intros H. apply IH in H. simpl. lia.
Qed.

Lemma strip_app w s s' : strip w s = Some s' → s = w ++ s'.
Proof.
  revert s. induction w as [|a w IH]; intros s; simpl.
  - by intros [= <-].
  - destruct s as [|b s]; [done|].
    destruct (Z.eqb_spec a b) as [->|]; [|done]. intros H. by rewrite (IH _ H).
Qed.

Lemma strip_prefix w s : strip w (w ++ s) = Some s.
Proof. induction w as [|a w IH]; simpl; [done|]. by rewrite Z.eqb_refl. Qed.

Lemma expect_cons c s s' : expect c s = Some s' → s = c :: s'.
Proof.
  destruct s as [|b s]; simpl; [done|].
  destruct (Z.eqb_spec c b) as [->|]; [|done]. by intros [= <-].
Qed.

Lemma expect_class_cons p s c s' :
  expect_class p s = Some (c, s') → s = c :: s' ∧ p c = true.
Proof.
  destruct s as [|b s]; simpl; [done|].
  destruct (p b) eqn:E; [|done]. by intros [= <- <-].
Qed.

(** From the [>] on, the matcher reads the body up to the first closing
    tag. *)
Lemma rmatch_tail caps s :
  Regex.rmatch
    (Regex.Seq (Regex.lit ">")
       (Regex.Seq (Regex.Group 3 (Regex.lazy_star (Regex.Chr any_char)))
          (Regex.Seq (Regex.lit "</pearbot>") Regex.Empty)))
    Some (Regex.mk_mstate s caps)
  = match_tail caps s.
Proof.
  rewrite rmatch_lit. unfold match_tail.
  destruct (strip (str ">") s) as [s10|]; [|done]. cbn [mbind option_bind].
  rewrite rmatch_seq, rmatch_group, rmatch_lazy_star by apply any_char_true.
  apply first_success_ext. intros [s' caps']. unfold Regex.lit.
  cbn [Regex.rest Regex.caps]. rewrite rmatch_seq.
  cbn [Regex.rmatch]. rewrite rmatch_lit_text. done.
Qed.

Lemma strip_cons_ne a w c s : (a =? c) = false → strip (a :: w) (c :: s) = None.
Proof. intros H. simpl. by rewrite H. Qed.

(** The optional phase attribute: white space, [phase=] and a quoted run
    without quotes. *)
Lemma rmatch_phase K c s caps :
  Regex.rmatch
    (Regex.cat
       [ Regex.plus (Regex.Chr is_space); Regex.lit "phase="; Regex.chr dquote;
         Regex.Group 2 (Regex.star (Regex.Chr not_quote)); Regex.chr dquote ])
    (fun y => if (length (Regex.rest y) =? S (length s))%nat then None else K y)
    (Regex.mk_mstate (c :: s) caps)
  = '(_, s5') ← expect_class is_space (c :: s);
    s6 ← strip (str "phase=") (after is_space s5');
    s7 ← expect dquote s6;
    s9 ← expect dquote (after not_quote s7);
    K (Regex.mk_mstate s9 (<[2%nat := span not_quote s7]> caps)).
Proof.
  cbn [Regex.cat foldr].
  rewrite rmatch_seq, rmatch_plus.
  2:{ intros a s' caps' Ha. rewrite rmatch_lit.
      change (str "phase=") with (112 :: str "hase=").
      by rewrite strip_cons_ne by by apply space_not_char. }
  destruct (expect_class is_space (c :: s)) as [[c' s5']|] eqn:E1; [|done].
  cbn [mbind option_bind].
  apply expect_class_cons in E1 as [[= <- <-] Hc].
  rewrite rmatch_lit.
  destruct (strip (str "phase=") (after is_space s)) as [s6|] eqn:E2; [|done].
  cbn [mbind option_bind]. rewrite rmatch_chr.
  destruct (expect dquote s6) as [s7|] eqn:E3; [|done].
  cbn [mbind option_bind].
  rewrite rmatch_seq, rmatch_group, rmatch_star.
  2:{ intros a s' caps' Ha. cbn [Regex.rest Regex.caps]. rewrite rmatch_chr.
      unfold expect. by rewrite (not_quote_true a Ha). }
  cbn [Regex.rest Regex.caps]. rewrite rmatch_chr.
  destruct (expect dquote (after not_quote s7)) as [s9|] eqn:E4; [|done].
  cbn [mbind option_bind Regex.rmatch Regex.rest].
  unfold Regex.consumed. cbn [Regex.rest]. rewrite take_span.
  replace (length s9 =? S (length s))%nat with false; [done|].
  symmetry. apply Nat.eqb_neq.
  apply expect_cons in E4. apply expect_cons in E3. apply length_strip in E2.
  pose proof (length_after is_space s). pose proof (length_after not_quote s7).
  rewrite E4 in H0. rewrite E3 in E2. simpl in *. lia.
Qed.

(** The matcher on the notification pattern, tried at the start of a text,
    is the direct reading of the pattern. *)
Lemma rmatch_notification s :
  Regex.rmatch notification_re Some (Regex.mk_mstate s ∅) = match_here s.
Proof.
  unfold notification_re, match_here. cbn [Regex.cat foldr].
  rewrite rmatch_lit.
  destruct (strip (str "<pearbot") s) as [s1|]; [|done].
  cbn [mbind option_bind].
  rewrite rmatch_seq, rmatch_plus.
  2:{ intros a s' caps' Ha. rewrite rmatch_lit.
      change (str "status=") with (115 :: str "tatus=").
      by rewrite strip_cons_ne by by apply space_not_char. }
  destruct (expect_class is_space s1) as [[c1 s1']|]; [|done].
  cbn [mbind option_bind]. rewrite rmatch_lit.
  destruct (strip (str "status=") (after is_space s1')) as [s3|]; [|done].
  cbn [mbind option_bind]. rewrite rmatch_chr.
  destruct (expect dquote s3) as [s4|]; [|done].
  cbn [mbind option_bind].
  rewrite rmatch_seq, rmatch_group, rmatch_plus.
  2:{ intros a s' caps' Ha. cbn [Regex.rest Regex.caps]. rewrite rmatch_chr.
      unfold expect. by rewrite (word_not_quote a Ha). }
  destruct (expect_class is_word s4) as [[c s4']|] eqn:E; [|done].
  cbn [mbind option_bind Regex.rest Regex.caps]. rewrite rmatch_chr.
  destruct (expect dquote (after is_word s4')) as [s5|]; [|done].
  cbn [mbind option_bind].
  apply expect_class_cons in E as [-> Hc].
  unfold Regex.consumed. cbn [Regex.rest].
  replace (take (length (c :: s4') - length (after is_word s4')) (c :: s4'))
    with (c :: span is_word s4').
  2:{ pose proof (take_span is_word (c :: s4')) as H. simpl in H.
      rewrite Hc in H. simpl. by rewrite H. }
  set (caps := <[1%nat := c :: span is_word s4']> ∅).
  destruct s5 as [|c5 s5].
  - reflexivity.
  - rewrite rmatch_opt.
    replace (Regex.clear _ _) with (Regex.mk_mstate (c5 :: s5) caps).
    2:{ unfold Regex.clear. cbn. by f_equal. }
    rewrite (rmatch_phase
               (Regex.rmatch
                  (Regex.Seq (Regex.lit ">")
                     (Regex.Seq (Regex.Group 3 (Regex.lazy_star (Regex.Chr any_char)))
                        (Regex.Seq (Regex.lit "</pearbot>") Regex.Empty))) Some)).
    rewrite rmatch_tail. unfold match_phase.
    destruct (expect_class is_space (c5 :: s5)) as [[c' s5']|];
      cbn [mbind option_bind]; [|done].
    destruct (strip (str "phase=") (after is_space s5')) as [s6|];
      cbn [mbind option_bind]; [|done].
    destruct (expect dquote s6) as [s7|]; cbn [mbind option_bind]; [|done].
    destruct (expect dquote (after not_quote s7)) as [s9|];
      cbn [mbind option_bind]; [|done].
    by rewrite rmatch_tail.
Qed.

(** ** Scanning from the left *)

Lemma first_success_spec k caps s :
  match first_success k caps s with
  | Some z =>
      ∃ pre suf, s = pre ++ suf ∧ k (Regex.mk_mstate suf caps) = Some z
        ∧ ∀ pre' suf', s = pre' ++ suf' → (length pre' < length pre)%nat →
            k (Regex.mk_mstate suf' caps) = None
  | None => ∀ pre suf, s = pre ++ suf → k (Regex.mk_mstate suf caps) = None
  end.
Proof.
  induction s as [|c s IH]; simpl.
  - destruct (k (Regex.mk_mstate [] caps)) as [z|] eqn:E.
    + exists [], []. split; [done|]. split; [done|].
      intros ? ? _ H. simpl in H. lia.
    + intros pre suf H. symmetry in H. apply app_eq_nil in H as [-> ->]. done.
  - destruct (k (Regex.mk_mstate (c :: s) caps)) as [z|] eqn:E.
    + exists [], (c :: s). split; [done|]. split; [done|].
      intros ? ? _ H. simpl in H. lia.
    + destruct (first_success k caps s) as [z|].
      * destruct IH as (pre & suf & -> & Hk & Hmin).
        exists (c :: pre), suf. split; [done|]. split; [done|].
        intros [|c' pre'] suf' Heq Hlen.
        -- simpl in Heq. by subst suf'.
        -- simpl in Heq. injection Heq as <- Heq.
           apply (Hmin pre'); [done | simpl in Hlen; lia].
      * intros [|c' pre] suf Heq.
        -- simpl in Heq. by subst suf.
        -- simpl in Heq. injection Heq as <- Heq. by apply (IH pre).
Qed.

Lemma exec_from_spec r i s :
  match Regex.exec_from r i s with
  | Some res =>
      ∃ pre suf y, s = pre ++ suf
        ∧ Regex.rmatch r Some (Regex.mk_mstate suf ∅) = Some y
        ∧ res = Regex.mk_result (i + length pre) (Regex.caps y) (Regex.rest y)
        ∧ ∀ pre' suf', s = pre' ++ suf' → (length pre' < length pre)%nat →
            Regex.rmatch r Some (Regex.mk_mstate suf' ∅) = None
  | None =>
      ∀ pre suf, s = pre ++ suf → Regex.rmatch r Some (Regex.mk_mstate suf ∅) = None
  end.
Proof.
  revert i. induction s as [|c s IH]; intros i; simpl.
  - destruct (Regex.rmatch r Some (Regex.mk_mstate [] ∅)) as [y|] eqn:E.
    + exists [], [], y. split; [done|]. split; [done|].
      split; [simpl; by rewrite Nat.add_0_r|].
      intros ? ? _ H. simpl in H. lia.
    + intros pre suf H. symmetry in H. apply app_eq_nil in H as [-> ->]. done.
  - destruct (Regex.rmatch r Some (Regex.mk_mstate (c :: s) ∅)) as [y|] eqn:E.
    + exists [], (c :: s), y. split; [done|]. split; [done|].
      split; [simpl; by rewrite Nat.add_0_r|].
      intros ? ? _ H. simpl in H. lia.
    + specialize (IH (S i)). destruct (Regex.exec_from r (S i) s) as [res|].
      * destruct IH as (pre & suf & y & -> & Hk & -> & Hmin).
        exists (c :: pre), suf, y. split; [done|]. split; [done|].
        split; [simpl; f_equal; lia|].
        intros [|c' pre'] suf' Heq Hlen.
        -- simpl in Heq. by subst suf'.
        -- simpl in Heq. injection Heq as <- Heq.
           apply (Hmin pre'); [done | simpl in Hlen; lia].
      * intros [|c' pre] suf Heq.
        -- simpl in Heq. by subst suf.
        -- simpl in Heq. injection Heq as <- Heq. by apply (IH pre).
Qed.

(** ** Runs of a class *)

Lemma span_all p s : Forall (fun c => p c = true) (span p s).
Proof.
  induction s as [|c s IH]; simpl; [done|].
  destruct (p c) eqn:E; [by constructor | done].
Qed.

Lemma after_app p ws s :
  Forall (fun c => p c = true) ws → after p (ws ++ s) = after p s.
Proof. induction 1 as [|c ws Hc _ IH]; simpl; [done|]. by rewrite Hc. Qed.

Lemma span_app p ws s :
  Forall (fun c => p c = true) ws → span p (ws ++ s) = ws ++ span p s.
Proof. induction 1 as [|c ws Hc _ IH]; simpl; [done|]. by rewrite Hc, IH. Qed.

Lemma unquoted_not_quote p :
  unquoted p ↔ Forall (fun c => not_quote c = true) p.
Proof.
  unfold unquoted, not_quote. apply Forall_proper; [|done].
  intros c. rewrite negb_true_iff. by destruct (Z.eqb_spec c dquote).
Qed.

(** ** The body and the closing tag *)

Lemma match_tail_sound caps s z :
  match_tail caps s = Some z →
  ∃ body post,
    s = str ">" ++ body ++ close_tag ++ post
    ∧ z = Regex.mk_mstate post (<[3%nat := body]> caps)
    ∧ ∀ body' post', body ++ close_tag ++ post = body' ++ close_tag ++ post' →
        (length body <= length body')%nat.
Proof.
  unfold match_tail. destruct (strip (str ">") s) as [s10|] eqn:E1; [|done].
  cbn [mbind option_bind]. apply strip_app in E1 as ->.
  match goal with |- first_success ?k caps s10 = _ → _ =>
    pose proof (first_success_spec k caps s10) as H; set (kk := k) in *
  end.
  intros Hfs. rewrite Hfs in H. destruct H as (pre & suf & -> & Hk & Hmin).
  subst kk. cbn [Regex.rest Regex.caps] in Hk.
  destruct (strip close_tag suf) as [post|] eqn:E2; [|done].
  cbn [mbind option_bind] in Hk. injection Hk as <-.
  apply strip_app in E2 as ->.
  exists pre, post. split; [done|]. split.
  - do 2 f_equal. rewrite !length_app.
    replace (length pre + (length close_tag + length post)
             - (length close_tag + length post))%nat with (length pre) by lia.
    by rewrite take_app_length.
  - intros body' post' Heq.
    destruct (decide (length body' < length pre)%nat) as [Hlt|]; [|lia].
    specialize (Hmin body' (close_tag ++ post') Heq Hlt).
    cbn [Regex.rest] in Hmin. by rewrite strip_prefix in Hmin.
Qed.

Lemma match_tail_complete caps body' post' :
  ∃ body post,
    match_tail caps (str ">" ++ body' ++ close_tag ++ post')
      = Some (Regex.mk_mstate post (<[3%nat := body]> caps))
    ∧ body' ++ close_tag ++ post' = body ++ close_tag ++ post
    ∧ (length body <= length body')%nat.
Proof.
  destruct (match_tail caps (str ">" ++ body' ++ close_tag ++ post')) as [z|] eqn:E.
  - apply match_tail_sound in E as (body & post & Heq & -> & Hmin).
    apply app_inv_head in Heq.
    exists body, post. split; [done|]. split; [done|].
    by apply (Hmin body' post').
  - exfalso. unfold match_tail in E. rewrite strip_prefix in E.
    cbn [mbind option_bind] in E.
    match type of E with first_success ?k caps ?s = None =>
      pose proof (first_success_spec k caps s) as H
    end.
    rewrite E in H. specialize (H body' (close_tag ++ post') eq_refl).
    cbn [Regex.rest] in H. by rewrite strip_prefix in H.
Qed.

(** ** The opening tag *)

Lemma after_stop p s :
  match s with c :: _ => p c = false | [] => True end → after p s = s.
Proof. destruct s as [|c s]; simpl; [done|]. by intros ->. Qed.

Lemma span_stop p s :
  match s with c :: _ => p c = false | [] => True end → span p s = [].
Proof. destruct s as [|c s]; simpl; [done|]. by intros ->. Qed.

Lemma expect_here c s : expect c (c :: s) = Some s.
Proof. simpl. by rewrite Z.eqb_refl. Qed.

Lemma expect_class_here p c s : p c = true → expect_class p (c :: s) = Some (c, s).
Proof. simpl. by intros ->. Qed.

Lemma spaces_cons c s :
  is_space c = true → spaces (c :: span is_space s).
Proof. intros Hc. split; [done|]. constructor; [done | apply span_all]. Qed.

Lemma match_phase_sound caps s5 z :
  match_phase caps s5 = Some z →
  ∃ ws' p body post,
    spaces ws' ∧ unquoted p
    ∧ s5 = ws' ++ str "phase=" ++ [dquote] ++ p ++ [dquote] ++ str ">"
             ++ body ++ close_tag ++ post
    ∧ z = Regex.mk_mstate post (<[3%nat := body]> (<[2%nat := p]> caps))
    ∧ ∀ body' post', body ++ close_tag ++ post = body' ++ close_tag ++ post' →
        (length body <= length body')%nat.
Proof.
  unfold match_phase.
  destruct (expect_class is_space s5) as [[c5 s5']|] eqn:E1; [|done].
  cbn [mbind option_bind].
  destruct (strip (str "phase=") (after is_space s5')) as [s6|] eqn:E2; [|done].
  cbn [mbind option_bind].
  destruct (expect dquote s6) as [s7|] eqn:E3; [|done].
  cbn [mbind option_bind].
  destruct (expect dquote (after not_quote s7)) as [s9|] eqn:E4; [|done].
  cbn [mbind option_bind]. intros Ht.
  apply match_tail_sound in Ht as (body & post & -> & -> & Hmin).
  apply expect_class_cons in E1 as [-> Hc5].
  apply strip_app in E2. apply expect_cons in E3 as ->. apply expect_cons in E4.
  exists (c5 :: span is_space s5'), (span not_quote s7), body, post.
  split; [by apply spaces_cons|].
  split; [apply unquoted_not_quote, span_all|].
  split; [|done].
  rewrite (span_after is_space s5') at 1. rewrite E2.
  rewrite (span_after not_quote s7) at 1. rewrite E4.
  reflexivity.
Qed.

Lemma match_here_sound s z :
  match_here s = Some z →
  ∃ st ph body tag post,
    open_tag st ph tag
    ∧ s = tag ++ body ++ close_tag ++ post
    ∧ Regex.caps z !! 1%nat = Some st
    ∧ Regex.caps z !! 2%nat = ph
    ∧ Regex.caps z !! 3%nat = Some body
    ∧ ∀ body' post', body ++ close_tag ++ post = body' ++ close_tag ++ post' →
        (length body <= length body')%nat.
Proof.
  unfold match_here.
  destruct (strip (str "<pearbot") s) as [s1|] eqn:E1; [|done].
  cbn [mbind option_bind].
  destruct (expect_class is_space s1) as [[c1 s1']|] eqn:E2; [|done].
  cbn [mbind option_bind].
  destruct (strip (str "status=") (after is_space s1')) as [s3|] eqn:E3; [|done].
  cbn [mbind option_bind].
  destruct (expect dquote s3) as [s4|] eqn:E4; [|done].
  cbn [mbind option_bind].
  destruct (expect_class is_word s4) as [[c s4']|] eqn:E5; [|done].
  cbn [mbind option_bind].
  destruct (expect dquote (after is_word s4')) as [s5|] eqn:E6; [|done].
  cbn [mbind option_bind].
  apply strip_app in E1 as ->. apply expect_class_cons in E2 as [-> Hc1].
  apply strip_app in E3. apply expect_cons in E4 as ->.
  apply expect_class_cons in E5 as [-> Hc]. apply expect_cons in E6.
  set (ws := c1 :: span is_space s1').
  set (st := c :: span is_word s4').
  assert (Hws : spaces ws) by by apply spaces_cons.
  assert (Hst : keyword st).
  { split; [done|]. constructor; [done | apply span_all]. }
  assert (Hhead : str "<pearbot" ++ c1 :: s1'
                  = str "<pearbot" ++ ws ++ str "status=" ++ [dquote] ++ st
                      ++ [dquote] ++ s5).
  { subst ws st. rewrite (span_after is_space s1') at 1. rewrite E3.
    rewrite (span_after is_word s4') at 1. rewrite E6.
    rewrite <- ?app_assoc. reflexivity. }
  rewrite Hhead. clear Hhead.
  destruct (match_phase (<[1%nat := st]> ∅) s5) as [z'|] eqn:Eph.
  - intros [= <-].
    apply match_phase_sound in Eph
      as (ws' & p & body & post & Hws' & Hp & -> & -> & Hmin).
    exists st, (Some p), body,
      (str "<pearbot" ++ ws ++ str "status=" ++ [dquote] ++ st ++ [dquote]
         ++ ws' ++ str "phase=" ++ [dquote] ++ p ++ [dquote] ++ str ">"), post.
    split; [exists ws; split; [done|]; split; [done|]; by exists ws'|].
    split; [by rewrite <- ?app_assoc|].
    cbn [Regex.caps]. by simplify_map_eq.
  - intros Ht. apply match_tail_sound in Ht as (body & post & -> & -> & Hmin).
    exists st, None, body,
      (str "<pearbot" ++ ws ++ str "status=" ++ [dquote] ++ st ++ [dquote]
         ++ str ">"), post.
    split; [exists ws; by split|].
    split; [by rewrite <- ?app_assoc|].
    cbn [Regex.caps]. by simplify_map_eq.
Qed.

Lemma match_here_complete st ph tag body' post' :
  open_tag st ph tag →
  ∃ z body post,
    match_here (tag ++ body' ++ close_tag ++ post') = Some z
    ∧ Regex.caps z !! 1%nat = Some st
    ∧ Regex.caps z !! 2%nat = ph
    ∧ Regex.caps z !! 3%nat = Some body
    ∧ body' ++ close_tag ++ post' = body ++ close_tag ++ post
    ∧ (length body <= length body')%nat.
Proof.
  intros (ws & [Hws1 Hws] & [Hst1 Hst] & Htag).
  destruct ws as [|c1 ws]; [done|]. destruct st as [|c st]; [done|].
  apply Forall_cons in Hws as [Hc1 Hws]. apply Forall_cons in Hst as [Hc Hst].
  assert (Hhead : ∀ s5,
    match_here (str "<pearbot" ++ (c1 :: ws) ++ str "status=" ++ [dquote]
                  ++ (c :: st) ++ [dquote] ++ s5)
    = match match_phase (<[1%nat := c :: st]> ∅) s5 with
      | Some z => Some z
      | None => match_tail (<[1%nat := c :: st]> ∅) s5
      end).
  { intros s5. unfold match_here. rewrite strip_prefix. cbn [mbind option_bind].
    rewrite <- app_comm_cons, expect_class_here by done. cbn [mbind option_bind].
    rewrite after_app by done. rewrite after_stop by reflexivity.
    rewrite strip_prefix. cbn [mbind option_bind].
    change ([dquote] ++ ?x) with (dquote :: x). rewrite expect_here.
    cbn [mbind option_bind].
    rewrite <- app_comm_cons, expect_class_here by done. cbn [mbind option_bind].
    rewrite after_app by done. rewrite after_stop by reflexivity.
    change ([dquote] ++ ?x) with (dquote :: x).
    rewrite expect_here. cbn [mbind option_bind].
    rewrite span_app by done. rewrite span_stop by reflexivity.
    by rewrite app_nil_r. }
  destruct ph as [p|].
  - destruct Htag as (ws' & [Hws1' Hws'] & Hp & ->).
    destruct ws' as [|c5 ws']; [done|].
    apply Forall_cons in Hws' as [Hc5 Hws'].
    apply unquoted_not_quote in Hp.
    destruct (match_tail_complete (<[2%nat := p]> (<[1%nat := c :: st]> ∅)) body' post')
      as (body & post & Ht & Heq & Hlen).
    exists (Regex.mk_mstate post
              (<[3%nat := body]> (<[2%nat := p]> (<[1%nat := c :: st]> ∅)))),
      body, post.
    split.
    + rewrite <- !app_assoc. rewrite Hhead. unfold match_phase.
      rewrite <- app_comm_cons, expect_class_here by done. cbn [mbind option_bind].
      rewrite after_app by done. rewrite after_stop by reflexivity.
      rewrite strip_prefix. cbn [mbind option_bind].
      change ([dquote] ++ ?x) with (dquote :: x). rewrite expect_here.
      cbn [mbind option_bind].
      rewrite after_app by done. rewrite after_stop by reflexivity.
      change ([dquote] ++ ?x) with (dquote :: x).
      rewrite expect_here. cbn [mbind option_bind].
      rewrite span_app by done. rewrite span_stop by reflexivity.
      rewrite app_nil_r. by rewrite Ht.
    + cbn [Regex.caps]. by simplify_map_eq.
  - subst tag.
    destruct (match_tail_complete (<[1%nat := c :: st]> ∅) body' post')
      as (body & post & Ht & Heq & Hlen).
    exists (Regex.mk_mstate post (<[3%nat := body]> (<[1%nat := c :: st]> ∅))),
      body, post.
    split.
    + rewrite <- !app_assoc. rewrite Hhead.
      replace (match_phase (<[1%nat := c :: st]> ∅)
                 (str ">" ++ body' ++ close_tag ++ post')) with (@None Regex.mstate)
        by reflexivity.
      exact Ht.
    + cbn [Regex.caps]. by simplify_map_eq.
Qed.

(** ** The extraction of annotations *)

Lemma parseNotification_cases t :
  match parseNotification t with
  | Some n =>
      ∃ pre suf z, t = pre ++ suf ∧ match_here suf = Some z
        ∧ n = {| n_status := default [] (Regex.caps z !! 1%nat);
                 n_phase := phase_or_undefined (Regex.caps z !! 2%nat);
                 n_content := trim (default [] (Regex.caps z !! 3%nat)) |}
        ∧ ∀ pre' suf', t = pre' ++ suf' → (length pre' < length pre)%nat →
            match_here suf' = None
  | None => ∀ pre suf, t = pre ++ suf → match_here suf = None
  end.
Proof.
  unfold parseNotification, Regex.exec.
  pose proof (exec_from_spec notification_re 0 t) as H.
  destruct (Regex.exec_from notification_re 0 t) as [res|].
  - destruct H as (pre & suf & y & Ht & Hy & -> & Hmin).
    rewrite rmatch_notification in Hy.
    exists pre, suf, y. split; [done|]. split; [done|]. split; [done|].
    intros pre' suf' Ht' Hlen. rewrite <- rmatch_notification. by eapply Hmin.
  - intros pre suf Ht. rewrite <- rmatch_notification. by eapply H.
Qed.

(** C2. [parseNotification] is a function of the text alone.  It returns
    a notification exactly when the text holds a well-formed tagged span: an
    opening tag with a status keyword and, optionally, a phase, some
    enclosed text and the closing tag.  The notification returned is that
    of the first such span from the left, its content the enclosed text up
    to the first closing tag that follows, trimmed, whatever text or other
    tags come after it; a text without a well-formed span, such as one with
    a malformed or an unterminated tag, yields nothing. *)
Theorem parseNotification_first_span t :
  (is_Some (parseNotification t) ↔ ∃ pre st ph body, annotated_at t pre st ph body)
  ∧ (parseNotification t = None ↔ ¬ ∃ pre st ph body, annotated_at t pre st ph body)
  ∧ ∀ n, parseNotification t = Some n →
      ∃ pre st ph body,
        annotated_at t pre st ph body
        ∧ n = {| n_status := st; n_phase := phase_or_undefined ph;
                 n_content := trim body |}
        ∧ ∀ pre' st' ph' body', annotated_at t pre' st' ph' body' →
            (length pre <= length pre')%nat
            ∧ (length pre' = length pre →
                 st' = st ∧ ph' = ph ∧ (length body <= length body')%nat).
Proof.
  pose proof (parseNotification_cases t) as Hcases.
  assert (Hsome : ∀ n, parseNotification t = Some n →
      ∃ pre st ph body,
        annotated_at t pre st ph body
        ∧ n = {| n_status := st; n_phase := phase_or_undefined ph;
                 n_content := trim body |}
        ∧ ∀ pre' st' ph' body', annotated_at t pre' st' ph' body' →
            (length pre <= length pre')%nat
            ∧ (length pre' = length pre →
                 st' = st ∧ ph' = ph ∧ (length body <= length body')%nat)).
  { intros n Hn. rewrite Hn in Hcases.
    destruct Hcases as (pre & suf & z & Ht & Hz & -> & Hmin).
    destruct (match_here_sound suf z Hz)
      as (st & ph & body & tag & post & Htag & Hsuf & H1 & H2 & H3 & Hshort).
    exists pre, st, ph, body.
    split; [exists tag, post; split; [done|]; by rewrite Ht, Hsuf|].
    split; [by rewrite H1, H2, H3|].
    intros pre' st' ph' body' (tag' & post' & Htag' & Ht').
    destruct (match_here_complete st' ph' tag' body' post' Htag')
      as (z' & body'' & post'' & Hz' & H1' & H2' & H3' & _ & Hlen).
    split.
    - destruct (decide (length pre' < length pre)%nat) as [Hlt|]; [|lia].
      rewrite (Hmin pre' _ Ht' Hlt) in Hz'. done.
    - intros Hlen'. rewrite Ht in Ht'.
      apply app_inj_1 in Ht' as [_ Hsuf']; [|done].
      rewrite <- Hsuf', Hz in Hz'. injection Hz' as <-.
      rewrite H1 in H1'. rewrite H3 in H3'.
      injection H1' as <-. injection H3' as <-. by rewrite <- H2'. }
  assert (Hiff : is_Some (parseNotification t)
                 ↔ ∃ pre st ph body, annotated_at t pre st ph body).
  { split.
    - intros [n Hn]. destruct (Hsome n Hn) as (pre & st & ph & body & H & _).
      by exists pre, st, ph, body.
    - intros (pre & st & ph & body & tag & post & Htag & Ht).
      destruct (parseNotification t) as [n|]; [by eexists|]. exfalso.
      destruct (match_here_complete st ph tag body post Htag) as (z & ? & ? & Hz & _).
      by rewrite (Hcases pre _ Ht) in Hz. }
  split; [exact Hiff|]. split; [|exact Hsome].
  rewrite <- Hiff. rewrite <- not_eq_None_Some. split.
  - intros H. by rewrite H; intros [].
  - intros H. destruct (parseNotification t); [|done]. by destruct H.
Qed.

Lemma parseNotification_first_span_witness :
  parseNotification demo_block
    = Some {| n_status := str "progress"; n_phase := Some (str "coding");
              n_content := str "wrote the model" |}
  ∧ ∃ pre st ph body,
      annotated_at demo_block pre st ph body
      ∧ st = str "progress" ∧ phase_or_undefined ph = Some (str "coding")
      ∧ trim body = str "wrote the model".
Proof.
  assert (Hn : parseNotification demo_block
               = Some {| n_status := str "progress"; n_phase := Some (str "coding");
                         n_content := str "wrote the model" |})
    by (vm_compute; reflexivity).
  split; [exact Hn|].
  destruct (proj2 (proj2 (parseNotification_first_span demo_block)) _ Hn)
    as (pre & st & ph & body & Hat & Heq & _).
  exists pre, st, ph, body. split; [exact Hat|].
  injection Heq as <- <- <-. done.
Defined.

Example parseNotification_unterminated : parseNotification demo_unterminated = None.
Proof. vm_compute. reflexivity. Qed.

Example parseNotification_no_status : parseNotification demo_no_status = None.
Proof. vm_compute. reflexivity. Qed.

Example parseNotification_unquoted : parseNotification demo_unquoted = None.
Proof. vm_compute. reflexivity. Qed.

Example parseNotification_empty_phase :
  parseNotification demo_empty_phase
  = Some {| n_status := str "success"; n_phase := None; n_content := str "done" |}.
Proof. vm_compute. reflexivity. Qed.

(** ** The buffer is always a fragment *)

Lemma same_buffers_refl m : same_buffers m m.
Proof. done. Qed.

Lemma same_buffers_trans m1 m2 m3 :
  same_buffers m1 m2 → same_buffers m2 m3 → same_buffers m1 m3.
Proof. intros H1 H2 k. by rewrite H2, H1. Qed.

Lemma same_buffers_projects m m' :
  projects m' = projects m → same_buffers m m'.
Proof. intros H k. unfold bufferOf. by rewrite H. Qed.

Lemma same_buffers_assign projectId f m :
  (∀ p, outputBuffer (f p) = outputBuffer p) →
  same_buffers m (assign projectId f m).
Proof. intros Hf k. by apply bufferOf_assign. Qed.

Lemma same_buffers_saveProject projectId m : same_buffers m (saveProject projectId m).
Proof. intros k. apply bufferOf_saveProject. Qed.

Lemma same_buffers_ok m m' : same_buffers m m' → buffers_ok m → buffers_ok m'.
Proof. intros Hs Hok k buffer Hb. apply (Hok k). by rewrite <- Hs. Qed.

Lemma same_buffers_killAgentProcess projectId m :
  same_buffers m (killAgentProcess projectId m).
Proof.
  unfold killAgentProcess.
  eapply same_buffers_trans; [|by apply same_buffers_assign].
  apply same_buffers_projects. by destruct (agentProcesses m !! projectId).
Qed.

Lemma same_buffers_killServerProcess projectId m :
  same_buffers m (killServerProcess projectId m).
Proof.
  unfold killServerProcess.
  set (m1 := match serverProcesses m !! projectId with
             | Some proc => _ | None => m end).
  assert (H1 : same_buffers m m1).
  { apply same_buffers_projects. subst m1.
    by destruct (serverProcesses m !! projectId). }
  destruct (JsMap.get projectId (projects m1)) as [p|]; [|done].
  eapply same_buffers_trans; [|by apply same_buffers_assign].
  eapply same_buffers_trans; [exact H1|].
  apply same_buffers_projects. by destruct (number_or_null (servingPort p)).
Qed.

Lemma same_buffers_spawnAgent_begin projectId prompt m :
  same_buffers m (spawnAgent_begin projectId prompt m).
Proof.
  unfold spawnAgent_begin. destruct (JsMap.get projectId (projects m)); [|done].
  intros k. unfold bufferOf. simpl.
  by apply (bufferOf_assign projectId (set_agentProcess (Some (spawned m)))).
Qed.

Lemma same_buffers_spawnAgent_settle proc projectId prompt now m :
  same_buffers m (spawnAgent_settle proc projectId prompt now m).
Proof.
  unfold spawnAgent_settle.
  eapply same_buffers_trans; [|apply same_buffers_saveProject].
  eapply same_buffers_trans; [|by apply same_buffers_assign].
  by apply same_buffers_projects.
Qed.

Lemma bufferOf_set projectId (p : ProjectMetadata) k m :
  bufferOf k (set_projects (JsMap.set projectId p (projects m)) m)
  = if decide (projectId = k) then Some (outputBuffer p) else bufferOf k m.
Proof.
  unfold bufferOf. simpl. destruct (decide (projectId = k)) as [->|Hne].
  - by rewrite get_set_eq.
  - by rewrite get_set_ne.
Qed.

Lemma buffers_ok_init m rows : buffers_ok m → buffers_ok (init m rows).
Proof.
  revert m. induction rows as [|row rows IH]; intros m Hok; [done|].
  rewrite init_cons. apply IH. intros k buffer. rewrite bufferOf_set.
  destruct (decide (row_id row = k)); [|apply Hok].
  intros [= <-]. apply not_elem_of_nil.
Qed.

Lemma buffers_ok_fold {A} (f : Manager → A → Manager) (xs : list A) m :
  (∀ m x, same_buffers m (f m x)) → same_buffers m (foldl f m xs).
Proof.
  intros Hf. revert m. induction xs as [|x xs IH]; intros m; [done|].
  simpl. eapply same_buffers_trans; [apply Hf | apply IH].
Qed.

Lemma same_buffers_checkStalled now m projectId :
  same_buffers m (checkStalled now m projectId).
Proof.
  unfold checkStalled.
  destruct (JsMap.get projectId (projects m)) as [p|]; [|done].
  destruct (_ && _); [|done]. destruct (_ >? _); [|done].
  eapply same_buffers_trans; [apply same_buffers_killAgentProcess|].
  eapply same_buffers_trans; [|apply (same_buffers_saveProject projectId)].
  by apply same_buffers_assign.
Qed.

Lemma buffers_ok_readChunk JSON_parse projectId decoder value now m :
  buffers_ok m → buffers_ok (readChunk JSON_parse projectId decoder value now m).1.
Proof.
  intros Hok. unfold readChunk.
  destruct (JsMap.get projectId (projects m)) as [p|] eqn:Hget; [|done].
  destruct (Utf8.decode decoder value) as [d t].
  destruct (split_snoc newline (outputBuffer p ++ t)) as (ls & f & Hs).
  rewrite Hs, pop_snoc. simpl.
  intros k buffer.
  destruct (processLines_obs JSON_parse projectId now k ls
              (assign projectId (set_outputBuffer f) m)) as [_ ->].
  unfold bufferOf. destruct (decide (projectId = k)) as [<-|Hne].
  - erewrite get_assign_eq by exact Hget. simpl. intros [= <-].
    by eapply split_fragment.
  - rewrite get_assign_ne by done. apply Hok.
Qed.

(** Every step of a manager keeps the buffers free of newlines. *)
Lemma buffers_ok_handle JSON_parse m i :
  buffers_ok m → buffers_ok (handle JSON_parse m i).
Proof.
  intros Hok. destruct i; simpl.
  - (* createProject *)
    destruct (JsMap.has projectId (projects m)); [done|].
    unfold createProject_begin.
    destruct (_ >=? _); [done|]. simpl.
    eapply same_buffers_ok; [apply same_buffers_spawnAgent_begin|].
    eapply same_buffers_ok; [apply same_buffers_saveProject|].
    intros k buffer. rewrite bufferOf_set.
    destruct (decide (projectId = k)); [|apply Hok].
    intros [= <-]. apply not_elem_of_nil.
  - (* openProject *)
    unfold openProject_begin.
    destruct (JsMap.get projectId (projects m)); [|done].
    set (m1 := match agentProcesses m !! projectId with
               | Some _ => killAgentProcess projectId m | None => m end).
    assert (H1 : buffers_ok m1).
    { subst m1. destruct (agentProcesses m !! projectId); [|done].
      eapply same_buffers_ok; [apply same_buffers_killAgentProcess | done]. }
    destruct (_ >=? _); [done|]. simpl.
    eapply same_buffers_ok; [apply same_buffers_spawnAgent_begin|].
    eapply same_buffers_ok; [apply same_buffers_saveProject|].
    eapply same_buffers_ok; [by apply same_buffers_assign | done].
  - (* the settle delay of spawnAgent *)
    destruct (pendingSpawns m !! proc) as [[projectId prompt]|]; [|done].
    eapply same_buffers_ok; [apply same_buffers_spawnAgent_settle | done].
  - (* sendToProject *)
    unfold sendToProject.
    destruct (JsMap.get projectId (projects m)); [|done].
    destruct (agentProcesses m !! projectId); [|done]. simpl.
    eapply same_buffers_ok; [apply same_buffers_saveProject|].
    eapply same_buffers_ok; [by apply same_buffers_assign | done].
  - (* stopProject *)
    unfold stopProject.
    destruct (JsMap.get projectId (projects m)); [|done]. simpl.
    eapply same_buffers_ok; [apply same_buffers_saveProject|].
    eapply same_buffers_ok; [by apply same_buffers_assign|].
    eapply same_buffers_ok; [apply same_buffers_killServerProcess|].
    eapply same_buffers_ok; [apply same_buffers_killAgentProcess | done].
  - (* serveProject *)
    unfold serveProject_begin.
    destruct (JsMap.get projectId (projects m)); [|done].
    assert (H1 : buffers_ok (killServerProcess projectId m)).
    { eapply same_buffers_ok; [apply same_buffers_killServerProcess | done]. }
    destruct (findAvailablePort _ _); done.
  - (* the start-up race of serveProject *)
    destruct (pendingServes m !! proc) as [ps|]; [|done].
    unfold serveProject_settle. destruct earlyExit; simpl.
    + eapply same_buffers_ok; [apply same_buffers_saveProject|].
      eapply same_buffers_ok; [by apply same_buffers_assign | done].
    + eapply same_buffers_ok; [apply same_buffers_saveProject|].
      eapply same_buffers_ok; [by apply same_buffers_assign | done].
  - (* stopAll *)
    unfold stopAll.
    eapply (same_buffers_ok
              (foldl (fun m projectId =>
                        killServerProcess projectId (killAgentProcess projectId m))
                 m (JsMap.keys (projects m)))); [done|].
    eapply same_buffers_ok; [|exact Hok].
    apply buffers_ok_fold. intros m0 x.
    eapply same_buffers_trans;
      [apply same_buffers_killAgentProcess | apply same_buffers_killServerProcess].
  - (* a chunk of output *)
    destruct (readers m !! proc) as [[projectId decoder]|]; [|done].
    pose proof (buffers_ok_readChunk JSON_parse projectId decoder value now m Hok) as H.
    by destruct (readChunk JSON_parse projectId decoder value now m).
  - (* the exit of an agent *)
    destruct (agentWatchers m !! proc) as [projectId|]; [|done].
    unfold agentExited. simpl.
    destruct (JsMap.get projectId (projects m)); [|done].
    eapply (same_buffers_ok (saveProject projectId _)); [done|].
    eapply same_buffers_ok; [apply same_buffers_saveProject|].
    eapply same_buffers_ok; [|exact Hok].
    eapply same_buffers_trans; [|apply same_buffers_assign].
    + by apply same_buffers_projects.
    + intros q. by destruct (in_flight _).
  - (* the exit of a preview server *)
    destruct (serverWatchers m !! proc) as [[projectId port]|]; [|done].
    unfold serverExited. simpl.
    destruct (JsMap.get projectId (projects m)) as [p|]; [|done].
    destruct (bool_decide (status p = serving)); [|done].
    eapply same_buffers_ok; [apply same_buffers_saveProject|].
    eapply same_buffers_ok; [|exact Hok].
    eapply same_buffers_trans; [|by apply same_buffers_assign].
    by apply same_buffers_projects.
  - (* the stall sweep *)
    unfold stalledCheck. eapply same_buffers_ok; [|exact Hok].
    apply buffers_ok_fold. intros. apply same_buffers_checkStalled.
Qed.

(** In every state that a manager reaches, the buffer of each project is
    a fragment without a newline: the condition under which reading
    nothing at all and reading an empty chunk agree. *)
Lemma reachable_buffers_ok JSON_parse m :
  reachable JSON_parse m → buffers_ok m.
Proof.
  intros (dir & ps & pe & mx & host & rows & inputs & ->).
  assert (H0 : buffers_ok (init (constructor dir ps pe mx host) rows)).
  { apply buffers_ok_init. intros k buffer. by unfold bufferOf. }
  revert H0. generalize (init (constructor dir ps pe mx host) rows).
  unfold run. induction inputs as [|i inputs IH]; intros m0 H0; [done|].
  simpl. apply IH. by apply buffers_ok_handle.
Qed.

(** * The manager as a whole *)

(** ** What every step preserves *)

Lemma keeps_refl p : keeps p p.
Proof. by unfold keeps. Qed.

Lemma keeps_trans p1 p2 p3 : keeps p1 p2 → keeps p2 p3 → keeps p1 p3.
Proof. unfold keeps. intros H1 H2. destruct_and!. split_and!; try congruence; auto. Qed.

(** The assignments of the source change none of the fields that
    [keeps] names, and none makes a project [creating]. *)
Ltac keeps_tac :=
  let p := fresh "p" in
  intros p; unfold keeps; repeat case_match; simpl; split_and!; done.

Lemma grows_refl m : grows m m.
Proof.
  unfold grows. split_and!; [|by eauto| |done].
  - intros k p H. exists p. split; [done | apply keeps_refl].
  - exists []. by rewrite app_nil_r.
Qed.

Lemma grows_trans m1 m2 m3 : grows m1 m2 → grows m2 m3 → grows m1 m3.
Proof.
  intros (A1 & B1 & [n1 K1] & N1) (A2 & B2 & [n2 K2'] & N2). unfold grows. split_and!.
  3: { exists (n1 ++ n2). by rewrite K2', K1, app_assoc. }
  3: { by auto. }
  - intros k p H. destruct (A1 k p H) as (p2 & H2 & K2).
    destruct (A2 k p2 H2) as (p3 & H3 & K3).
    exists p3. split; [done | by eapply keeps_trans].
  - intros k p3 H3. destruct (B2 k p3 H3) as [[p2 H2]|]; [|by right].
    destruct (B1 k p2 H2) as [|Hid]; [by left|]. right.
    destruct (A2 k p2 H2) as (p3' & H3' & K). rewrite H3 in H3'.
    injection H3' as <-. destruct K as [-> _]. done.
Qed.

Lemma grows_same m m' : projects m' = projects m → grows m m'.
Proof. intros E. unfold grows. rewrite E. apply grows_refl. Qed.

Lemma grows_assign projectId f m :
  (∀ p, keeps p (f p)) → grows m (assign projectId f m).
Proof.
  intros Hf. unfold grows. rewrite keys_assign. split_and!.
  3: { exists []. by rewrite app_nil_r. }
  3: { done. }
  - intros k p H. destruct (decide (projectId = k)) as [->|Hne].
    + exists (f p). split; [by apply get_assign_eq | apply Hf].
    + exists p. split; [by rewrite get_assign_ne | apply keeps_refl].
  - intros k p' H. left. destruct (decide (projectId = k)) as [->|Hne].
    + destruct (JsMap.get k (projects m)) eqn:E; [by eauto|].
      rewrite get_assign_none in H by done. by rewrite E in H.
    + rewrite get_assign_ne in H by done. by eauto.
Qed.

Lemma get_none_keys {V} (k : text) (m : JsMap.t V) :
  JsMap.get k m = None → k ∉ JsMap.keys m.
Proof.
  unfold JsMap.get, JsMap.keys. induction m as [|[k' v'] m IH]; simpl.
  - intros _. apply not_elem_of_nil.
  - destruct (text_eqb k k') eqn:E; [done|]. intros H.
    apply not_elem_of_cons. split; [|by apply IH].
    intros ->. by rewrite text_eqb_refl in E.
Qed.

Lemma keys_set_fresh {V} (k : text) (v : V) (m : JsMap.t V) :
  JsMap.get k m = None → JsMap.keys (JsMap.set k v m) = JsMap.keys m ++ [k].
Proof.
  unfold JsMap.get, JsMap.keys. induction m as [|[k' v'] m IH]; simpl; [done|].
  destruct (text_eqb k k'); [done|]. intros H. simpl. by rewrite IH.
Qed.

Lemma NoDup_keys_set {V} (k : text) (v : V) (m : JsMap.t V) :
  NoDup (JsMap.keys m) → NoDup (JsMap.keys (JsMap.set k v m)).
Proof.
  intros H. destruct (JsMap.get k m) eqn:E.
  - by erewrite keys_set_present.
  - rewrite keys_set_fresh by done. apply NoDup_app. split_and!; [done | |].
    + intros x Hx Hx'. apply list_elem_of_singleton in Hx' as ->.
      by apply get_none_keys in E.
    + apply NoDup_singleton.
Qed.

Lemma grows_new projectId p m :
  JsMap.get projectId (projects m) = None → id p = projectId →
  grows m (set_projects (JsMap.set projectId p (projects m)) m).
Proof.
  intros Hnone Hid. unfold grows. simpl. split_and!.
  3: { exists [projectId]. by apply keys_set_fresh. }
  3: { apply NoDup_keys_set. }
  - intros k q H. exists q. split; [|apply keeps_refl].
    rewrite get_set_ne; [done|]. intros ->. by rewrite Hnone in H.
  - intros k q H. destruct (decide (projectId = k)) as [->|Hne].
    + rewrite get_set_eq in H. injection H as <-. by right.
    + rewrite get_set_ne in H by done. left. by eauto.
Qed.

Lemma step_ok_refl m : step_ok m m.
Proof. unfold step_ok. split_and!; auto using grows_refl. Qed.

Lemma step_ok_trans m1 m2 m3 : step_ok m1 m2 → step_ok m2 m3 → step_ok m1 m3.
Proof.
  intros (G1 & C1 & A1 & S1 & P1) (G2 & C2 & A2 & S2 & P2).
  assert (K : ∀ k, is_Some (JsMap.get k (projects m2)) →
                   is_Some (JsMap.get k (projects m3))).
  { intros k [p H]. destruct (proj1 G2 k p H) as (p' & H' & _). by eauto. }
  unfold step_ok. split_and!.
  - by eapply grows_trans.
  - congruence.
  - intros k H. destruct (A2 k H) as [H'|]; [|by right].
    destruct (A1 k H'); [by left | right; by apply K].
  - intros k H. destruct (S2 k H) as [H'|]; [|by right].
    destruct (S1 k H'); [by left | right; by apply K].
  - intros port H. unfold config in C1. injection C1 as _ Hs He _ _.
    destruct (P2 port H) as [H'|H']; [by apply P1 | right; lia].
Qed.

(** A step that leaves the projects and the settings alone, and only
    removes process entries and reservations. *)
Lemma step_ok_shrink m m' :
  projects m' = projects m → config m' = config m →
  agentProcesses m' ⊆ agentProcesses m →
  serverProcesses m' ⊆ serverProcesses m →
  allocatedPorts m' ⊆ allocatedPorts m →
  step_ok m m'.
Proof.
  intros Hp Hc Ha Hs Hports. unfold step_ok. split_and!.
  - by apply grows_same.
  - done.
  - intros k H. left. by eapply lookup_weaken_is_Some.
  - intros k H. left. by eapply lookup_weaken_is_Some.
  - intros port H. left. by apply Hports.
Qed.

Lemma config_assign projectId f m : config (assign projectId f m) = config m.
Proof. unfold config. by autorewrite with frame. Qed.

Lemma config_saveProject projectId m : config (saveProject projectId m) = config m.
Proof. unfold config. by autorewrite with frame. Qed.

Lemma step_ok_assign projectId f m :
  (∀ p, keeps p (f p)) → step_ok m (assign projectId f m).
Proof.
  intros Hf. unfold step_ok. autorewrite with frame. split_and!; auto.
  - by apply grows_assign.
  - apply config_assign.
Qed.

Lemma step_ok_saveProject projectId m : step_ok m (saveProject projectId m).
Proof.
  apply step_ok_shrink; autorewrite with frame; try done. apply config_saveProject.
Qed.

Lemma step_ok_emit e m : step_ok m (emit e m).
Proof. by apply step_ok_shrink. Qed.

Lemma step_ok_foldl {A} (f : Manager → A → Manager) (xs : list A) m :
  (∀ m x, step_ok m (f m x)) → step_ok m (foldl f m xs).
Proof.
  intros Hf. revert m. induction xs as [|x xs IH]; intros m; simpl.
  - apply step_ok_refl.
  - eapply step_ok_trans; [apply Hf | apply IH].
Qed.

Lemma step_ok_killAgentProcess projectId m :
  step_ok m (killAgentProcess projectId m).
Proof.
  unfold killAgentProcess.
  eapply step_ok_trans; [|apply step_ok_assign; keeps_tac].
  destruct (agentProcesses m !! projectId); [|apply step_ok_refl].
  apply step_ok_shrink; simpl; try done. apply delete_subseteq.
Qed.

Lemma step_ok_killServerProcess projectId m :
  step_ok m (killServerProcess projectId m).
Proof.
  unfold killServerProcess.
  set (m1 := match serverProcesses m !! projectId with
             | Some proc => _ | None => m end).
  assert (H1 : step_ok m m1).
  { subst m1. destruct (serverProcesses m !! projectId); [|apply step_ok_refl].
    apply step_ok_shrink; simpl; try done. apply delete_subseteq. }
  destruct (JsMap.get projectId (projects m1)) as [p|]; [|done].
  eapply step_ok_trans; [exact H1|].
  eapply step_ok_trans; [|apply step_ok_assign; keeps_tac].
  destruct (number_or_null (servingPort p)); [|apply step_ok_refl].
  apply step_ok_shrink; simpl; try done. set_solver.
Qed.

Lemma step_ok_spawnAgent_begin projectId prompt m :
  step_ok m (spawnAgent_begin projectId prompt m).
Proof.
  unfold spawnAgent_begin.
  destruct (JsMap.get projectId (projects m)) as [p|] eqn:Hget; [|apply step_ok_refl].
  set (m2 := set_agentProcesses _ _).
  assert (H2 : step_ok m m2).
  { unfold step_ok. subst m2. simpl. split_and!; auto.
    - by apply grows_same.
    - intros k. destruct (decide (projectId = k)) as [<-|Hne].
      + right. by eauto.
      + rewrite lookup_insert_ne by done. by left. }
  eapply step_ok_trans; [exact H2|].
  eapply step_ok_trans; [apply (step_ok_assign projectId (set_agentProcess (Some (spawned m)))); keeps_tac|].
  by apply step_ok_shrink.
Qed.

Lemma step_ok_spawnAgent_settle proc projectId prompt now m :
  step_ok m (spawnAgent_settle proc projectId prompt now m).
Proof.
  unfold spawnAgent_settle.
  eapply step_ok_trans; [|apply step_ok_saveProject].
  eapply step_ok_trans; [|apply step_ok_assign; keeps_tac].
  by apply step_ok_shrink.
Qed.

Lemma step_ok_applyNotification projectId notification now m :
  step_ok m (applyNotification projectId notification now m).
Proof.
  unfold applyNotification.
  eapply step_ok_trans; [|apply step_ok_emit].
  eapply step_ok_trans; [|apply step_ok_saveProject].
  apply step_ok_assign. keeps_tac.
Qed.

Lemma step_ok_processBlocks projectId now blocks m :
  step_ok m (processBlocks projectId now blocks m).1.
Proof.
  revert m. induction blocks as [|block more IH]; intros m; simpl.
  - apply step_ok_refl.
  - repeat case_match; simpl; try apply step_ok_refl; try apply IH.
    eapply step_ok_trans; [apply step_ok_applyNotification | apply IH].
Qed.

Lemma step_ok_processRecord projectId now message m :
  step_ok m (processRecord projectId now message m).
Proof.
  unfold processRecord.
  destruct (prop message (str "type")) as [ty|]; [|apply step_ok_refl].
  set (m1 := if _ && _ then _ else m).
  assert (H1 : step_ok m m1).
  { subst m1. repeat case_match; try apply step_ok_refl.
    apply step_ok_assign. keeps_tac. }
  destruct (is_string ty "assistant").
  - destruct (messageContent message) as [[]|];
      try (eapply step_ok_trans; [exact H1 | apply step_ok_emit]).
    pose proof (step_ok_processBlocks projectId now items m1) as H2.
    destruct (processBlocks projectId now items m1) as [m2 []]; simpl in H2.
    + eapply step_ok_trans; [exact H1|].
      eapply step_ok_trans; [exact H2 | apply step_ok_emit].
    + by eapply step_ok_trans.
  - eapply step_ok_trans; [exact H1 | apply step_ok_emit].
Qed.

Lemma step_ok_processLine JSON_parse projectId now m line :
  step_ok m (processLine JSON_parse projectId now m line).
Proof.
  unfold processLine. repeat case_match; try apply step_ok_refl.
  apply step_ok_processRecord.
Qed.

Lemma step_ok_readChunk JSON_parse projectId decoder value now m :
  step_ok m (readChunk JSON_parse projectId decoder value now m).1.
Proof.
  unfold readChunk.
  destruct (JsMap.get projectId (projects m)) as [p|]; [|apply step_ok_refl].
  destruct (Utf8.decode decoder value) as [d t].
  destruct (pop _) as [fragment lines]. simpl.
  eapply step_ok_trans;
    [apply (step_ok_assign projectId (set_outputBuffer (default [] fragment)));
     keeps_tac|].
  apply step_ok_foldl. intros. apply step_ok_processLine.
Qed.

Lemma step_ok_checkStalled now m projectId :
  step_ok m (checkStalled now m projectId).
Proof.
  unfold checkStalled.
  destruct (JsMap.get projectId (projects m)) as [p|]; [|apply step_ok_refl].
  destruct (_ && _); [|apply step_ok_refl].
  destruct (_ >? _); [|apply step_ok_refl].
  eapply step_ok_trans; [apply step_ok_killAgentProcess|].
  eapply step_ok_trans; [|apply step_ok_emit].
  eapply step_ok_trans; [|apply step_ok_saveProject].
  apply step_ok_assign. keeps_tac.
Qed.

Lemma step_ok_agentExited projectId exitCode now m :
  step_ok m (agentExited projectId exitCode now m).
Proof.
  unfold agentExited.
  set (m1 := set_agentProcesses _ m).
  assert (H1 : step_ok m m1).
  { apply step_ok_shrink; simpl; try done. apply delete_subseteq. }
  destruct (JsMap.get projectId (projects m1)); [|done].
  eapply step_ok_trans; [exact H1|].
  eapply step_ok_trans; [|apply step_ok_emit].
  eapply step_ok_trans; [|apply step_ok_saveProject].
  apply step_ok_assign. keeps_tac.
Qed.

Lemma step_ok_serverExited projectId port now m :
  step_ok m (serverExited projectId port now m).
Proof.
  unfold serverExited.
  set (m2 := set_serverProcesses _ _).
  assert (H2 : step_ok m m2).
  { apply step_ok_shrink; simpl; try done; [apply delete_subseteq | set_solver]. }
  destruct (JsMap.get projectId (projects m2)); [|done].
  destruct (bool_decide _); [|done].
  eapply step_ok_trans; [exact H2|].
  eapply step_ok_trans; [|apply step_ok_saveProject].
  apply step_ok_assign. keeps_tac.
Qed.

Lemma step_ok_stopAll m : step_ok m (stopAll m).
Proof.
  unfold stopAll.
  eapply step_ok_trans; [|apply step_ok_shrink; simpl; try done; set_solver].
  apply step_ok_foldl. intros m0 x.
  eapply step_ok_trans; [apply step_ok_killAgentProcess | apply step_ok_killServerProcess].
Qed.

Lemma step_ok_stopProject projectId now m :
  step_ok m (stopProject projectId now m).1.
Proof.
  unfold stopProject.
  destruct (JsMap.get projectId (projects m)); [|apply step_ok_refl]. simpl.
  eapply step_ok_trans; [apply step_ok_killAgentProcess|].
  eapply step_ok_trans; [apply step_ok_killServerProcess|].
  eapply step_ok_trans; [|apply step_ok_saveProject].
  apply step_ok_assign. keeps_tac.
Qed.

Lemma step_ok_sendToProject projectId message now m :
  step_ok m (sendToProject projectId message now m).1.
Proof.
  unfold sendToProject.
  destruct (JsMap.get projectId (projects m)); [|apply step_ok_refl].
  destruct (agentProcesses m !! projectId); [|apply step_ok_refl]. simpl.
  eapply step_ok_trans; [|apply step_ok_saveProject].
  eapply step_ok_trans; [|apply step_ok_assign; keeps_tac].
  by apply step_ok_shrink.
Qed.

Lemma step_ok_createProject_begin name description techStack projectId now m :
  JsMap.get projectId (projects m) = None →
  step_ok m (createProject_begin name description techStack projectId now m).1.
Proof.
  intros Hfresh. unfold createProject_begin.
  destruct (_ >=? _); [apply step_ok_refl|]. simpl.
  eapply step_ok_trans; [|apply step_ok_spawnAgent_begin].
  eapply step_ok_trans; [|apply step_ok_saveProject].
  unfold step_ok. simpl. split_and!; auto. by apply grows_new.
Qed.

Lemma step_ok_openProject_begin projectId task now m :
  step_ok m (openProject_begin projectId task now m).1.
Proof.
  unfold openProject_begin.
  destruct (JsMap.get projectId (projects m)); [|apply step_ok_refl].
  set (m1 := match agentProcesses m !! projectId with
             | Some _ => killAgentProcess projectId m | None => m end).
  assert (H1 : step_ok m m1).
  { subst m1. destruct (agentProcesses m !! projectId); [|apply step_ok_refl].
    apply step_ok_killAgentProcess. }
  destruct (_ >=? _); [done|]. simpl.
  eapply step_ok_trans; [exact H1|].
  eapply step_ok_trans; [|apply step_ok_spawnAgent_begin].
  eapply step_ok_trans; [|apply step_ok_saveProject].
  apply step_ok_assign. keeps_tac.
Qed.


Lemma step_ok_serveProject_begin projectId command host m :
  step_ok m (serveProject_begin projectId command host m).1.
Proof.
  unfold serveProject_begin.
  destruct (JsMap.get projectId (projects m)) as [p|] eqn:Hget; [|apply step_ok_refl].
  pose proof (step_ok_killServerProcess projectId m) as H1.
  set (m1 := killServerProcess projectId m) in *.
  destruct (findAvailablePort m1 (testPort host)) as [port|e] eqn:Hport; [|done].
  simpl. eapply step_ok_trans; [exact H1|].
  apply findAvailablePort_skips_reserved in Hport as (_ & _ & Hrange & _).
  assert (Hp : is_Some (JsMap.get projectId (projects m1))).
  { destruct H1 as ([G _] & _). destruct (G _ _ Hget) as (p' & -> & _). by eauto. }
  unfold step_ok. simpl. split_and!; auto.
  - by apply grows_same.
  - intros k. destruct (decide (projectId = k)) as [<-|Hne].
    + by right.
    + rewrite lookup_insert_ne by done. by left.
  - intros q Hq. apply elem_of_union in Hq as [Hq|Hq]; [|by left].
    apply elem_of_singleton in Hq as ->. by right.
Qed.

Lemma step_ok_serveProject_settle proc ps earlyExit now m :
  step_ok m (serveProject_settle proc ps earlyExit now m).1.
Proof.
  unfold serveProject_settle. destruct earlyExit; simpl.
  - eapply step_ok_trans; [|apply step_ok_saveProject].
    eapply step_ok_trans; [|apply step_ok_assign; keeps_tac].
    apply step_ok_shrink; simpl; try done; [apply delete_subseteq | set_solver].
  - eapply step_ok_trans; [|apply step_ok_saveProject].
    eapply step_ok_trans; [|apply step_ok_assign; keeps_tac].
    by apply step_ok_shrink.
Qed.

(** Every step of the transition system is such a step. *)
Lemma step_ok_handle JSON_parse m i : step_ok m (handle JSON_parse m i).
Proof.
  destruct i; simpl.
  - unfold JsMap.has.
    destruct (JsMap.get projectId (projects m)) eqn:E; [apply step_ok_refl|].
    by apply step_ok_createProject_begin.
  - apply step_ok_openProject_begin.
  - destruct (pendingSpawns m !! proc) as [[projectId prompt]|]; [|apply step_ok_refl].
    eapply step_ok_trans; [|apply step_ok_spawnAgent_settle].
    by apply step_ok_shrink.
  - apply step_ok_sendToProject.
  - apply step_ok_stopProject.
  - apply step_ok_serveProject_begin.
  - destruct (pendingServes m !! proc) as [ps|]; [|apply step_ok_refl].
    eapply step_ok_trans; [|apply step_ok_serveProject_settle].
    by apply step_ok_shrink.
  - apply step_ok_stopAll.
  - destruct (readers m !! proc) as [[projectId decoder]|]; [|apply step_ok_refl].
    pose proof (step_ok_readChunk JSON_parse projectId decoder value now m) as H.
    destruct (readChunk JSON_parse projectId decoder value now m) as [m1 d1].
    eapply step_ok_trans; [exact H|]. by apply step_ok_shrink.
  - destruct (agentWatchers m !! proc) as [projectId|]; [|apply step_ok_refl].
    eapply step_ok_trans; [|apply step_ok_agentExited].
    by apply step_ok_shrink.
  - destruct (serverWatchers m !! proc) as [[projectId port]|]; [|apply step_ok_refl].
    eapply step_ok_trans; [|apply step_ok_serverExited].
    by apply step_ok_shrink.
  - unfold stalledCheck. apply step_ok_foldl. intros. apply step_ok_checkStalled.
Qed.

Lemma step_ok_run JSON_parse inputs m : step_ok m (run JSON_parse m inputs).
Proof.
  unfold run. revert m. induction inputs as [|i inputs IH]; intros m; simpl.
  - apply step_ok_refl.
  - eapply step_ok_trans; [apply step_ok_handle | apply IH].
Qed.

Lemma well_formed_step m m' : well_formed m → step_ok m m' → well_formed m'.
Proof.
  intros (N & K & A & S & P) ((G1 & G2 & _ & N') & C & A' & S' & P').
  assert (Keep : ∀ k, is_Some (JsMap.get k (projects m)) →
                      is_Some (JsMap.get k (projects m'))).
  { intros k [p H]. destruct (G1 k p H) as (p' & H' & _). by eauto. }
  unfold config in C. injection C as _ Hs He _ _.
  unfold well_formed. split_and!.
  - by apply N'.
  - intros k p' H'. destruct (G2 k p' H') as [[p H]|]; [|done].
    destruct (G1 k p H) as (q & Hq & (Hid & _)). rewrite H' in Hq.
    injection Hq as <-. rewrite Hid. by apply K.
  - intros k H. destruct (A' k H); [apply Keep; by apply A | done].
  - intros k H. destruct (S' k H); [apply Keep; by apply S | done].
  - intros port H. destruct (P' port H) as [H0|]; [apply P in H0|]; lia.
Qed.

Lemma init_allocatedPorts m rows :
  allocatedPorts (init m rows) = allocatedPorts m ∧ config (init m rows) = config m.
Proof.
  revert m. induction rows as [|row rows IH]; intros m; [done|].
  rewrite init_cons. by destruct (IH (set_projects (JsMap.set (row_id row) (loadRow row) (projects m)) m)) as [-> ->].
Qed.

Lemma init_key_id m rows :
  (∀ k p, JsMap.get k (projects m) = Some p → id p = k) →
  ∀ k p, JsMap.get k (projects (init m rows)) = Some p → id p = k.
Proof.
  revert m. induction rows as [|row rows IH]; intros m Hm; [done|].
  rewrite init_cons. apply IH. simpl. intros k p.
  destruct (decide (row_id row = k)) as [<-|Hne].
  - rewrite get_set_eq. by intros [= <-].
  - rewrite get_set_ne by done. apply Hm.
Qed.

Lemma init_NoDup m rows :
  NoDup (JsMap.keys (projects m)) → NoDup (JsMap.keys (projects (init m rows))).
Proof.
  revert m. induction rows as [|row rows IH]; intros m Hm; [done|].
  rewrite init_cons. apply IH. simpl. by apply NoDup_keys_set.
Qed.

Lemma well_formed_init dir ps pe mx host rows :
  well_formed (init (constructor dir ps pe mx host) rows).
Proof.
  set (m0 := constructor dir ps pe mx host).
  destruct (init_frame m0 rows) as [Ha Hs].
  destruct (init_allocatedPorts m0 rows) as [Hp _].
  unfold well_formed. rewrite Ha, Hs, Hp. split_and!.
  - apply init_NoDup. constructor.
  - by apply init_key_id.
  - intros k [? H]. subst m0. simpl in H. by apply lookup_empty_Some in H.
  - intros k [? H]. subst m0. simpl in H. by apply lookup_empty_Some in H.
  - intros port H. subst m0. simpl in H. by apply not_elem_of_empty in H.
Qed.

Lemma reachable_well_formed JSON_parse m : reachable JSON_parse m → well_formed m.
Proof.
  intros (dir & ps & pe & mx & host & rows & inputs & ->).
  eapply well_formed_step; [apply well_formed_init | apply step_ok_run].
Qed.

(** X1. No run of the manager removes a project, moves it in the map or
    changes what identifies it: after any sequence of operations,
    callbacks and timer ticks the keys of the map are the old ones, in
    their order, followed by those of the projects created since, and a
    project that was in the map is still there, with the identifier, name,
    description, tech stack, directory and creation time it had. *)
Theorem run_keeps_projects JSON_parse m inputs :
  (∃ new, JsMap.keys (projects (run JSON_parse m inputs))
          = JsMap.keys (projects m) ++ new)
  ∧ ∀ k p, JsMap.get k (projects m) = Some p →
      ∃ p', JsMap.get k (projects (run JSON_parse m inputs)) = Some p'
            ∧ id p' = id p ∧ name p' = name p ∧ description p' = description p
            ∧ techStack p' = techStack p ∧ directory p' = directory p
            ∧ createdAt p' = createdAt p.
Proof.
  destruct (step_ok_run JSON_parse inputs m) as ((G & _ & N & _) & _).
  split; [exact N|]. intros k p H.
  destruct (G k p H) as (p' & H' & K). exists p'. split; [done|].
  unfold keeps in K. by destruct_and!.
Qed.

Lemma run_keeps_projects_witness :
  ∃ p p', JsMap.get proj_a (projects demo_building) = Some p
          ∧ JsMap.get proj_a (projects (run parse_none demo_building demo_day)) = Some p'
          ∧ name p' = name p ∧ directory p' = directory p
          ∧ createdAt p' = createdAt p ∧ status p' ≠ status p.
Proof.
  eexists.
  destruct (run_keeps_projects parse_none demo_building demo_day) as [_ K].
  edestruct (K proj_a) as (p' & H' & _ & Hn & _ & _ & Hd & Hc);
    [vm_compute; reflexivity|].
  exists p'. split; [reflexivity|]. split; [exact H'|].
  split; [exact Hn|]. split; [exact Hd|]. split; [exact Hc|].
  vm_compute in H'. injection H' as <-. discriminate.
Defined.

(** X2. A project that has left the state [creating] never returns to
    it: along any run, a project that is [creating] at the end was
    [creating] at the start. *)
Theorem creating_only_initially JSON_parse m inputs k p p' :
  JsMap.get k (projects m) = Some p →
  JsMap.get k (projects (run JSON_parse m inputs)) = Some p' →
  status p' = creating → status p = creating.
Proof.
  intros H H'. destruct (step_ok_run JSON_parse inputs m) as ([G _] & _).
  destruct (G k p H) as (q & Hq & K). rewrite H' in Hq. injection Hq as <-.
  unfold keeps in K. by destruct_and!.
Qed.

Lemma creating_only_initially_witness :
  ∃ p p', JsMap.get proj_a (projects demo_building) = Some p
          ∧ JsMap.get proj_a (projects (run parse_none demo_building demo_day)) = Some p'
          ∧ (status p' = creating → status p = creating)
          ∧ status p = building ∧ status p' = stopped.
Proof.
  eexists _, _. split; [vm_compute; reflexivity|].
  split; [vm_compute; reflexivity|].
  split; [|split; reflexivity].
  apply (creating_only_initially parse_none demo_building demo_day proj_a);
    vm_compute; reflexivity.
Defined.

(** X3. In every state that a manager reaches, the map holds each key
    once and each project under its own identifier, and every entry of the
    two process tables is that of a project of the map. *)
Theorem reachable_tables_name_projects JSON_parse m :
  reachable JSON_parse m →
  NoDup (JsMap.keys (projects m))
  ∧ (∀ k p, JsMap.get k (projects m) = Some p → id p = k)
  ∧ (∀ k proc, agentProcesses m !! k = Some proc →
       is_Some (JsMap.get k (projects m)))
  ∧ (∀ k proc, serverProcesses m !! k = Some proc →
       is_Some (JsMap.get k (projects m))).
Proof.
  intros H. apply reachable_well_formed in H as (N & K & A & S & _).
  split_and!; [done | done | |]; intros k proc E; [apply A | apply S]; by eauto.
Qed.

Lemma reachable_tables_name_projects_witness :
  reachable parse_none demo_serving
  ∧ serverProcesses demo_serving !! proj_a = Some 1%nat
  ∧ is_Some (JsMap.get proj_a (projects demo_serving)).
Proof.
  assert (R : reachable parse_none demo_serving).
  { exists (str "/srv/projects"), None, None, None, None, [].
    eexists. reflexivity. }
  split; [exact R|]. split; [reflexivity|].
  destruct (reachable_tables_name_projects parse_none demo_serving R)
    as (_ & _ & _ & S).
  apply (S proj_a 1%nat). reflexivity.
Defined.

(** X4. In every state that a manager reaches, each reserved port lies
    in the configured range. *)
Theorem reachable_ports_in_range JSON_parse m port :
  reachable JSON_parse m →
  port ∈ allocatedPorts m →
  portRangeStart m <= port <= portRangeEnd m.
Proof.
  intros H. apply reachable_well_formed in H as (_ & _ & _ & _ & P). apply P.
Qed.

Lemma reachable_ports_in_range_witness :
  reachable parse_none demo_serving
  ∧ 4000 ∈ allocatedPorts demo_serving
  ∧ portRangeStart demo_serving <= 4000 <= portRangeEnd demo_serving.
Proof.
  assert (R : reachable parse_none demo_serving).
  { exists (str "/srv/projects"), None, None, None, None, [].
    eexists. reflexivity. }
  assert (E : 4000 ∈ allocatedPorts demo_serving).
  { apply (bool_decide_unpack (4000 ∈ allocatedPorts _)). vm_compute. exact I. }
  split; [exact R|]. split; [exact E|].
  exact (reachable_ports_in_range parse_none demo_serving 4000 R E).
Defined.

(** * The operations, one by one *)

(** ** More on maps and on the count of running builds *)

Lemma set_fresh {V} (k : text) (v : V) (m : JsMap.t V) :
  JsMap.get k m = None → JsMap.set k v m = m ++ [(k, v)].
Proof.
  unfold JsMap.get. induction m as [|[k' v'] m IH]; simpl; [done|].
  destruct (text_eqb k k'); [done|]. intros H. by rewrite IH.
Qed.

Lemma set_set {V} (k : text) (v w : V) (m : JsMap.t V) :
  JsMap.set k w (JsMap.set k v m) = JsMap.set k w m.
Proof.
  induction m as [|[k' v'] m IH]; simpl.
  - by rewrite text_eqb_refl.
  - destruct (text_eqb k k') eqn:E; simpl; rewrite E; [done | by rewrite IH].
Qed.


Lemma running_count_set (k : text) (v v0 : ProjectMetadata)
    (ps : JsMap.t ProjectMetadata) (acc : Z) :
  JsMap.get k ps = Some v0 →
  foldl (fun count p => if in_flight (status p) then count + 1 else count) acc
    (JsMap.values (JsMap.set k v ps))
  = foldl (fun count p => if in_flight (status p) then count + 1 else count) acc
      (JsMap.values ps)
    - (if in_flight (status v0) then 1 else 0)
    + (if in_flight (status v) then 1 else 0).
Proof.
  unfold JsMap.get, JsMap.values. revert acc.
  induction ps as [|[k' v'] ps IH]; intros acc; simpl; [done|].
  destruct (text_eqb k k') eqn:E; simpl.
  - intros [= ->]. rewrite !running_count_acc.
    destruct (in_flight (status v0)), (in_flight (status v)); lia.
  - intros H. by rewrite IH.
Qed.

Lemma getRunningCount_assign projectId f m p :
  JsMap.get projectId (projects m) = Some p →
  getRunningCount (assign projectId f m)
  = getRunningCount m - (if in_flight (status p) then 1 else 0)
    + (if in_flight (status (f p)) then 1 else 0).
Proof.
  intros H. unfold getRunningCount, assign. rewrite H. simpl.
  by apply running_count_set.
Qed.

Lemma getRunningCount_projects m m' :
  projects m' = projects m → getRunningCount m' = getRunningCount m.
Proof. unfold getRunningCount. by intros ->. Qed.

Lemma getRunningCount_new projectId p m :
  JsMap.get projectId (projects m) = None →
  getRunningCount (set_projects (JsMap.set projectId p (projects m)) m)
  = getRunningCount m + (if in_flight (status p) then 1 else 0).
Proof.
  intros H. unfold getRunningCount. simpl. rewrite set_fresh by done.
  unfold JsMap.values. rewrite map_app, foldl_app. simpl.
  destruct (in_flight (status p)); lia.
Qed.

(** Assignments and saves on a project that is known to be in the map. *)
Lemma assign_eq projectId f m p :
  JsMap.get projectId (projects m) = Some p →
  assign projectId f m = set_projects (JsMap.set projectId (f p) (projects m)) m.
Proof. intros H. unfold assign. by rewrite H. Qed.

Lemma saveProject_eq projectId m p :
  JsMap.get projectId (projects m) = Some p →
  saveProject projectId m = set_db (<[id p := row_of p]> (db m)) m.
Proof. intros H. unfold saveProject. by rewrite H. Qed.

(** Two managers with the same fields are the same. *)
Lemma Manager_eq (m1 m2 : Manager) :
  projects m1 = projects m2 → agentProcesses m1 = agentProcesses m2 →
  serverProcesses m1 = serverProcesses m2 → allocatedPorts m1 = allocatedPorts m2 →
  config m1 = config m2 → db m1 = db m2 → spawned m1 = spawned m2 →
  killed m1 = killed m2 → stdin m1 = stdin m2 → emitted m1 = emitted m2 →
  agentWatchers m1 = agentWatchers m2 → serverWatchers m1 = serverWatchers m2 →
  readers m1 = readers m2 → pendingSpawns m1 = pendingSpawns m2 →
  pendingServes m1 = pendingServes m2 → m1 = m2.
Proof.
  destruct m1, m2. unfold config. simpl. intros. simplify_eq. reflexivity.
Qed.

Lemma spawnAgent_begin_eq projectId prompt m p :
  JsMap.get projectId (projects m) = Some p →
  spawnAgent_begin projectId prompt m
  = set_pendingSpawns (<[spawned m := (projectId, prompt)]> (pendingSpawns m))
      (set_agentWatchers (<[spawned m := projectId]> (agentWatchers m))
         (set_readers (<[spawned m := (projectId, Utf8.init)]> (readers m))
            (set_projects
               (JsMap.set projectId (set_agentProcess (Some (spawned m)) p)
                  (projects m))
               (set_agentProcesses (<[projectId := spawned m]> (agentProcesses m))
                  (set_spawned (S (spawned m)) m))))).
Proof.
  intros H. unfold spawnAgent_begin. rewrite H. cbv zeta.
  erewrite assign_eq by (simpl; exact H). reflexivity.
Qed.

Lemma spawnAgent_settle_eq proc projectId prompt now m p :
  JsMap.get projectId (projects m) = Some p →
  spawnAgent_settle proc projectId prompt now m
  = set_db (<[id p := row_of (set_updatedAt now (set_status building p))]> (db m))
      (set_projects
         (JsMap.set projectId (set_updatedAt now (set_status building p)) (projects m))
         (set_stdin (stdin m ++ [(proc, prompt)]) m)).
Proof.
  intros H. unfold spawnAgent_settle.
  erewrite assign_eq by (simpl; exact H).
  erewrite saveProject_eq by (simpl; apply get_set_eq). reflexivity.
Qed.

(** ** Creating a project *)

(** X5. A [createProject] call for a fresh identifier, made while fewer
    builds are running than the maximum, appends the project to the map,
    spawns its agent and writes the create prompt to the agent's input.
    When the call returns the record is [building] and persisted, although
    the status that the call returns is [creating]; the count of running
    builds has grown by one and no other project has changed. *)
Theorem createProject_admitted nm dsc ts projectId now settled m :
  JsMap.get projectId (projects m) = None →
  getRunningCount m < maxConcurrentBuilds m →
  let r := createProject nm dsc ts projectId now settled m in
  r.2 = Ok (projectId, creating)
  ∧ (∃ p, JsMap.get projectId (projects r.1) = Some p
          ∧ status p = building
          ∧ id p = projectId ∧ name p = nm ∧ description p = dsc
          ∧ techStack p = text_or_null ts
          ∧ directory p = join (projectsDir m) projectId
          ∧ createdAt p = now ∧ updatedAt p = settled
          ∧ agentProcess p = Some (spawned m)
          ∧ db r.1 !! projectId = Some (row_of p))
  ∧ agentProcesses r.1 !! projectId = Some (spawned m)
  ∧ stdin r.1 = stdin m ++ [(spawned m, buildCreatePrompt nm dsc ts)]
  ∧ JsMap.keys (projects r.1) = JsMap.keys (projects m) ++ [projectId]
  ∧ getRunningCount r.1 = getRunningCount m + 1
  ∧ ∀ k, k ≠ projectId → JsMap.get k (projects r.1) = JsMap.get k (projects m).
Proof.
  intros Hfresh Hcap. unfold createProject, createProject_begin.
  destruct (Z.geb_spec (getRunningCount m) (maxConcurrentBuilds m)) as [|_]; [lia|].
  set (project := mk_project _ _ _ _ _ _ _ _ _ _ _ _ _ _ _).
  set (m1 := set_projects _ m).
  assert (G1 : JsMap.get projectId (projects m1) = Some project) by apply get_set_eq.
  rewrite (saveProject_eq projectId m1 project G1).
  erewrite spawnAgent_begin_eq by (simpl; exact G1).
  erewrite spawnAgent_settle_eq by (simpl; apply get_set_eq).
  simpl. rewrite !set_set.
  set (p := set_updatedAt settled _).
  split; [done|]. split.
  { exists p. rewrite get_set_eq. split_and!; try done. apply lookup_insert_eq. }
  split; [apply lookup_insert_eq|]. split; [done|]. split.
  { rewrite set_fresh by done. unfold JsMap.keys. by rewrite map_app. }
  split.
  - transitivity (getRunningCount (set_projects (JsMap.set projectId p (projects m)) m)).
    + unfold getRunningCount. simpl. rewrite ?set_set. reflexivity.
    + by rewrite getRunningCount_new.
  - intros k Hk. by rewrite get_set_ne.
Qed.

Lemma createProject_admitted_witness :
  let r := createProject (str "blog") (str "a blog") (Some (str "Next.js")) proj_b
             5000 7000 demo_building in
  JsMap.get proj_b (projects demo_building) = None
  ∧ getRunningCount demo_building < maxConcurrentBuilds demo_building
  ∧ r.2 = Ok (proj_b, creating)
  ∧ (status <$> JsMap.get proj_b (projects r.1)) = Some building
  ∧ JsMap.keys (projects r.1) = [proj_a; proj_b].
Proof.
  assert (H1 : JsMap.get proj_b (projects demo_building) = None) by reflexivity.
  assert (H2 : getRunningCount demo_building < maxConcurrentBuilds demo_building)
    by (vm_compute; reflexivity).
  destruct (createProject_admitted (str "blog") (str "a blog") (Some (str "Next.js"))
              proj_b 5000 7000 demo_building H1 H2)
    as (Hr & (p & Hp & Hs & _) & _ & _ & Hk & _).
  split; [exact H1|]. split; [exact H2|]. split; [exact Hr|].
  split; [by rewrite Hp, <- Hs | exact Hk].
Defined.

(** ** Opening a project again *)

Lemma killAgentProcess_eq projectId m p :
  JsMap.get projectId (projects m) = Some p →
  killAgentProcess projectId m
  = set_projects (JsMap.set projectId (set_agentProcess None p) (projects m))
      match agentProcesses m !! projectId with
      | Some proc =>
          set_agentProcesses (delete projectId (agentProcesses m))
            (set_killed (killed m ++ [proc]) m)
      | None => m
      end.
Proof.
  intros H. unfold killAgentProcess.
  erewrite assign_eq; [|by destruct (agentProcesses m !! projectId)].
  by destruct (agentProcesses m !! projectId).
Qed.

(** X6. An [openProject] call made while the maximum of builds is
    running is refused, but only after the agent attached to the project
    has been killed: the call fails with the capacity error and leaves the
    project with the status it had, without an agent, and nothing is
    written to the store. *)
Theorem openProject_refused_after_kill projectId task now settled m p proc :
  JsMap.get projectId (projects m) = Some p →
  agentProcesses m !! projectId = Some proc →
  getRunningCount m >= maxConcurrentBuilds m →
  let r := openProject projectId task now settled m in
  r.2 = Err (CapacityExceeded (maxConcurrentBuilds m))
  ∧ killed r.1 = killed m ++ [proc]
  ∧ agentProcesses r.1 !! projectId = None
  ∧ JsMap.get projectId (projects r.1) = Some (set_agentProcess None p)
  ∧ db r.1 = db m
  ∧ stdin r.1 = stdin m
  ∧ spawned r.1 = spawned m.
Proof.
  intros Hget Hproc Hcap. unfold openProject, openProject_begin.
  rewrite Hget, Hproc. rewrite getRunningCount_killAgentProcess.
  assert (E : maxConcurrentBuilds (killAgentProcess projectId m) = maxConcurrentBuilds m).
  { by destruct (killAgentProcess_spec projectId m) as (_ & _ & _ & _ & _ & _ & _ & _ & ?). }
  rewrite E.
  destruct (Z.geb_spec (getRunningCount m) (maxConcurrentBuilds m)) as [_|]; [|lia].
  simpl. rewrite (killAgentProcess_eq projectId m p Hget), Hproc. simpl.
  split_and!; try done; [apply lookup_delete_eq | apply get_set_eq].
Qed.

Lemma openProject_refused_after_kill_witness :
  let r := openProject (str "proj_1") (str "add a dark mode") 9000 11000 demo_full in
  (status <$> JsMap.get (str "proj_1") (projects demo_full)) = Some creating
  ∧ agentProcesses demo_full !! str "proj_1" = Some 0%nat
  ∧ getRunningCount demo_full >= maxConcurrentBuilds demo_full
  ∧ r.2 = Err (CapacityExceeded 3)
  ∧ killed r.1 = [0%nat]
  ∧ agentProcesses r.1 !! str "proj_1" = None
  ∧ (status <$> JsMap.get (str "proj_1") (projects r.1)) = Some creating.
Proof.
  assert (H1 : ∃ p, JsMap.get (str "proj_1") (projects demo_full) = Some p
                    ∧ status p = creating).
  { eexists. split; vm_compute; reflexivity. }
  destruct H1 as (p & H1 & Hs).
  assert (H2 : agentProcesses demo_full !! str "proj_1" = Some 0%nat) by reflexivity.
  assert (H3 : getRunningCount demo_full >= maxConcurrentBuilds demo_full)
    by (vm_compute; discriminate).
  destruct (openProject_refused_after_kill (str "proj_1") (str "add a dark mode")
              9000 11000 demo_full p 0%nat H1 H2 H3)
    as (Hr & Hk & Ha & Hp & _).
  split; [by rewrite H1, <- Hs|]. split; [exact H2|]. split; [exact H3|].
  split; [exact Hr|]. split; [exact Hk|]. split; [exact Ha|].
  by rewrite Hp, <- Hs.
Defined.








(** ** Replying to an agent *)

(** X8. A reply is accepted whatever the status of the project, as long
    as an agent process is attached: the message is written to the input
    of that process and the record becomes [building], with the waiting
    time cleared, and is persisted.  The build limit is not consulted: a
    project that was not running is counted as running afterwards, so the
    count can exceed the maximum. *)
Theorem sendToProject_resumes projectId message now m p proc :
  JsMap.get projectId (projects m) = Some p →
  agentProcesses m !! projectId = Some proc →
  let r := sendToProject projectId message now m in
  let p' := set_updatedAt now (set_waitingSince None (set_status building p)) in
  r.2 = Ok building
  ∧ JsMap.get projectId (projects r.1) = Some p'
  ∧ db r.1 !! id p = Some (row_of p')
  ∧ stdin r.1 = stdin m ++ [(proc, message)]
  ∧ agentProcesses r.1 = agentProcesses m
  ∧ maxConcurrentBuilds r.1 = maxConcurrentBuilds m
  ∧ getRunningCount r.1
    = getRunningCount m + (if in_flight (status p) then 0 else 1)
  ∧ (in_flight (status p) = false →
     getRunningCount m >= maxConcurrentBuilds m →
     getRunningCount r.1 > maxConcurrentBuilds r.1).
Proof.
  intros Hget Hproc. unfold sendToProject. rewrite Hget, Hproc.
  set (m1 := set_stdin _ m).
  assert (G1 : JsMap.get projectId (projects m1) = Some p) by done.
  assert (C : getRunningCount
                (saveProject projectId
                   (assign projectId
                      (fun p => set_updatedAt now
                                  (set_waitingSince None (set_status building p))) m1))
              = getRunningCount m + (if in_flight (status p) then 0 else 1)).
  { rewrite (getRunningCount_projects _ (saveProject projectId _))
      by apply projects_saveProject.
    rewrite (getRunningCount_assign projectId _ m1 p G1). simpl.
    rewrite (getRunningCount_projects m m1) by done.
    destruct (in_flight (status p)); lia. }
  cbn [fst snd]. rewrite C.
  erewrite assign_eq by exact G1.
  erewrite saveProject_eq by (simpl; apply get_set_eq).
  simpl. split_and!; try done; [apply get_set_eq | apply lookup_insert_eq |].
  intros ->. lia.
Qed.

Lemma sendToProject_resumes_witness :
  let r := sendToProject proj_a (str "one more thing") 9000 demo_resumable in
  (status <$> JsMap.get proj_a (projects demo_resumable)) = Some completed
  ∧ agentProcesses demo_resumable !! proj_a = Some 0%nat
  ∧ getRunningCount demo_resumable = maxConcurrentBuilds demo_resumable
  ∧ r.2 = Ok building
  ∧ getRunningCount r.1 > maxConcurrentBuilds r.1.
Proof.
  assert (H1 : ∃ p, JsMap.get proj_a (projects demo_resumable) = Some p
                    ∧ status p = completed).
  { eexists. split; vm_compute; reflexivity. }
  destruct H1 as (p & H1 & Hs).
  assert (H2 : agentProcesses demo_resumable !! proj_a = Some 0%nat) by reflexivity.
  assert (H3 : getRunningCount demo_resumable = maxConcurrentBuilds demo_resumable)
    by (vm_compute; reflexivity).
  destruct (sendToProject_resumes proj_a (str "one more thing") 9000 demo_resumable
              p 0%nat H1 H2) as (Hr & _ & _ & _ & _ & _ & _ & Hover).
  split; [by rewrite H1, <- Hs|]. split; [exact H2|]. split; [exact H3|].
  split; [exact Hr|]. apply Hover; [by rewrite Hs | lia].
Defined.

(** ** Ports and previews *)

Lemma scanPorts_none allocated probe n start :
  scanPorts allocated probe n start = None →
  ∀ q, start <= q < start + Z.of_nat n → q ∈ allocated ∨ probe q = false.
Proof.
  revert start. induction n as [|n IH]; intros start H q Hq; [lia|].
  simpl in H. destruct (decide (q = start)) as [->|Hne].
  - destruct (bool_decide_reflect (start ∈ allocated)); [by left|].
    destruct (probe start); [done | by right].
  - apply (IH (start + 1)); [|lia].
    destruct (bool_decide (start ∈ allocated)); [done|].
    by destruct (probe start).
Qed.

(** X9. [findAvailablePort] returns the least port of the configured
    range that is not reserved and that the operating system accepts; it
    fails, with the error that names the range, exactly when the range
    holds no such port (an empty range included). *)
Theorem findAvailablePort_least m probe :
  match findAvailablePort m probe with
  | Ok port =>
      portRangeStart m <= port <= portRangeEnd m
      ∧ (port ∉ allocatedPorts m) ∧ probe port = true
      ∧ ∀ q, portRangeStart m <= q < port → q ∈ allocatedPorts m ∨ probe q = false
  | Err e =>
      e = NoPortsAvailable (portRangeStart m) (portRangeEnd m)
      ∧ ∀ q, portRangeStart m <= q <= portRangeEnd m →
          q ∈ allocatedPorts m ∨ probe q = false
  end.
Proof.
  destruct (findAvailablePort m probe) as [port|e] eqn:E.
  - apply findAvailablePort_skips_reserved in E. by destruct_and!.
  - unfold findAvailablePort in E.
    destruct (scanPorts _ _ _ _) eqn:S; [done|]. injection E as <-.
    split; [done|]. intros q Hq. eapply scanPorts_none; [exact S|]. lia.
Qed.

Lemma killServerProcess_eq projectId m p :
  JsMap.get projectId (projects m) = Some p →
  killServerProcess projectId m
  = set_projects
      (JsMap.set projectId (set_serverProcess None (set_servingPort None p))
         (projects m))
      (set_allocatedPorts
         match number_or_null (servingPort p) with
         | Some port => allocatedPorts m ∖ {[port]}
         | None => allocatedPorts m
         end
         match serverProcesses m !! projectId with
         | Some proc =>
             set_serverProcesses (delete projectId (serverProcesses m))
               (set_killed (killed m ++ [proc]) m)
         | None => m
         end).
Proof.
  intros H. unfold killServerProcess.
  destruct (serverProcesses m !! projectId); simpl; rewrite H;
    destruct (number_or_null (servingPort p));
    (erewrite assign_eq by (simpl; exact H)); try done; by destruct m.
Qed.









(** ** Stopping *)

(** [stopProject] on a project of the map, written out. *)
Lemma stopProject_eq projectId now m p :
  JsMap.get projectId (projects m) = Some p →
  let p' := set_updatedAt now
              (set_status stopped
                 (set_serverProcess None
                    (set_servingPort None (set_agentProcess None p)))) in
  stopProject projectId now m
  = (set_db (<[id p := row_of p']> (db m))
       (set_projects (JsMap.set projectId p' (projects m))
          (set_allocatedPorts
             match number_or_null (servingPort p) with
             | Some port => allocatedPorts m ∖ {[port]}
             | None => allocatedPorts m
             end
             (set_serverProcesses (delete projectId (serverProcesses m))
                (set_agentProcesses (delete projectId (agentProcesses m))
                   (set_killed
                      (killed m
                         ++ match agentProcesses m !! projectId with
                            | Some proc => [proc]
                            | None => []
                            end
                         ++ match serverProcesses m !! projectId with
                            | Some proc => [proc]
                            | None => []
                            end) m))))),
     true).
Proof.
  intros Hget p'. unfold stopProject. rewrite Hget. f_equal.
  rewrite (killAgentProcess_eq projectId m p Hget).
  erewrite killServerProcess_eq by (simpl; apply get_set_eq).
  erewrite assign_eq by (simpl; apply get_set_eq).
  erewrite saveProject_eq by (simpl; apply get_set_eq).
  simpl. rewrite !set_set.
  destruct (agentProcesses m !! projectId) eqn:Ea;
    destruct (serverProcesses m !! projectId) eqn:Es; simpl;
    rewrite ?Es; simpl;
    apply Manager_eq; simpl; rewrite ?app_nil_r, <- ?app_assoc;
    rewrite ?(delete_id (agentProcesses m)) by done;
    rewrite ?(delete_id (serverProcesses m)) by done;
    reflexivity.
Qed.

(** X12. Stopping a project is idempotent: a second [stopProject] call
    leaves the manager as a single call at the later time would. *)
Theorem stopProject_twice projectId t1 t2 m :
  stopProject projectId t2 (stopProject projectId t1 m).1
  = stopProject projectId t2 m.
Proof.
  destruct (JsMap.get projectId (projects m)) as [p|] eqn:Hget.
  2: { unfold stopProject. rewrite Hget. simpl. by rewrite Hget. }
  rewrite (stopProject_eq projectId t1 m p Hget). cbn [fst].
  erewrite stopProject_eq by (simpl; apply get_set_eq).
  rewrite (stopProject_eq projectId t2 m p Hget).
  f_equal. apply Manager_eq; simpl;
    rewrite ?lookup_delete_eq, ?set_set, ?app_nil_r, ?delete_delete_eq,
      ?insert_insert_eq; reflexivity.
Qed.

(** X13. Stopping a project releases what it held: the port of its
    preview is no longer reserved and, if the project was being built, one
    build less is counted as running.  The exit watchers of the killed
    processes stay armed, no event is emitted, what the record said about
    a pending question and the last notification stays, and nothing else
    changes: neither another project nor its processes. *)
Theorem stopProject_releases projectId now m p :
  JsMap.get projectId (projects m) = Some p →
  let r := stopProject projectId now m in
  JsMap.get projectId (projects r.1)
  = Some (set_updatedAt now
            (set_status stopped
               (set_serverProcess None
                  (set_servingPort None (set_agentProcess None p)))))
  ∧ (∀ port, servingPort p = Some port → port ≠ 0 → port ∉ allocatedPorts r.1)
  ∧ allocatedPorts r.1 ⊆ allocatedPorts m
  ∧ getRunningCount r.1
    = getRunningCount m - (if in_flight (status p) then 1 else 0)
  ∧ agentWatchers r.1 = agentWatchers m
  ∧ serverWatchers r.1 = serverWatchers m
  ∧ emitted r.1 = emitted m
  ∧ ∀ k, k ≠ projectId →
      JsMap.get k (projects r.1) = JsMap.get k (projects m)
      ∧ agentProcesses r.1 !! k = agentProcesses m !! k
      ∧ serverProcesses r.1 !! k = serverProcesses m !! k.
Proof.
  intros Hget. cbv zeta. rewrite (stopProject_eq projectId now m p Hget). simpl.
  split_and!; try done.
  - apply get_set_eq.
  - intros port -> Hport. simpl. destruct (Z.eqb_spec port 0); [done | set_solver].
  - destruct (number_or_null (servingPort p)); set_solver.
  - match goal with |- getRunningCount ?m' = _ =>
      transitivity
        (getRunningCount
           (assign projectId
              (fun p => set_updatedAt now
                          (set_status stopped
                             (set_serverProcess None
                                (set_servingPort None (set_agentProcess None p))))) m))
    end.
    + apply getRunningCount_projects. simpl.
      by rewrite (assign_eq projectId _ m p Hget).
    + rewrite (getRunningCount_assign projectId _ m p Hget). simpl. lia.
  - intros k Hk. rewrite get_set_ne by done.
    by rewrite !lookup_delete_ne.
Qed.

Lemma stopProject_releases_witness :
  let r := stopProject proj_a 30000 demo_serving in
  (servingPort <$> JsMap.get proj_a (projects demo_serving)) = Some (Some 4000)
  ∧ 4000 ∈ allocatedPorts demo_serving
  ∧ (4000 ∉ allocatedPorts r.1)
  ∧ (status <$> JsMap.get proj_a (projects r.1)) = Some stopped
  ∧ serverWatchers r.1 !! 1%nat = Some (proj_a, 4000).
Proof.
  assert (H1 : ∃ p, JsMap.get proj_a (projects demo_serving) = Some p
                    ∧ servingPort p = Some 4000).
  { eexists. split; [vm_compute; reflexivity | reflexivity]. }
  destruct H1 as (p & H1 & Hp).
  destruct (stopProject_releases proj_a 30000 demo_serving p H1)
    as (Hg & Hport & _ & _ & _ & Hw & _).
  split; [by rewrite H1, <- Hp|].
  split; [apply (bool_decide_unpack (4000 ∈ allocatedPorts _)); vm_compute; exact I|].
  split; [by apply Hport|]. split; [by rewrite Hg | by rewrite Hw].
Defined.

(** The records and the tables after the loop of [stopAll] over some
    identifiers. *)
Lemma stopAll_loop ks m :
  let m' := foldl (fun m projectId =>
                     killServerProcess projectId (killAgentProcess projectId m)) m ks in
  (∀ k p, JsMap.get k (projects m) = Some p →
     JsMap.get k (projects m')
     = Some (if bool_decide (k ∈ ks)
             then set_serverProcess None (set_servingPort None (set_agentProcess None p))
             else p))
  ∧ (∀ k, agentProcesses m' !! k
          = if bool_decide (k ∈ ks) then None else agentProcesses m !! k)
  ∧ (∀ k, serverProcesses m' !! k
          = if bool_decide (k ∈ ks) then None else serverProcesses m !! k)
  ∧ (∀ k proc, k ∈ ks → agentProcesses m !! k = Some proc → proc ∈ killed m')
  ∧ (∀ k proc, k ∈ ks → serverProcesses m !! k = Some proc → proc ∈ killed m')
  ∧ (∀ proc, proc ∈ killed m → proc ∈ killed m')
  ∧ db m' = db m ∧ emitted m' = emitted m.
Proof.
  revert m. induction ks as [|k0 ks IH]; intros m; simpl.
  { split_and!; try done; intros k; intros; by apply not_elem_of_nil in H. }
  set (m1 := killServerProcess k0 (killAgentProcess k0 m)).
  destruct (killAgentProcess_spec k0 m)
    as (Ag & Ao & Aa & As & _ & Ak & Akk & Ae & _).
  destruct (killServerProcess_spec k0 (killAgentProcess k0 m))
    as (Sg & So & Ss & Sa & _ & Sk & Skk & Se & _).
  fold m1 in Sg, So, Ss, Sa, Sk, Skk, Se.
  assert (Hdb : db m1 = db m).
  { subst m1. unfold killServerProcess, killAgentProcess.
    repeat case_match; simpl; autorewrite with frame; simpl;
      autorewrite with frame; by repeat case_match. }
  destruct (IH m1) as (Ig & Ia & Is & Ika & Iks & Ikk & Idb & Ie).
  assert (D : ∀ k, bool_decide (k ∈ k0 :: ks)
                   = bool_decide (k = k0) || bool_decide (k ∈ ks)).
  { intros k. rewrite <- bool_decide_or. apply bool_decide_ext, elem_of_cons. }
  split_and!.
  - intros k p Hget. rewrite D. destruct (decide (k = k0)) as [->|Hne].
    + rewrite (bool_decide_eq_true_2 (k0 = k0)) by done. simpl.
      erewrite Ig; [|rewrite Sg, Ag, Hget; reflexivity].
      by destruct (bool_decide (k0 ∈ ks)).
    + rewrite (bool_decide_eq_false_2 (k = k0)) by done. simpl.
      erewrite Ig; [reflexivity|]. rewrite So, Ao by done. exact Hget.
  - intros k. rewrite D, Ia, Sa, Aa. destruct (decide (k = k0)) as [->|Hne].
    + rewrite (bool_decide_eq_true_2 (k0 = k0)) by done. simpl.
      rewrite lookup_delete_eq. by destruct (bool_decide _).
    + rewrite (bool_decide_eq_false_2 (k = k0)) by done. simpl.
      by rewrite lookup_delete_ne.
  - intros k. rewrite D, Is, Ss, As. destruct (decide (k = k0)) as [->|Hne].
    + rewrite (bool_decide_eq_true_2 (k0 = k0)) by done. simpl.
      rewrite lookup_delete_eq. by destruct (bool_decide _).
    + rewrite (bool_decide_eq_false_2 (k = k0)) by done. simpl.
      by rewrite lookup_delete_ne.
  - intros k proc Hk Hp. destruct (decide (k = k0)) as [->|Hne].
    + apply Ikk, Skk. by apply Ak.
    + apply (Ika k).
      * apply elem_of_cons in Hk as [?|?]; done.
      * rewrite Sa, Aa. by rewrite lookup_delete_ne.
  - intros k proc Hk Hp. destruct (decide (k = k0)) as [->|Hne].
    + apply Ikk, Sk. by rewrite As.
    + apply (Iks k).
      * apply elem_of_cons in Hk as [?|?]; done.
      * rewrite Ss, As. by rewrite lookup_delete_ne.
  - intros proc Hp. by apply Ikk, Skk, Akk.
  - by rewrite Idb.
  - by rewrite Ie, Se, Ae.
Qed.

(** The processes that a kill adds to those killed. *)
Lemma killed_killAgentProcess projectId m :
  killed (killAgentProcess projectId m)
  = killed m ++ match agentProcesses m !! projectId with
                | Some proc => [proc]
                | None => []
                end.
Proof.
  unfold killAgentProcess. rewrite assign_killed.
  destruct (agentProcesses m !! projectId); simpl; by rewrite ?app_nil_r.
Qed.

Lemma killed_killServerProcess projectId m :
  killed (killServerProcess projectId m)
  = killed m ++ match serverProcesses m !! projectId with
                | Some proc => [proc]
                | None => []
                end.
Proof.
  unfold killServerProcess.
  destruct (serverProcesses m !! projectId); simpl; repeat case_match;
    rewrite ?assign_killed; simpl; by rewrite ?app_nil_r.
Qed.

(** The loop of [stopAll] kills no process but those of the tables. *)
Lemma stopAll_loop_killed ks m proc :
  proc ∈ killed (foldl (fun m projectId =>
                          killServerProcess projectId (killAgentProcess projectId m))
                   m ks) →
  proc ∈ killed m
  ∨ ∃ k, k ∈ ks ∧ (agentProcesses m !! k = Some proc
                   ∨ serverProcesses m !! k = Some proc).
Proof.
  revert m. induction ks as [|k0 ks IH]; intros m; simpl; [by left|].
  destruct (killAgentProcess_spec k0 m) as (_ & _ & Aa & As & _).
  destruct (killServerProcess_spec k0 (killAgentProcess k0 m))
    as (_ & _ & Ss & Sa & _).
  intros H. apply IH in H as [H|(k & Hk & H)].
  - rewrite killed_killServerProcess, killed_killAgentProcess, As in H.
    apply elem_of_app in H as [H|H]; [apply elem_of_app in H as [H|H]|].
    + by left.
    + right. exists k0. split; [apply list_elem_of_here|]. left.
      destruct (agentProcesses m !! k0); [|by apply not_elem_of_nil in H].
      by apply list_elem_of_singleton in H as ->.
    + right. exists k0. split; [apply list_elem_of_here|]. right.
      destruct (serverProcesses m !! k0); [|by apply not_elem_of_nil in H].
      by apply list_elem_of_singleton in H as ->.
  - right. exists k. split; [by apply list_elem_of_further|].
    rewrite Sa, Aa, Ss, As in H.
    destruct H as [H|H]; apply lookup_delete_Some in H as [_ H]; auto.
Qed.

Lemma stopAll_loop_watchers ks m :
  agentWatchers (foldl (fun m projectId =>
                          killServerProcess projectId (killAgentProcess projectId m))
                   m ks)
  = agentWatchers m.
Proof.
  revert m. induction ks as [|k0 ks IH]; intros m; simpl; [done|].
  rewrite IH. unfold killServerProcess, killAgentProcess.
  repeat case_match; simpl; autorewrite with frame; simpl;
    autorewrite with frame; by repeat case_match.
Qed.

(** X14. [stopAll] kills the processes that the two tables hold for the
    projects of the map, and no other: an agent that runs without a table
    entry is left running.  It clears the table entries of the projects and
    the fields of the records that name their processes and ports, and
    drops every port reservation.  It changes no status and writes nothing
    to the store: a project that was being built is still [building]
    there.  In a state that the manager reaches, both process tables are
    empty afterwards. *)
Theorem stopAll_halts JSON_parse m :
  allocatedPorts (stopAll m) = ∅
  ∧ db (stopAll m) = db m
  ∧ emitted (stopAll m) = emitted m
  ∧ agentWatchers (stopAll m) = agentWatchers m
  ∧ (∀ k p, JsMap.get k (projects m) = Some p →
       JsMap.get k (projects (stopAll m))
       = Some (set_serverProcess None (set_servingPort None (set_agentProcess None p)))
       ∧ agentProcesses (stopAll m) !! k = None
       ∧ serverProcesses (stopAll m) !! k = None
       ∧ (∀ proc, agentProcesses m !! k = Some proc → proc ∈ killed (stopAll m))
       ∧ (∀ proc, serverProcesses m !! k = Some proc → proc ∈ killed (stopAll m)))
  ∧ (∀ proc, proc ∈ killed (stopAll m) →
       proc ∈ killed m
       ∨ ∃ k, k ∈ JsMap.keys (projects m)
              ∧ (agentProcesses m !! k = Some proc
                 ∨ serverProcesses m !! k = Some proc))
  ∧ (reachable JSON_parse m →
       agentProcesses (stopAll m) = ∅ ∧ serverProcesses (stopAll m) = ∅).
Proof.
  unfold stopAll. simpl.
  destruct (stopAll_loop (JsMap.keys (projects m)) m)
    as (Lg & La & Ls & Lka & Lks & _ & Ldb & Le).
  cbv zeta in *. split_and!; try done.
  - apply stopAll_loop_watchers.
  - intros k p Hget. pose proof (get_in_keys _ _ _ Hget) as Hin.
    split_and!.
    + rewrite (Lg k p Hget). by rewrite bool_decide_eq_true_2.
    + rewrite La. by rewrite bool_decide_eq_true_2.
    + rewrite Ls. by rewrite bool_decide_eq_true_2.
    + intros proc. by apply Lka.
    + intros proc. by apply Lks.
  - intros proc. apply stopAll_loop_killed.
  - intros R. apply reachable_well_formed in R as (_ & _ & A & S & _).
    split; apply map_eq; intros k; rewrite lookup_empty.
    + rewrite La. destruct (bool_decide (k ∈ _)) eqn:B; [done|].
      destruct (agentProcesses m !! k) eqn:E; [|done].
      destruct (A k) as [p Hp]; [by eauto|].
      apply get_in_keys in Hp. by rewrite bool_decide_eq_true_2 in B.
    + rewrite Ls. destruct (bool_decide (k ∈ _)) eqn:B; [done|].
      destruct (serverProcesses m !! k) eqn:E; [|done].
      destruct (S k) as [p Hp]; [by eauto|].
      apply get_in_keys in Hp. by rewrite bool_decide_eq_true_2 in B.
Qed.

Lemma stopAll_halts_witness :
  reachable parse_none demo_serving
  ∧ agentProcesses demo_serving !! proj_a = Some 0%nat
  ∧ agentProcesses (stopAll demo_serving) = ∅
  ∧ serverProcesses (stopAll demo_serving) = ∅
  ∧ (status <$> JsMap.get proj_a (projects (stopAll demo_serving))) = Some serving
  ∧ 0%nat ∈ killed (stopAll demo_serving)
  ∧ reachable parse_none demo_building_no_agent
  ∧ agentWatchers demo_building_no_agent !! 1%nat = Some proj_a
  ∧ killed demo_building_no_agent = [0%nat]
  ∧ agentWatchers (stopAll demo_building_no_agent) !! 1%nat = Some proj_a
  ∧ (1%nat ∉ killed (stopAll demo_building_no_agent)).
Proof.
  assert (R : reachable parse_none demo_serving).
  { exists (str "/srv/projects"), None, None, None, None, [].
    eexists. reflexivity. }
  assert (R' : reachable parse_none demo_building_no_agent).
  { exists (str "/srv/projects"), None, None, None, None, [].
    eexists. reflexivity. }
  assert (H1 : ∃ p, JsMap.get proj_a (projects demo_serving) = Some p
                    ∧ status p = serving).
  { eexists. split; [vm_compute; reflexivity | reflexivity]. }
  destruct H1 as (p & H1 & Hs).
  assert (W : agentWatchers demo_building_no_agent !! 1%nat = Some proj_a)
    by (vm_compute; reflexivity).
  assert (K : killed demo_building_no_agent = [0%nat]) by (vm_compute; reflexivity).
  destruct (stopAll_halts parse_none demo_serving) as (_ & _ & _ & _ & Hk & _ & Hr).
  destruct (stopAll_halts parse_none demo_building_no_agent)
    as (_ & _ & _ & Hw & _ & Honly & _).
  destruct (Hk proj_a p H1) as (Hg & _ & _ & Ha & _).
  destruct (Hr R) as [Hta Hts].
  split; [exact R|]. split; [reflexivity|]. split; [exact Hta|].
  split; [exact Hts|]. split; [by rewrite Hg, <- Hs|]. split; [by apply Ha|].
  split; [exact R'|]. split; [exact W|]. split; [exact K|].
  split; [rewrite Hw; exact W|].
  intros Hin. apply Honly in Hin as [Hin|(k & Hk' & Hin)].
  - rewrite K in Hin. apply list_elem_of_singleton in Hin. discriminate.
  - assert (Ek : JsMap.keys (projects demo_building_no_agent) = [proj_a])
      by (vm_compute; reflexivity).
    assert (Ea : agentProcesses demo_building_no_agent !! proj_a = None)
      by (vm_compute; reflexivity).
    assert (Es : serverProcesses demo_building_no_agent !! proj_a = None)
      by (vm_compute; reflexivity).
    rewrite Ek in Hk'. apply list_elem_of_singleton in Hk' as ->.
    destruct Hin as [Hin|Hin]; congruence.
Defined.

(** ** The exit watchers *)

(** X15. When a preview process exits, its watcher releases the port it
    was started on and removes the table entry of the project.  A project
    that is [serving] becomes [completed], loses its port and is
    persisted; a project in any other state is left as it is and nothing
    is written. *)
Theorem serverExited_spec projectId port now m p :
  JsMap.get projectId (projects m) = Some p →
  let m' := serverExited projectId port now m in
  (port ∉ allocatedPorts m')
  ∧ serverProcesses m' !! projectId = None
  ∧ agentProcesses m' = agentProcesses m
  ∧ (status p = serving →
       let p' := set_updatedAt now (set_servingPort None (set_status completed p)) in
       JsMap.get projectId (projects m') = Some p'
       ∧ db m' !! id p = Some (row_of p'))
  ∧ (status p ≠ serving →
       JsMap.get projectId (projects m') = Some p ∧ db m' = db m).
Proof.
  intros Hget. unfold serverExited. simpl. rewrite Hget.
  destruct (bool_decide_reflect (status p = serving)) as [Hs|Hs].
  - erewrite assign_eq by (simpl; exact Hget).
    erewrite saveProject_eq by (simpl; apply get_set_eq). simpl.
    split_and!; try done.
    + set_solver.
    + apply lookup_delete_eq.
    + intros _. split; [apply get_set_eq | apply lookup_insert_eq].
  - simpl. split_and!; try done.
    + set_solver.
    + apply lookup_delete_eq.
Qed.

Lemma serverExited_spec_witness :
  let m' := serverExited proj_a 4000 40000 demo_serving in
  (status <$> JsMap.get proj_a (projects demo_serving)) = Some serving
  ∧ (4000 ∉ allocatedPorts m')
  ∧ (status <$> JsMap.get proj_a (projects m')) = Some completed
  ∧ (servingPort <$> JsMap.get proj_a (projects m')) = Some None.
Proof.
  assert (H1 : ∃ p, JsMap.get proj_a (projects demo_serving) = Some p
                    ∧ status p = serving).
  { eexists. split; [vm_compute; reflexivity | reflexivity]. }
  destruct H1 as (p & H1 & Hs).
  destruct (serverExited_spec proj_a 4000 40000 demo_serving p H1)
    as (Hport & _ & _ & Hserving & _).
  destruct (Hserving Hs) as [Hg _].
  split; [by rewrite H1, <- Hs|]. split; [exact Hport|].
  split; by rewrite Hg.
Defined.

(** X16. When the agent of a project exits while the project is neither
    building nor creating, the status stays as it is, whatever the exit
    code: the watcher only clears the table entry and the agent field,
    stamps and persists the record and emits the exit event.  For an
    identifier that names no project it removes the table entry and emits
    nothing. *)
Theorem agentExited_settled projectId exitCode now m :
  let m' := agentExited projectId exitCode now m in
  agentProcesses m' !! projectId = None
  ∧ (∀ p, JsMap.get projectId (projects m) = Some p →
       in_flight (status p) = false →
       let p' := set_updatedAt now (set_agentProcess None p) in
       JsMap.get projectId (projects m') = Some p'
       ∧ status p' = status p
       ∧ db m' !! id p = Some (row_of p')
       ∧ emitted m' = emitted m ++ [EvAgentExit projectId exitCode])
  ∧ (JsMap.get projectId (projects m) = None →
       m' = set_agentProcesses (delete projectId (agentProcesses m)) m).
Proof.
  unfold agentExited. simpl. split_and!.
  - destruct (JsMap.get projectId (projects m)); simpl; autorewrite with frame;
      simpl; apply lookup_delete_eq.
  - intros p Hget Hfl. rewrite Hget.
    erewrite assign_eq by (simpl; exact Hget).
    erewrite saveProject_eq by (simpl; apply get_set_eq). simpl.
    rewrite Hfl. split_and!; try done; [apply get_set_eq | apply lookup_insert_eq].
  - by intros ->.
Qed.

Lemma agentExited_settled_witness :
  let m' := agentExited proj_a 1 9000 demo_resumable in
  (status <$> JsMap.get proj_a (projects demo_resumable)) = Some completed
  ∧ (status <$> JsMap.get proj_a (projects m')) = Some completed
  ∧ agentProcesses m' !! proj_a = None
  ∧ last (emitted m') = Some (EvAgentExit proj_a 1).
Proof.
  assert (H1 : ∃ p, JsMap.get proj_a (projects demo_resumable) = Some p
                    ∧ status p = completed).
  { eexists. split; [vm_compute; reflexivity | reflexivity]. }
  destruct H1 as (p & H1 & Hs).
  destruct (agentExited_settled proj_a 1 9000 demo_resumable) as (Ha & Hk & _).
  destruct (Hk p H1) as (Hg & Hst & _ & He); [by rewrite Hs|].
  split; [by rewrite H1, <- Hs|]. split; [by rewrite Hg, <- Hs|].
  split; [exact Ha|]. rewrite He. by rewrite last_snoc.
Defined.

(** ** Records of the agent *)

(** X17. An annotation whose status word is none of [success], [failed]
    and [clarify] changes neither the status of the project nor its
    waiting time; it is still recorded as the last notification, stamped,
    persisted and emitted.  Unless the word is [progress], nothing is
    forwarded to the chat for it. *)
Theorem notification_without_effect projectId notification now m p :
  JsMap.get projectId (projects m) = Some p →
  n_status notification ≠ str "success" →
  n_status notification ≠ str "failed" →
  n_status notification ≠ str "clarify" →
  let m' := applyNotification projectId notification now m in
  let p' := set_updatedAt now (set_lastNotification (Some notification) p) in
  JsMap.get projectId (projects m') = Some p'
  ∧ status p' = status p ∧ waitingSince p' = waitingSince p
  ∧ db m' !! id p = Some (row_of p')
  ∧ emitted m' = emitted m ++ [EvNotification projectId notification]
  ∧ (n_status notification ≠ str "progress" →
       forwardNotification projectId notification m' = None).
Proof.
  intros Hget H1 H2 H3. unfold applyNotification.
  erewrite assign_eq by exact Hget.
  erewrite saveProject_eq by (simpl; apply get_set_eq).
  rewrite !text_eqb_ne by done. simpl.
  split_and!; try done; [apply get_set_eq | apply lookup_insert_eq |].
  intros H4. unfold forwardNotification. by rewrite !text_eqb_ne.
Qed.

Lemma notification_without_effect_witness :
  let m' := applyNotification proj_a demo_unknown 5000 demo_building in
  parseNotification (str "<pearbot status=" ++ [dquote] ++ str "done" ++ [dquote]
                       ++ str ">Finished.</pearbot>") = Some demo_unknown
  ∧ (status <$> JsMap.get proj_a (projects m')) = Some building
  ∧ (lastNotification <$> JsMap.get proj_a (projects m')) = Some (Some demo_unknown)
  ∧ forwardNotification proj_a demo_unknown m' = None.
Proof.
  assert (H1 : ∃ p, JsMap.get proj_a (projects demo_building) = Some p
                    ∧ status p = building).
  { eexists. split; [vm_compute; reflexivity | reflexivity]. }
  destruct H1 as (p & H1 & Hs).
  destruct (notification_without_effect proj_a demo_unknown 5000 demo_building p H1)
    as (Hg & Hst & _ & _ & _ & Hf); [discriminate..|].
  split; [vm_compute; reflexivity|].
  split; [rewrite Hg; simpl; by rewrite Hs|].
  split; [by rewrite Hg|]. apply Hf. discriminate.
Defined.

(** X18. A record whose type is not [assistant] changes no status, no
    notification and no time stamp, and writes nothing to the store: it is
    passed on as a message event, and a [system] record of subtype [init]
    that carries a session identifier sets that field of the record.  A
    JSON [null] is dropped without an event. *)
Theorem processRecord_other_types projectId now message m :
  let m' := processRecord projectId now message m in
  (prop message (str "type") = None → m' = m)
  ∧ (∀ ty, prop message (str "type") = Some ty →
       is_string ty "assistant" = false →
       emitted m' = emitted m ++ [EvMessage projectId message]
       ∧ db m' = db m
       ∧ (∀ k, k ≠ projectId →
            JsMap.get k (projects m') = JsMap.get k (projects m))
       ∧ (∀ p, JsMap.get projectId (projects m) = Some p →
            ∃ sid, JsMap.get projectId (projects m') = Some (set_sessionId sid p)
                   ∧ (is_string ty "system" = true →
                      is_string (mjoin (prop message (str "subtype"))) "init" = true →
                      ∀ v, value_or_null (mjoin (prop message (str "session_id")))
                           = Some v → sid = Some v))).
Proof.
  unfold processRecord. split.
  - by intros ->.
  - intros ty -> Hty. rewrite Hty.
    destruct (is_string ty "system"
              && is_string (mjoin (prop message (str "subtype"))) "init") eqn:E.
    + apply andb_true_iff in E as [E1 E2].
      destruct (value_or_null _) as [v|] eqn:V; simpl.
      * autorewrite with frame. split_and!; try done.
        -- intros k Hk. by rewrite get_assign_ne.
        -- intros p Hget. exists (Some v). split.
           ++ by erewrite get_assign_eq.
           ++ by intros _ _ v' [= ->].
      * split_and!; try done. intros p Hget. exists (sessionId p).
        split; [by destruct p | done].
    + simpl. split_and!; try done. intros p Hget. exists (sessionId p).
      split; [by destruct p|]. intros E1 E2. by rewrite E1, E2 in E.
Qed.

Lemma processRecord_other_types_witness :
  let m' := processRecord proj_a 4000 demo_init_record demo_building in
  (sessionId <$> JsMap.get proj_a (projects m')) = Some (Some (JStr (str "s-1")))
  ∧ (status <$> JsMap.get proj_a (projects m')) = Some building
  ∧ db m' = db demo_building
  ∧ emitted m' = [EvMessage proj_a demo_init_record].
Proof.
  assert (H1 : ∃ p, JsMap.get proj_a (projects demo_building) = Some p
                    ∧ status p = building).
  { eexists. split; [vm_compute; reflexivity | reflexivity]. }
  destruct H1 as (p & H1 & Hs).
  destruct (processRecord_other_types proj_a 4000 demo_init_record demo_building)
    as (_ & H).
  destruct (H (Some (JStr (str "system")))) as (He & Hdb & _ & Hp); [reflexivity..|].
  destruct (Hp p H1) as (sid & Hg & Hsid).
  rewrite (Hsid eq_refl eq_refl (JStr (str "s-1")) eq_refl) in Hg.
  split; [by rewrite Hg|]. split; [rewrite Hg; simpl; by rewrite Hs|].
  split; [exact Hdb | exact He].
Defined.

(** ** The stall sweep *)

Lemma checkStalled_spares now m k k' p :
  JsMap.get k (projects m) = Some p →
  in_flight (status p) = false ∨ agentProcesses m !! k = None
  ∨ now - createdAt p <= STALLED_AGENT_TIMEOUT_MS →
  JsMap.get k (projects (checkStalled now m k')) = Some p
  ∧ agentProcesses (checkStalled now m k') !! k = agentProcesses m !! k.
Proof.
  intros Hget Hc. destruct (decide (k' = k)) as [->|Hne].
  - unfold checkStalled. rewrite Hget.
    destruct (in_flight (status p)) eqn:F; [|done]. simpl.
    destruct (agentProcesses m !! k) eqn:A.
    + rewrite bool_decide_eq_true_2 by by eauto.
      destruct (Z.gtb_spec (now - createdAt p) STALLED_AGENT_TIMEOUT_MS);
        [|by rewrite A].
      destruct Hc as [|[|]]; [done | done | lia].
    + rewrite bool_decide_eq_false_2; [by rewrite A|]. by intros [? ?].
  - destruct (checkStalled_other now m k k' ltac:(done)) as (-> & -> & _). done.
Qed.

(** X19. The stall sweep leaves alone every project that is not being
    built, or that has no agent attached, or that was created an hour ago
    or less: however old it is, a project that waits for input, or that is
    completed, failed, stopped or serving, is never timed out. *)
Theorem stalledCheck_spares now m k p :
  JsMap.get k (projects m) = Some p →
  in_flight (status p) = false ∨ agentProcesses m !! k = None
  ∨ now - createdAt p <= STALLED_AGENT_TIMEOUT_MS →
  JsMap.get k (projects (stalledCheck now m)) = Some p
  ∧ agentProcesses (stalledCheck now m) !! k = agentProcesses m !! k.
Proof.
  unfold stalledCheck. generalize (JsMap.keys (projects m)) as ks.
  intros ks. revert m. induction ks as [|k' ks IH]; intros m Hget Hc; [done|].
  simpl. destruct (checkStalled_spares now m k k' p Hget Hc) as [G A].
  destruct (IH (checkStalled now m k') G) as [G' A'].
  { rewrite A. exact Hc. }
  split; [exact G' | by rewrite A', A].
Qed.

Lemma stalledCheck_spares_witness :
  let m := applyNotification proj_a demo_clarify 5000 demo_building in
  (status <$> JsMap.get proj_a (projects m)) = Some waiting_for_input
  ∧ 90000000 - 1000 > STALLED_AGENT_TIMEOUT_MS
  ∧ JsMap.get proj_a (projects (stalledCheck 90000000 m))
    = JsMap.get proj_a (projects m)
  ∧ agentProcesses (stalledCheck 90000000 m) !! proj_a = Some 0%nat.
Proof.
  assert (H1 : ∃ p, JsMap.get proj_a
                      (projects (applyNotification proj_a demo_clarify 5000
                                   demo_building)) = Some p
                    ∧ status p = waiting_for_input).
  { eexists. split; [vm_compute; reflexivity | reflexivity]. }
  destruct H1 as (p & H1 & Hs).
  destruct (stalledCheck_spares 90000000 _ proj_a p H1) as [Hg Ha].
  { left. by rewrite Hs. }
  split; [by rewrite H1, <- Hs|]. split; [reflexivity|].
  split; [by rewrite Hg, H1 | by rewrite Ha].
Defined.

(** ** The store *)

Lemma init_projects_only m rows :
  allocatedPorts (init m rows) = allocatedPorts m
  ∧ agentProcesses (init m rows) = agentProcesses m
  ∧ serverProcesses (init m rows) = serverProcesses m
  ∧ db (init m rows) = db m ∧ emitted (init m rows) = emitted m
  ∧ killed (init m rows) = killed m ∧ spawned (init m rows) = spawned m.
Proof.
  revert m. induction rows as [|row rows IH]; intros m; [done|].
  rewrite init_cons.
  destruct (IH (set_projects (JsMap.set (row_id row) (loadRow row) (projects m)) m))
    as (-> & -> & -> & -> & -> & -> & ->).
  done.
Qed.

(** X21. A project that the store holds as [serving] is [serving] again
    after [init], with the port that the row records; but [init] spawns
    nothing and reserves nothing: no process is attached to the project,
    and its port is free for the next call of [findAvailablePort]. *)
Theorem init_restores_serving dir ps pe mx host rows row port probe :
  NoDup (map row_id rows) →
  row ∈ rows →
  row_status row = serving →
  row_serving_port row = Some port → port ≠ 0 →
  let m := init (constructor dir ps pe mx host) rows in
  (∃ p, JsMap.get (row_id row) (projects m) = Some p
        ∧ status p = serving ∧ servingPort p = Some port
        ∧ serverProcess p = None)
  ∧ allocatedPorts m = ∅
  ∧ serverProcesses m = ∅
  ∧ spawned m = 0%nat
  ∧ (portRangeStart m <= port <= portRangeEnd m → probe port = true →
     ∃ q, findAvailablePort m probe = Ok q ∧ q <= port).
Proof.
  intros Hnd Hin Hst Hport Hne m.
  destruct (init_projects_only (constructor dir ps pe mx host) rows)
    as (Ha & _ & Hs & _ & _ & _ & Hsp).
  fold m in Ha, Hs, Hsp. simpl in Ha, Hs, Hsp.
  split_and!; try done.
  - exists (loadRow row). split; [by apply init_get|].
    unfold loadRow. simpl. rewrite Hst, Hport. simpl.
    destruct (Z.eqb_spec port 0); done.
  - intros Hrange Hprobe.
    pose proof (findAvailablePort_least m probe) as H.
    destruct (findAvailablePort m probe) as [q|e].
    + exists q. split; [done|]. destruct H as (_ & _ & _ & Hleast).
      destruct (Z.le_gt_cases q port) as [|Hgt]; [done|].
      destruct (Hleast port) as [Hin'|Hp]; [lia | | congruence].
      rewrite Ha in Hin'. by apply not_elem_of_empty in Hin'.
    + destruct H as [_ Hnone]. destruct (Hnone port Hrange) as [Hin'|Hp]; [|congruence].
      rewrite Ha in Hin'. by apply not_elem_of_empty in Hin'.
Qed.

Lemma init_restores_serving_witness :
  let m := init (constructor (str "/srv/projects") None None None None)
             [demo_served_row] in
  (status <$> JsMap.get proj_c (projects m)) = Some serving
  ∧ (servingPort <$> JsMap.get proj_c (projects m)) = Some (Some 4000)
  ∧ allocatedPorts m = ∅
  ∧ serverProcesses m = ∅
  ∧ ∃ q, findAvailablePort m (testPort demo_host) = Ok q ∧ q <= 4000.
Proof.
  destruct (init_restores_serving (str "/srv/projects") None None None None
              [demo_served_row] demo_served_row 4000 (testPort demo_host))
    as ((p & Hg & Hs & Hp & _) & Ha & Hsp & _ & Hfree).
  - apply NoDup_singleton.
  - apply list_elem_of_here.
  - reflexivity.
  - reflexivity.
  - discriminate.
  - change (row_id demo_served_row) with proj_c in Hg.
    split; [by rewrite Hg, <- Hs|]. split; [by rewrite Hg, <- Hp|].
    split; [exact Ha|]. split; [exact Hsp|].
    apply Hfree; [vm_compute; split; discriminate | reflexivity].
Defined.

(** ** Listing *)

Lemma get_entry {V} (k : text) (v : V) (m : JsMap.t V) :
  NoDup (JsMap.keys m) → (k, v) ∈ m → JsMap.get k m = Some v.
Proof.
  unfold JsMap.get, JsMap.keys. induction m as [|[k' v'] m IH]; simpl.
  - intros _ H. by apply not_elem_of_nil in H.
  - intros N H. apply NoDup_cons in N as [N1 N2].
    apply elem_of_cons in H as [[= -> ->]|H]; [by rewrite text_eqb_refl|].
    rewrite text_eqb_ne; [by apply IH|]. intros ->. apply N1.
    apply list_elem_of_fmap. by exists (k', v).
Qed.

(** X22. [getStatus] returns copies without process handles and
    without buffered output: one copy for an identifier that names a
    project, none for one that does not, and a copy of every project, in
    the order of the map, when no identifier or the empty one is given.
    [listAll] is the summary of the same list, and in a state that the
    manager reaches it names the projects by the keys of the map, in
    their order. *)
Theorem getStatus_sanitized JSON_parse projectId m :
  Forall (fun q => agentProcess q = None ∧ serverProcess q = None
                   ∧ outputBuffer q = []) (getStatus projectId m)
  ∧ (∀ k, k ≠ [] →
       getStatus (Some k) m
       = match JsMap.get k (projects m) with
         | Some p => [sanitizeProject p]
         | None => []
         end)
  ∧ getStatus (Some []) m = getStatus None m
  ∧ length (getStatus None m) = length (JsMap.keys (projects m))
  ∧ listAll m = map summary (getStatus None m)
  ∧ (reachable JSON_parse m →
       map s_id (listAll m) = JsMap.keys (projects m)
       ∧ map id (getStatus None m) = JsMap.keys (projects m)).
Proof.
  split_and!.
  - unfold getStatus. destruct (text_or_null projectId).
    + destruct (JsMap.get _ _); [|constructor].
      constructor; [done | constructor].
    + apply Forall_forall. intros q Hq.
      apply list_elem_of_fmap in Hq as (p & -> & _). done.
  - intros [|c k] Hk; [done|]. reflexivity.
  - reflexivity.
  - unfold getStatus, JsMap.keys, JsMap.values. simpl.
    by rewrite !length_map.
  - unfold listAll, getStatus. simpl. rewrite <- list_fmap_compose.
    apply list_fmap_ext. intros _ p _. by destruct p.
  - intros R. apply reachable_well_formed in R as (N & K & _).
    assert (E : map id (JsMap.values (projects m)) = JsMap.keys (projects m)).
    { unfold JsMap.values, JsMap.keys. rewrite <- list_fmap_compose.
      apply list_fmap_ext. intros i [k p] Hi. simpl.
      apply K. apply get_entry; [done|]. by eapply list_elem_of_lookup_2. }
    split; [|unfold getStatus; simpl; rewrite <- E, <- list_fmap_compose;
             apply list_fmap_ext; intros ? p ?; by destruct p].
    unfold listAll. rewrite <- E, <- list_fmap_compose.
    apply list_fmap_ext. intros ? p ?. by destruct p.
Qed.

Lemma getStatus_sanitized_witness :
  reachable parse_none demo_full
  ∧ map s_id (listAll demo_full) = [str "proj_1"; str "proj_2"; str "proj_3"]
  ∧ map agentProcess (JsMap.values (projects demo_full)) = [Some 0; Some 1; Some 2]%nat
  ∧ Forall (fun q => agentProcess q = None ∧ serverProcess q = None
                     ∧ outputBuffer q = []) (getStatus None demo_full).
Proof.
  assert (R : reachable parse_none demo_full).
  { exists (str "/srv/projects"), None, None, None, None, [].
    eexists. reflexivity. }
  destruct (getStatus_sanitized parse_none None demo_full)
    as (F & _ & _ & _ & _ & HR).
  destruct (HR R) as [H1 _].
  split; [exact R|]. split; [rewrite H1; vm_compute; reflexivity|].
  split; [vm_compute; reflexivity | exact F].
Defined.

(** * The disk *)

(** ** Splitting and joining *)

Lemma split_cons_sep (sep : Z) (f rest : text) :
  sep ∉ f → split sep (f ++ sep :: rest) = f :: split sep rest.
Proof.
  induction f as [|c f IH]; intros H; simpl.
  - by rewrite Z.eqb_refl.
  - apply not_elem_of_cons in H as [Hc Hf].
    destruct (Z.eqb_spec c sep); [done|]. by rewrite IH.
Qed.

Lemma split_join (sep : Z) (p : text) (ps : list text) :
  Forall (fun s => sep ∉ s) (p :: ps) →
  split sep (Path.join_with sep (p :: ps)) = p :: ps.
Proof.
  revert p. induction ps as [|q ps IH]; intros p H; simpl.
  - rewrite app_nil_r. apply split_whole. by apply Forall_inv in H.
  - apply Forall_cons in H as [Hp H].
    rewrite split_cons_sep by done. f_equal. by apply (IH q).
Qed.

Lemma join_split (sep : Z) (s : text) : Path.join_with sep (split sep s) = s.
Proof.
  induction s as [|c s IH]; simpl; [done|].
  destruct (split_snoc sep s) as (ls0 & f0 & E).
  destruct (split sep s) as [|l ls] eqn:E'; [by destruct ls0|]. clear E.
  destruct (Z.eqb_spec c sep) as [->|Hne]; simpl in *; by rewrite <- IH.
Qed.

Lemma join_with_snoc (sep : Z) (ps : list text) (p q : text) :
  Path.join_with sep ((p :: ps) ++ [q]) = Path.join_with sep (p :: ps) ++ sep :: q.
Proof.
  simpl. rewrite map_app, concat_app. simpl. by rewrite app_nil_r, app_assoc.
Qed.

(** ** Paths *)

Lemma plain_spec s :
  Path.plain s = true ↔ s ≠ [] ∧ (Path.slash ∉ s) ∧ s ≠ str "." ∧ s ≠ str "..".
Proof.
  unfold Path.plain. rewrite !andb_true_iff, !negb_true_iff.
  unfold text_eqb. rewrite !bool_decide_eq_false. tauto.
Qed.

Lemma normalizeString_plain allowAboveRoot res segments :
  Forall (fun s => Path.plain s = true) segments →
  Path.normalizeString allowAboveRoot res segments = rev segments ++ res.
Proof.
  revert res. induction segments as [|s more IH]; intros res H; [done|].
  apply Forall_cons in H as [Hs H]. apply plain_spec in Hs as (H1 & _ & H2 & H3).
  simpl. rewrite !text_eqb_ne by done. simpl. rewrite IH by done.
  by rewrite <- app_assoc.
Qed.

(** A resolved path is a slash followed by names that are joined by
    slashes. *)
Lemma resolved_spec path :
  Path.resolved path = true ↔
  ∃ s segments, Forall (fun s => Path.plain s = true) (s :: segments)
                ∧ path = Path.slash :: Path.join_with Path.slash (s :: segments).
Proof.
  unfold Path.resolved. split.
  - pose proof (join_split Path.slash path) as J.
    destruct (split Path.slash path) as [|[|] [|s segments]]; try done.
    intros H. exists s, segments. split.
    + apply Forall_forall. intros x Hx. rewrite forallb_forall in H.
      apply H. by apply list_elem_of_In.
    + rewrite <- J. reflexivity.
  - intros (s & segments & H & ->).
    change (Path.slash :: Path.join_with Path.slash (s :: segments))
      with (Path.join_with Path.slash ([] :: s :: segments)).
    rewrite split_join.
    + apply forallb_forall. rewrite Forall_forall in H.
      intros x Hx. apply H. by apply list_elem_of_In.
    + constructor; [apply not_elem_of_nil|].
      eapply Forall_impl; [exact H|]. intros x Hx. by apply plain_spec in Hx as (_ & ? & _).
Qed.

Lemma normalizeString_empty allowAboveRoot res more :
  Path.normalizeString allowAboveRoot res ([] :: more)
  = Path.normalizeString allowAboveRoot res more.
Proof. reflexivity. Qed.

Lemma last_join s segments :
  Forall (fun s => Path.plain s = true) (s :: segments) →
  ∃ d, last (Path.slash :: Path.join_with Path.slash (s :: segments)) = Some d
       ∧ d ≠ Path.slash.
Proof.
  revert s. induction segments as [|s' segments IH]; intros s H.
  - apply Forall_inv in H. apply plain_spec in H as (H1 & H2 & _).
    simpl. rewrite app_nil_r.
    destruct s as [|c s _] using rev_ind; [done|]. exists c.
    split; [by rewrite app_comm_cons, last_snoc|].
    intros ->. apply H2. apply elem_of_app. right. apply list_elem_of_here.
  - apply Forall_cons in H as [_ H]. destruct (IH s' H) as (d & Hd & Hne).
    exists d. split; [|done]. rewrite <- Hd.
    change (Path.slash :: Path.join_with Path.slash (s :: s' :: segments))
      with ((Path.slash :: s)
              ++ (Path.slash :: Path.join_with Path.slash (s' :: segments))).
    by rewrite last_app, Hd.
Qed.

(** [normalize] leaves a resolved path as it is. *)
Lemma normalize_resolved s segments :
  Forall (fun s => Path.plain s = true) (s :: segments) →
  Path.normalize (Path.slash :: Path.join_with Path.slash (s :: segments))
  = Path.slash :: Path.join_with Path.slash (s :: segments).
Proof.
  intros H.
  assert (F : Forall (fun x => Path.slash ∉ x) ([] :: s :: segments)).
  { constructor; [apply not_elem_of_nil|].
    eapply Forall_impl; [exact H|]. intros x Hx.
    by apply plain_spec in Hx as (_ & ? & _). }
  assert (Sp : split Path.slash
                 (Path.slash :: Path.join_with Path.slash (s :: segments))
               = [] :: s :: segments).
  { change (Path.slash :: Path.join_with Path.slash (s :: segments))
      with (Path.join_with Path.slash ([] :: s :: segments)).
    by apply split_join. }
  destruct (last_join s segments H) as (d & Hd & Hne).
  unfold Path.normalize. cbv beta iota zeta.
  rewrite Sp, Hd, Z.eqb_refl. apply Z.eqb_neq in Hne. rewrite Hne.
  rewrite normalizeString_empty, normalizeString_plain by done.
  rewrite app_nil_r, rev_involutive.
  destruct (Path.join_with Path.slash (s :: segments)) eqn:J.
  - exfalso. apply Forall_inv in H. apply plain_spec in H as [Hs _].
    simpl in J. by destruct s.
  - by rewrite app_nil_r.
Qed.

Lemma join_resolved dir entry :
  Path.resolved dir = true → Path.plain entry = true →
  Path.join [dir; entry] = dir ++ str "/" ++ entry
  ∧ Path.resolved (dir ++ str "/" ++ entry) = true.
Proof.
  intros Hd He. apply resolved_spec in Hd as (s & segments & Hs & ->).
  pose proof He as He'. apply plain_spec in He' as (E1 & E2 & E3 & E4).
  assert (R : (Path.slash :: Path.join_with Path.slash (s :: segments))
                ++ str "/" ++ entry
              = Path.slash :: Path.join_with Path.slash (s :: segments ++ [entry])).
  { change (s :: segments ++ [entry]) with ((s :: segments) ++ [entry]).
    rewrite join_with_snoc. reflexivity. }
  assert (Hs' : Forall (fun s => Path.plain s = true) (s :: segments ++ [entry])).
  { change (s :: segments ++ [entry]) with ((s :: segments) ++ [entry]).
    apply Forall_app. split; [done | by constructor]. }
  split.
  - unfold Path.join. rewrite !filter_cons. rewrite decide_True by done.
    rewrite decide_True by done. rewrite filter_nil.
    replace (Path.join_with Path.slash
               [Path.slash :: Path.join_with Path.slash (s :: segments); entry])
      with ((Path.slash :: Path.join_with Path.slash (s :: segments))
              ++ str "/" ++ entry)
      by (unfold Path.join_with at 2; cbn [map concat]; by rewrite app_nil_r).
    rewrite R. by apply normalize_resolved.
  - rewrite R. apply resolved_spec. by exists s, (segments ++ [entry]).
Qed.

(** X23. For a projects directory as [resolve] returns it and an
    identifier that is a plain name, the directory that [createProject]
    gives a project is the projects directory, a slash and the identifier,
    and it is a resolved path again. *)
Theorem project_directory_is_below dir projectId :
  Path.resolved dir = true → Path.plain projectId = true →
  Path.join [dir; projectId] = join dir projectId
  ∧ Path.resolved (join dir projectId) = true
  ∧ split Path.slash (join dir projectId) = split Path.slash dir ++ [projectId].
Proof.
  intros Hd He. destruct (join_resolved dir projectId Hd He) as [J R].
  unfold join. split_and!; [done | done |].
  apply resolved_spec in Hd as (s & segments & Hs & ->).
  apply plain_spec in He as (_ & E2 & _).
  assert (F : Forall (fun x => Path.slash ∉ x) ([] :: s :: segments)).
  { constructor; [apply not_elem_of_nil|].
    eapply Forall_impl; [exact Hs|]. intros x Hx. by apply plain_spec in Hx as (_ & ? & _). }
  change (Path.slash :: Path.join_with Path.slash (s :: segments))
    with (Path.join_with Path.slash ([] :: s :: segments)).
  rewrite split_join by done.
  change (Path.join_with Path.slash ([] :: s :: segments) ++ str "/" ++ projectId)
    with (Path.join_with Path.slash ([] :: s :: segments) ++ Path.slash :: projectId).
  rewrite <- join_with_snoc.
  change (([] :: s :: segments) ++ [projectId])
    with ([] :: (s :: segments) ++ [projectId]).
  rewrite split_join; [done|].
  change ([] :: (s :: segments) ++ [projectId])
    with (([] :: s :: segments) ++ [projectId]).
  apply Forall_app. split; [done | by constructor].
Qed.

Lemma project_directory_is_below_witness :
  Path.resolved (str "/srv/projects") = true
  ∧ Path.plain (str "proj_1700000000000_k3x9ab") = true
  ∧ Path.join [str "/srv/projects"; str "proj_1700000000000_k3x9ab"]
    = str "/srv/projects/proj_1700000000000_k3x9ab".
Proof.
  assert (H1 : Path.resolved (str "/srv/projects") = true) by reflexivity.
  assert (H2 : Path.plain (str "proj_1700000000000_k3x9ab") = true) by reflexivity.
  destruct (project_directory_is_below _ _ H1 H2) as (J & _).
  split; [exact H1|]. split; [exact H2|]. rewrite J. reflexivity.
Defined.

(** ** Walking a directory *)

(** Induction on a tree, with the hypothesis for every entry of a
    directory. *)
Lemma node_induction (P : Fs.node → Prop) :
  (∀ content, P (Fs.File content)) →
  (∀ entries, Forall (fun e => P e.2) entries → P (Fs.Dir entries)) →
  P Fs.Locked → P Fs.Broken → ∀ n, P n.
Proof.
  intros HF HD HL HB. fix IH 1. intros [content|entries| |].
  - apply HF.
  - apply HD. induction entries as [|[entry sub] entries IHe]; constructor.
    + apply IH.
    + exact IHe.
  - exact HL.
  - exact HB.
Qed.

Lemma replace_prefix (pattern s : text) : replace pattern [] (pattern ++ s) = s.
Proof.
  destruct (pattern ++ s) as [|c r] eqn:E.
  - apply app_eq_nil in E as [-> ->]. reflexivity.
  - simpl. rewrite <- E, strip_prefix. reflexivity.
Qed.

Lemma walkDir_cons entry sub more dir root :
  Fs.walkDir (Fs.Dir ((entry, sub) :: more)) dir root
  = (if bool_decide (entry ∈ Fs.skipDirs) then []
     else match sub with
          | Fs.Broken => []
          | Fs.File _ => [replace (root ++ str "/") [] (Path.join [dir; entry])]
          | _ =>
              (replace (root ++ str "/") [] (Path.join [dir; entry]) ++ str "/")
                :: Fs.walkDir sub (Path.join [dir; entry]) root
          end)
    ++ Fs.walkDir (Fs.Dir more) dir root.
Proof. simpl. destruct (bool_decide _); [done|]. by destruct sub. Qed.

Lemma visible_cons entry sub more names n :
  Fs.visible (Fs.Dir ((entry, sub) :: more)) names n ↔
  (entry ∉ Fs.skipDirs
   ∧ ((names = [entry] ∧ n = sub ∧ sub ≠ Fs.Broken)
      ∨ ∃ below names', sub = Fs.Dir below ∧ names = entry :: names'
                        ∧ Fs.visible (Fs.Dir below) names' n))
  ∨ Fs.visible (Fs.Dir more) names n.
Proof.
  split.
  - intros H. inversion H as [es e n0 Hin Hskip Hb|es e below names' n0 Hin Hskip Hv];
      subst; apply elem_of_cons in Hin as [[= <- <-]|Hin].
    + left. split; [done|]. by left.
    + right. by constructor.
    + left. split; [done|]. right. by eauto.
    + right. by econstructor.
  - intros [[Hskip [(-> & -> & Hb)|(below & names' & -> & -> & Hv)]]|H].
    + constructor; [apply list_elem_of_here | done | done].
    + econstructor; [apply list_elem_of_here | done | done].
    + inversion H; subst.
      * constructor; [by apply list_elem_of_further | done | done].
      * econstructor; [by apply list_elem_of_further | done | done].
Qed.

Lemma visible_names n names n' :
  Fs.visible n names n' → names ≠ [] ∧ Forall (fun c => c ∉ Fs.skipDirs) names.
Proof.
  induction 1 as [entries entry n Hin Hskip Hb|entries entry below names n Hin Hskip Hv IH].
  - split; [done|]. by repeat constructor.
  - split; [done|]. constructor; [done | apply IH].
Qed.

Lemma names_plain_entry entries entry sub :
  Fs.names_plain (Fs.Dir entries) = true → (entry, sub) ∈ entries →
  Path.plain entry = true ∧ Fs.names_plain sub = true.
Proof.
  simpl. rewrite forallb_forall. intros H Hin.
  apply list_elem_of_In in Hin. apply H in Hin. by apply andb_true_iff in Hin.
Qed.

Lemma visible_plain n names n' :
  Fs.names_plain n = true → Fs.visible n names n' →
  Forall (fun c => Path.plain c = true) names.
Proof.
  intros Hp H. induction H as [entries entry n Hin Hskip Hb
                              |entries entry below names n Hin Hskip Hv IH].
  - destruct (names_plain_entry _ _ _ Hp Hin). by repeat constructor.
  - destruct (names_plain_entry _ _ _ Hp Hin) as [H1 H2].
    constructor; [done | by apply IH].
Qed.

(** The path of an entry below the root, as [walkDir] computes it. *)
Lemma relative_path root (prefix : list text) entry :
  replace (root ++ str "/") []
    ((root ++ concat (map (fun x => Path.slash :: x) prefix)) ++ str "/" ++ entry)
  = Path.join_with Path.slash (prefix ++ [entry]).
Proof.
  rewrite <- app_assoc.
  replace (concat (map (fun x => Path.slash :: x) prefix) ++ str "/" ++ entry)
    with (str "/" ++ Path.join_with Path.slash (prefix ++ [entry])).
  - rewrite app_assoc. apply replace_prefix.
  - destruct prefix as [|p prefix]; simpl.
    + by rewrite app_nil_r.
    + rewrite map_app, concat_app. simpl. by rewrite app_nil_r, <- !app_assoc.
Qed.

Lemma walkDir_visible root n :
  Path.resolved root = true →
  ∀ prefix,
    Forall (fun c => Path.plain c = true) prefix →
    Fs.names_plain n = true →
    ∀ path,
      path ∈ Fs.walkDir n (root ++ concat (map (fun x => Path.slash :: x) prefix)) root
      ↔ ∃ names n',
          Fs.visible n names n'
          ∧ path = Path.join_with Path.slash (prefix ++ names)
                     ++ (if Fs.isDirectory n' then str "/" else []).
Proof.
  intros Hroot. induction n as [content|entries IH| |] using node_induction;
    intros prefix Hprefix Hplain path.
  1, 3, 4: split; [intros H; by apply not_elem_of_nil in H
                  | intros (names & n' & H & _); inversion H].
  assert (Hdir : Path.resolved
                   (root ++ concat (map (fun x => Path.slash :: x) prefix)) = true).
  { clear -Hroot Hprefix. induction prefix as [|p prefix IHp] using rev_ind.
    - by rewrite app_nil_r.
    - apply Forall_app in Hprefix as [H1 H2]. apply Forall_inv in H2.
      rewrite map_app, concat_app. simpl. rewrite app_nil_r, app_assoc.
      by apply join_resolved; [apply IHp|]. }
  set (dir := root ++ concat (map (fun x => Path.slash :: x) prefix)) in *.
  induction entries as [|[entry sub] more IHm].
  { split; [intros H; by apply not_elem_of_nil in H|].
    intros (names & n' & H & _). inversion H; subst;
      match goal with H : _ ∈ [] |- _ => by apply not_elem_of_nil in H end. }
  apply Forall_cons in IH as [IHsub IHmore]. simpl in IHsub.
  destruct (names_plain_entry _ entry sub Hplain) as [Hentry Hsub];
    [apply list_elem_of_here|].
  assert (Hmore : Fs.names_plain (Fs.Dir more) = true).
  { simpl in Hplain. apply andb_true_iff in Hplain as [_ ?]. done. }
  specialize (IHm IHmore Hmore).
  destruct (join_resolved dir entry Hdir Hentry) as [Hjoin Hres].
  assert (Hrel : replace (root ++ str "/") [] (Path.join [dir; entry])
                 = Path.join_with Path.slash (prefix ++ [entry])).
  { rewrite Hjoin. apply relative_path. }
  assert (Hsubdir : Path.join [dir; entry]
                    = root ++ concat (map (fun x => Path.slash :: x) (prefix ++ [entry]))).
  { rewrite Hjoin. subst dir. rewrite map_app, concat_app. simpl.
    by rewrite app_nil_r, <- app_assoc. }
  assert (Hsubwalk : ∀ below, sub = Fs.Dir below →
            ∀ path, path ∈ Fs.walkDir sub (Path.join [dir; entry]) root
            ↔ ∃ names' n', Fs.visible sub names' n'
                ∧ path = Path.join_with Path.slash (prefix ++ entry :: names')
                           ++ (if Fs.isDirectory n' then str "/" else [])).
  { intros below -> path'. rewrite Hsubdir.
    rewrite (IHsub (prefix ++ [entry])); [|apply Forall_app; by split; [|constructor] | done].
    by setoid_rewrite <- app_assoc. }
  rewrite walkDir_cons, elem_of_app, IHm. split.
  - intros [H|(names & n' & Hv & ->)].
    2: { exists names, n'. split; [apply visible_cons; by right | done]. }
    destruct (bool_decide_reflect (entry ∈ Fs.skipDirs)) as [Hskip|Hskip];
      [by apply not_elem_of_nil in H|].
    rewrite Hrel in H. destruct sub as [content|below| |].
    + apply list_elem_of_singleton in H as ->.
      exists [entry], (Fs.File content). split; [|by rewrite app_nil_r].
      apply visible_cons. left. split; [done|]. left. by repeat split.
    + apply elem_of_cons in H as [->|H].
      * exists [entry], (Fs.Dir below). split; [|done].
        apply visible_cons. left. split; [done|]. left. by repeat split.
      * apply (Hsubwalk below eq_refl) in H as (names' & n' & Hv & ->).
        exists (entry :: names'), n'. split; [|done].
        apply visible_cons. left. split; [done|]. right. by exists below, names'.
    + apply elem_of_cons in H as [->|H]; [|by apply not_elem_of_nil in H].
      exists [entry], Fs.Locked. split; [|done].
      apply visible_cons. left. split; [done|]. left. by repeat split.
    + by apply not_elem_of_nil in H.
  - intros (names & n' & Hv & ->). apply visible_cons in Hv as [[Hskip Hcase]|Hv].
    2: { right. by eauto. }
    left. rewrite bool_decide_eq_false_2 by done. rewrite Hrel.
    destruct Hcase as [(-> & -> & Hb)|(below & names' & -> & -> & Hv)].
    + destruct sub; [apply list_elem_of_singleton; by rewrite app_nil_r
                    | apply list_elem_of_here | apply list_elem_of_here | done].
    + apply list_elem_of_further. apply (Hsubwalk below eq_refl). by eauto.
Qed.

Lemma startsWith_slash c s : startsWith (str "/") (c :: s) = (Path.slash =? c).
Proof.
  unfold startsWith. change (str "/") with [Path.slash]. cbn [strip].
  by destruct (Path.slash =? c).
Qed.

Lemma walkDir_root root tree path :
  Path.resolved root = true →
  Fs.names_plain tree = true →
  path ∈ Fs.walkDir tree root root
  ↔ ∃ names n,
      Fs.visible tree names n
      ∧ path = Path.join_with Path.slash names
                 ++ (if Fs.isDirectory n then str "/" else []).
Proof.
  intros Hroot Hplain.
  pose proof (walkDir_visible root tree Hroot [] ltac:(constructor) Hplain path) as H.
  simpl in H. rewrite app_nil_r in H. exact H.
Qed.

(** X24. [walkDir] on the root of a tree lists exactly the entries
    that can be reached from the root through directories that can be read
    without passing a skipped name, the entries on which [statSync] throws
    excepted: each by its path relative to the root, a directory with a
    slash at the end.  A skipped name is left out whether it names a
    directory or a file. *)
Theorem walkDir_lists_visible root tree path :
  Path.resolved root = true →
  Fs.names_plain tree = true →
  path ∈ Fs.walkDir tree root root
  ↔ ∃ names n,
      Fs.visible tree names n
      ∧ path = Path.join_with Path.slash names
                 ++ (if Fs.isDirectory n then str "/" else []).
Proof. apply walkDir_root. Qed.

Lemma walkDir_lists_visible_witness :
  Fs.walkDir demo_tree (str "/srv/projects/proj_a") (str "/srv/projects/proj_a")
  = [ str "package.json"; str "src/"; str "src/index.ts"; str "src/lib/";
      str "src/lib/util.ts"; str "secret/"; str "README.md" ]
  ∧ ∃ names n, Fs.visible demo_tree names n
               ∧ str "src/lib/" = Path.join_with Path.slash names
                                    ++ (if Fs.isDirectory n then str "/" else []).
Proof.
  split; [vm_compute; reflexivity|].
  apply (walkDir_lists_visible (str "/srv/projects/proj_a") demo_tree (str "src/lib/"));
    [reflexivity | reflexivity |].
  apply (bool_decide_unpack (_ ∈ _)). vm_compute. exact I.
Defined.

(** X25. [listProjectFiles] fails for an identifier that names no
    project; for a project whose directory does not exist it returns the
    empty list; otherwise it returns the walk of the directory, in which
    every path is relative (none starts with a slash) and none has a
    component that is one of the skipped names. *)
Theorem listProjectFiles_on_disk projectId disk m :
  (JsMap.get projectId (projects m) = None →
     listProjectFiles projectId (Fs.walk disk) m = Err (NotFound projectId))
  ∧ ∀ p, JsMap.get projectId (projects m) = Some p →
      (Fs.existsSync (disk (directory p)) = false →
         listProjectFiles projectId (Fs.walk disk) m = Ok [])
      ∧ ∀ tree,
          disk (directory p) = Some tree →
          Path.resolved (directory p) = true →
          Fs.names_plain tree = true →
          ∃ files,
            listProjectFiles projectId (Fs.walk disk) m = Ok files
            ∧ (tree ≠ Fs.Broken →
                 files = Fs.walkDir tree (directory p) (directory p))
            ∧ ∀ path, path ∈ files →
                startsWith (str "/") path = false
                ∧ ∀ c, c ∈ split Path.slash path → c ∉ Fs.skipDirs.
Proof.
  unfold listProjectFiles. split; [by intros ->|].
  intros p ->. split.
  - unfold Fs.walk. by destruct (disk (directory p)) as [[]|].
  - intros tree Hdisk Hres Hplain. unfold Fs.walk. rewrite Hdisk.
    exists (match tree with
            | Fs.Broken => []
            | _ => Fs.walkDir tree (directory p) (directory p)
            end).
    split; [by destruct tree|]. split; [by destruct tree|].
    intros path Hin.
    assert (Hin' : path ∈ Fs.walkDir tree (directory p) (directory p)).
    { by destruct tree. }
    apply walkDir_root in Hin'; [|done..].
    destruct Hin' as (names & n & Hv & ->).
    destruct (visible_names _ _ _ Hv) as [Hne Hskip].
    pose proof (visible_plain _ _ _ Hplain Hv) as Hpl.
    destruct names as [|s names]; [done|].
    assert (Hslash : Forall (fun x => Path.slash ∉ x) (s :: names)).
    { eapply Forall_impl; [exact Hpl|]. intros x Hx.
      by apply plain_spec in Hx as (_ & ? & _). }
    split.
    + apply Forall_inv in Hpl. apply plain_spec in Hpl as (H1 & H2 & _).
      destruct s as [|c s]; [done|].
      match goal with |- startsWith _ (_ ++ ?suffix) = _ =>
        change (startsWith (str "/")
                  (c :: (s ++ concat (map (fun y => Path.slash :: y) names)) ++ suffix)
                = false)
      end.
      rewrite startsWith_slash. apply Z.eqb_neq. intros <-.
      apply H2. apply list_elem_of_here.
    + intros c Hc. destruct (Fs.isDirectory n).
      * change (str "/") with (Path.slash :: []) in Hc.
        rewrite <- join_with_snoc in Hc.
        change ((s :: names) ++ [[]]) with (s :: names ++ [[]]) in Hc.
        rewrite split_join in Hc.
        2: { change (s :: names ++ [[]]) with ((s :: names) ++ [[]]).
             apply Forall_app. split; [done|]. constructor; [|done].
             apply not_elem_of_nil. }
        change (s :: names ++ [[]]) with ((s :: names) ++ [[]]) in Hc.
        apply elem_of_app in Hc as [Hc|Hc].
        -- rewrite Forall_forall in Hskip. by apply Hskip.
        -- apply list_elem_of_singleton in Hc as ->.
           apply (bool_decide_unpack (_ ∉ _)). vm_compute. exact I.
      * rewrite app_nil_r, split_join in Hc by done.
        rewrite Forall_forall in Hskip. by apply Hskip.
Qed.

Lemma listProjectFiles_on_disk_witness :
  ∃ files, listProjectFiles proj_a (Fs.walk demo_disk) demo_building = Ok files
           ∧ length files = 7%nat
           ∧ ∀ path, path ∈ files →
               ∀ c, c ∈ split Path.slash path → c ∉ Fs.skipDirs.
Proof.
  assert (H1 : ∃ p, JsMap.get proj_a (projects demo_building) = Some p
                    ∧ directory p = str "/srv/projects/proj_a").
  { eexists. split; [vm_compute; reflexivity | reflexivity]. }
  destruct H1 as (p & H1 & Hd).
  destruct (listProjectFiles_on_disk proj_a demo_disk demo_building) as [_ H].
  destruct (H p H1) as [_ Htree].
  destruct (Htree demo_tree) as (files & Hf & Hw & Hpaths).
  - rewrite Hd. reflexivity.
  - rewrite Hd. reflexivity.
  - reflexivity.
  - exists files. split; [exact Hf|]. split.
    + rewrite Hw by discriminate. rewrite Hd. reflexivity.
    + intros path Hin. by apply Hpaths.
Defined.

(** ** The directory and the command of a preview *)

Lemma firstRoot_spec directory entries :
  (Forall (fun e => Fs.candidate e.1 e.2 = false) entries
   ∧ Fs.firstRoot directory entries = directory)
  ∨ ∃ before entry sub after,
      entries = before ++ (entry, sub) :: after
      ∧ Forall (fun e => Fs.candidate e.1 e.2 = false) before
      ∧ Fs.candidate entry sub = true
      ∧ Fs.firstRoot directory entries = Path.join [directory; entry].
Proof.
  induction entries as [|[entry sub] more IH]; simpl.
  - left. by split.
  - destruct (Fs.candidate entry sub) eqn:E.
    + right. exists [], entry, sub, more. by split_and!.
    + destruct IH as [[Hall Hr]|(before & e & s & after & -> & Hb & Hc & Hr)].
      * left. split; [by constructor | done].
      * right. exists ((entry, sub) :: before), e, s, after.
        split_and!; [done | by constructor | done | done].
Qed.

(** X26. [findProjectRoot] returns the directory itself when it holds
    a manifest, when it cannot be listed, and when none of its entries is
    a candidate; otherwise it returns the first entry, in the order of the
    listing, that is a directory, is not hidden and not [node_modules], and
    holds a manifest.  It never looks deeper than one level: for a resolved
    directory the result is the directory or an entry of it. *)
Theorem findProjectRoot_first_candidate disk directory :
  let r := Fs.findProjectRoot disk directory in
  (Fs.hasManifest (disk directory) = true → r = directory)
  ∧ ((∀ entries, disk directory ≠ Some (Fs.Dir entries)) → r = directory)
  ∧ ∀ entries,
      Fs.hasManifest (disk directory) = false →
      disk directory = Some (Fs.Dir entries) →
      (Forall (fun e => Fs.candidate e.1 e.2 = false) entries ∧ r = directory)
      ∨ ∃ before entry sub after,
          entries = before ++ (entry, sub) :: after
          ∧ Forall (fun e => Fs.candidate e.1 e.2 = false) before
          ∧ Fs.isDirectory sub = true
          ∧ startsWith (str ".") entry = false
          ∧ entry ≠ str "node_modules"
          ∧ Fs.hasManifest (Some sub) = true
          ∧ r = Path.join [directory; entry]
          ∧ (Path.resolved directory = true → Path.plain entry = true →
             r = directory ++ str "/" ++ entry).
Proof.
  unfold Fs.findProjectRoot. split_and!.
  - by intros ->.
  - intros H. destruct (Fs.hasManifest (disk directory)); [done|].
    destruct (disk directory) as [[]|]; try done. by destruct (H entries).
  - intros entries -> ->.
    destruct (firstRoot_spec directory entries)
      as [?|(before & entry & sub & after & -> & Hb & Hc & Hr)]; [by left|].
    right. exists before, entry, sub, after.
    unfold Fs.candidate in Hc. rewrite !andb_true_iff, !negb_true_iff in Hc.
    destruct Hc as [[[H1 H2] H3] H4].
    split_and!; try done.
    + intros ->. by rewrite text_eqb_refl in H3.
    + intros Hd He. rewrite Hr. by apply join_resolved.
Qed.

Lemma findProjectRoot_first_candidate_witness :
  Fs.findProjectRoot demo_disk (str "/srv/projects/proj_a") = str "/srv/projects/proj_a"
  ∧ Fs.hasManifest (demo_nested_disk (str "/srv/projects/proj_a")) = false
  ∧ Fs.findProjectRoot demo_nested_disk (str "/srv/projects/proj_a")
    = str "/srv/projects/proj_a/shop"
  ∧ ∃ entry sub,
      Fs.findProjectRoot demo_nested_disk (str "/srv/projects/proj_a")
      = Path.join [str "/srv/projects/proj_a"; entry]
      ∧ Fs.hasManifest (Some sub) = true
      ∧ startsWith (str ".") entry = false.
Proof.
  destruct (findProjectRoot_first_candidate demo_disk (str "/srv/projects/proj_a"))
    as (Here & _ & _).
  split; [by apply Here|].
  assert (H1 : Fs.hasManifest (demo_nested_disk (str "/srv/projects/proj_a")) = false)
    by reflexivity.
  split; [exact H1|]. split; [vm_compute; reflexivity|].
  destruct (findProjectRoot_first_candidate demo_nested_disk
              (str "/srv/projects/proj_a")) as (_ & _ & H).
  destruct (H _ H1 eq_refl)
    as [[_ Hr]|(before & entry & sub & after & _ & _ & _ & Hh & _ & Hm & Hr & _)].
  - vm_compute in Hr. discriminate Hr.
  - by exists entry, sub.
Defined.

Ltac pick_command :=
  rewrite ?app_nil_r;
  repeat first [ apply list_elem_of_here | apply list_elem_of_further ].

(** X27. [detectServeCommand] returns one of ten commands.  Without a
    public host it never asks a server to bind to all addresses.  A [dev]
    script of a manifest that parses wins over every other choice; and
    when the manifest is missing, cannot be read or does not parse, the
    Python entry points are looked for, and failing that the command is
    [npm start]. *)
Theorem detectServeCommand_choices JSON_parse publicHost disk directory :
  let cmd := Fs.detectServeCommand JSON_parse publicHost disk directory in
  let here := disk directory in
  cmd ∈ [ str "npm run dev"; str "npm start"; str "npm run serve";
          str "python manage.py runserver"; str "python app.py";
          str "npm run dev --hostname 0.0.0.0"; str "npm start --hostname 0.0.0.0";
          str "npm run serve --hostname 0.0.0.0";
          str "python manage.py runserver 0.0.0.0"; str "python app.py --host 0.0.0.0" ]
  ∧ (publicHost = [] →
       cmd ∈ [ str "npm run dev"; str "npm start"; str "npm run serve";
               str "python manage.py runserver"; str "python app.py" ])
  ∧ (∀ content pkg,
       Fs.child (str "package.json") here = Some (Fs.File content) →
       JSON_parse content = Some pkg →
       Fs.truthy_value (Fs.chain (mjoin (prop pkg (str "scripts"))) "dev") = true →
       cmd = str "npm run dev" ∨ cmd = str "npm run dev --hostname 0.0.0.0")
  ∧ ((∀ content, Fs.child (str "package.json") here = Some (Fs.File content) →
                 JSON_parse content = None) →
       (Fs.existsSync (Fs.child (str "manage.py") here) = true →
          cmd = str "python manage.py runserver"
          ∨ cmd = str "python manage.py runserver 0.0.0.0")
       ∧ (Fs.existsSync (Fs.child (str "manage.py") here) = false →
          Fs.existsSync (Fs.child (str "app.py") here) = false →
          cmd = str "npm start")).
Proof.
  unfold Fs.detectServeCommand. cbv zeta. split_and!.
  - destruct (Fs.child (str "package.json") (disk directory)) as [[content| | |]|];
      [destruct (JSON_parse content) as [pkg|]; simpl;
       [unfold Fs.commandOfPackage; destruct (prop pkg (str "dependencies")); simpl|]|..];
      repeat case_match; simplify_eq; pick_command.
  - intros ->. simpl.
    destruct (Fs.child (str "package.json") (disk directory)) as [[content| | |]|];
      [destruct (JSON_parse content) as [pkg|]; simpl;
       [unfold Fs.commandOfPackage; destruct (prop pkg (str "dependencies")); simpl|]|..];
      repeat case_match; simplify_eq; pick_command.
  - intros content pkg -> -> Hdev. simpl. unfold Fs.commandOfPackage.
    destruct (prop pkg (str "dependencies")) as [deps|] eqn:D; simpl.
    + rewrite Hdev. destruct (_ && _); [by right | left; by rewrite ?app_nil_r].
    + destruct pkg; simpl in D; try done.
  - intros Hno.
    assert (E : match Fs.child (str "package.json") (disk directory) with
                | Some (Fs.File content) =>
                    JSON_parse content
                      ≫= Fs.commandOfPackage (negb (text_eqb publicHost []))
                | _ => None
                end = None).
    { destruct (Fs.child (str "package.json") (disk directory)) as [[content| | |]|];
        try done. by rewrite (Hno content). }
    rewrite E. split.
    + intros ->. destruct (negb _); [by right | by left].
    + by intros -> ->.
Qed.

Lemma detectServeCommand_choices_witness :
  Fs.detectServeCommand demo_parse_package (str "preview.example.org") demo_nested_disk
    (str "/srv/projects/proj_a/shop") = str "npm start --hostname 0.0.0.0"
  ∧ Fs.detectServeCommand demo_parse_package [] demo_nested_disk
      (str "/srv/projects/proj_a/shop") = str "npm start"
  ∧ Fs.detectServeCommand demo_parse_package [] demo_nested_disk
      (str "/srv/projects/proj_a")
    ∈ [ str "npm run dev"; str "npm start"; str "npm run serve";
        str "python manage.py runserver"; str "python app.py" ]
  ∧ Fs.detectServeCommand parse_none [] demo_nested_disk
      (str "/srv/projects/proj_a/shop") = str "python manage.py runserver".
Proof.
  split; [vm_compute; reflexivity|]. split; [vm_compute; reflexivity|].
  destruct (detectServeCommand_choices demo_parse_package [] demo_nested_disk
              (str "/srv/projects/proj_a")) as (_ & Hlocal & _).
  split; [by apply Hlocal|].
  destruct (detectServeCommand_choices parse_none [] demo_nested_disk
              (str "/srv/projects/proj_a/shop")) as (_ & _ & _ & Hpy).
  destruct Hpy as [Hm _]; [done|].
  destruct Hm as [Hm|Hm]; [reflexivity | exact Hm | vm_compute in Hm; discriminate Hm].
Defined.

(** * The plug-in *)

(** X28. While the plug-in is active the tools do not treat an
    identifier that names no project alike: [pearbot_reply],
    [pearbot_open], [pearbot_serve] and [pearbot_files] answer with an
    error, the route of a project with an error body, while [pearbot_stop]
    and [pearbot_status] answer with an ordinary result whose text says
    that the project was not found.  On an active plug-in [pearbot_stop]
    never answers with an error, as the manager operation behind it does
    not throw; its only error is that of the plug-in that is not active. *)
Theorem unknown_project_in_tools toISOString project_id now m :
  Plugin.isError (Plugin.pearbot_stop project_id now (Some m)).2 = false
  ∧ (JsMap.get project_id (projects m) = None →
     project_id ≠ [] →
     Plugin.pearbot_stop project_id now (Some m)
     = (Some m, Plugin.ok (str "Project " ++ project_id ++ str " not found."))
     ∧ Plugin.pearbot_status toISOString (Some project_id) (Some m)
       = Plugin.ok (str "Project not found.")
     ∧ Plugin.route_project project_id (Some m)
       = Plugin.ErrorBody (str "Project not found")
     ∧ (∀ message,
          Plugin.pearbot_reply project_id message now (Some m)
          = (Some m, Plugin.err (str "Project " ++ project_id ++ str " not found")))
     ∧ (∀ task settled,
          Plugin.pearbot_open project_id task now settled (Some m)
          = (Some m, Plugin.err (str "Project " ++ project_id ++ str " not found")))
     ∧ (∀ command host earlyExit,
          Plugin.pearbot_serve project_id command host earlyExit now (Some m)
          = (Some m, Plugin.err (str "Project " ++ project_id ++ str " not found")))
     ∧ (∀ walk,
          Plugin.pearbot_files project_id walk (Some m)
          = Plugin.err (str "Project " ++ project_id ++ str " not found")))
  ∧ (is_Some (JsMap.get project_id (projects m)) →
     Plugin.content_text (Plugin.pearbot_stop project_id now (Some m)).2
     = str "Project " ++ project_id ++ str " stopped.")
  ∧ Plugin.pearbot_stop project_id now None
    = (None, Plugin.err (str "Plugin not active")).
Proof.
  split_and!; [| | |reflexivity].
  - unfold Plugin.pearbot_stop. by destruct (stopProject project_id now m).
  - intros Hnone Hne. split_and!.
    + unfold Plugin.pearbot_stop, stopProject. by rewrite Hnone.
    + unfold Plugin.pearbot_status, getStatus.
      destruct project_id; [done|]. simpl. by rewrite Hnone.
    + unfold Plugin.route_project, getStatus.
      destruct project_id; [done|]. simpl. by rewrite Hnone.
    + intros message. unfold Plugin.pearbot_reply, sendToProject. by rewrite Hnone.
    + intros task settled.
      unfold Plugin.pearbot_open, openProject, openProject_begin. by rewrite Hnone.
    + intros command host earlyExit.
      unfold Plugin.pearbot_serve, serveProject, serveProject_begin. by rewrite Hnone.
    + intros walk. unfold Plugin.pearbot_files, listProjectFiles. by rewrite Hnone.
  - intros [p Hp]. unfold Plugin.pearbot_stop, stopProject. by rewrite Hp.
Qed.

Lemma unknown_project_in_tools_witness :
  JsMap.get proj_b (projects demo_building) = None
  ∧ Plugin.pearbot_stop proj_b 9000 (Some demo_building)
    = (Some demo_building, Plugin.ok (str "Project proj_b not found."))
  ∧ Plugin.pearbot_reply proj_b (str "hello") 9000 (Some demo_building)
    = (Some demo_building, Plugin.err (str "Project proj_b not found"))
  ∧ Plugin.content_text (Plugin.pearbot_stop proj_a 9000 (Some demo_building)).2
    = str "Project proj_a stopped.".
Proof.
  assert (H1 : JsMap.get proj_b (projects demo_building) = None) by reflexivity.
  destruct (unknown_project_in_tools (fun _ => []) proj_b 9000 demo_building)
    as (_ & Hunknown & _).
  destruct (Hunknown H1) as (Hstop & _ & _ & Hreply & _); [discriminate|].
  destruct (unknown_project_in_tools (fun _ => []) proj_a 9000 demo_building)
    as (_ & _ & Hknown & _).
  split; [exact H1|]. split; [exact Hstop|]. split; [exact (Hreply (str "hello"))|].
  apply Hknown. eexists. vm_compute. reflexivity.
Defined.

(** * The stream reader, once more *)

(** X29. In every state that a manager reaches, the output buffer of a
    project holds no newline: it is always the unfinished last line of
    what the agent has written, never a line that is still to be
    processed. *)
Theorem reachable_buffer_is_fragment JSON_parse m k p :
  reachable JSON_parse m →
  JsMap.get k (projects m) = Some p →
  newline ∉ outputBuffer p.
Proof.
  intros R H. apply (reachable_buffers_ok JSON_parse m R k).
  unfold bufferOf. by rewrite H.
Qed.

Lemma reachable_buffer_is_fragment_witness :
  reachable demo_parse demo_partial
  ∧ (outputBuffer <$> JsMap.get proj_a (projects demo_partial)) = Some (str "ASSIS")
  ∧ (newline ∉ str "ASSIS").
Proof.
  assert (R : reachable demo_parse demo_partial).
  { exists (str "/srv/projects"), None, None, None, None, [].
    eexists. reflexivity. }
  assert (H : JsMap.get proj_a (projects demo_partial)
              = Some (set_outputBuffer (str "ASSIS")
                        (default (loadRow demo_served_row)
                           (JsMap.get proj_a (projects demo_building))))).
  { vm_compute. reflexivity. }
  split; [exact R|]. split; [by rewrite H|].
  exact (reachable_buffer_is_fragment demo_parse demo_partial proj_a _ R H).
Defined.

(** * The process handles of a record *)

Lemma agree_frame m m' :
  projects m' = projects m → agentProcesses m' = agentProcesses m →
  handles_agree m → handles_agree m'.
Proof. intros Hp Ha H k p. rewrite Hp, Ha. apply H. Qed.

Lemma agree_assign projectId f m :
  (∀ p, agentProcess (f p) = agentProcess p
        ∧ (serverProcess p = None → serverProcess (f p) = None)) →
  handles_agree m → handles_agree (assign projectId f m).
Proof.
  intros Hf H k p'. rewrite assign_agentProcesses.
  destruct (decide (projectId = k)) as [->|Hne].
  - destruct (JsMap.get k (projects m)) as [p|] eqn:E.
    + rewrite (get_assign_eq _ _ _ _ E). intros [= <-].
      destruct (H k p E) as [Ha Hs]. destruct (Hf p) as [-> Hs']. auto.
    + rewrite (get_assign_none _ _ _ E), E. done.
  - rewrite get_assign_ne by done. apply H.
Qed.

Lemma agree_saveProject projectId m :
  handles_agree m → handles_agree (saveProject projectId m).
Proof.
  apply agree_frame; [apply projects_saveProject | apply saveProject_agentProcesses].
Qed.

Lemma agree_emit e m : handles_agree m → handles_agree (emit e m).
Proof. by apply agree_frame. Qed.

Lemma agree_foldl {A} (f : Manager → A → Manager) (xs : list A) m :
  (∀ m x, handles_agree m → handles_agree (f m x)) →
  handles_agree m → handles_agree (foldl f m xs).
Proof.
  intros Hf. revert m. induction xs as [|x xs IH]; intros m H; simpl; [done|].
  by apply IH, Hf.
Qed.

Lemma agree_killAgentProcess projectId m :
  handles_agree m → handles_agree (killAgentProcess projectId m).
Proof.
  intros H k p.
  destruct (killAgentProcess_spec projectId m) as (Hg & Ho & Ha & _).
  rewrite Ha. destruct (decide (k = projectId)) as [->|Hne].
  - rewrite Hg, lookup_delete_eq.
    destruct (JsMap.get projectId (projects m)) as [q|] eqn:E; [|done].
    simpl. intros [= <-]. split; [done|]. apply (H _ _ E).
  - rewrite Ho by done. rewrite lookup_delete_ne by done. apply H.
Qed.

Lemma agree_killServerProcess projectId m :
  handles_agree m → handles_agree (killServerProcess projectId m).
Proof.
  intros H k p.
  destruct (killServerProcess_spec projectId m) as (Hg & Ho & _ & Ha & _).
  rewrite Ha. destruct (decide (k = projectId)) as [->|Hne].
  - rewrite Hg.
    destruct (JsMap.get projectId (projects m)) as [q|] eqn:E; [|done].
    simpl. intros [= <-]. split; [|done]. apply (H _ _ E).
  - rewrite Ho by done. apply H.
Qed.

(** Spawning the agent of a project makes its two handles agree, whatever
    they were. *)
Lemma agree_spawnAgent_begin projectId prompt m :
  (∀ k p, k ≠ projectId → JsMap.get k (projects m) = Some p →
     agentProcess p = agentProcesses m !! k ∧ serverProcess p = None) →
  (∀ p, JsMap.get projectId (projects m) = Some p → serverProcess p = None) →
  handles_agree (spawnAgent_begin projectId prompt m).
Proof.
  intros Ho Hs. unfold spawnAgent_begin.
  destruct (JsMap.get projectId (projects m)) as [p0|] eqn:E.
  - set (m2 := set_agentProcesses _ (set_spawned _ m)).
    apply (agree_frame (assign projectId (set_agentProcess (Some (spawned m))) m2));
      [done | done |].
    intros k p. rewrite assign_agentProcesses.
    destruct (decide (k = projectId)) as [->|Hne].
    + rewrite (get_assign_eq _ _ _ p0) by exact E. intros [= <-].
      subst m2. simpl. rewrite lookup_insert_eq. split; [done|]. by apply Hs.
    + rewrite get_assign_ne by done. subst m2. simpl.
      rewrite lookup_insert_ne by done. by apply Ho.
  - intros k p Hk. destruct (decide (k = projectId)) as [->|Hne]; [congruence|].
    by apply Ho.
Qed.

Lemma agree_respawn projectId prompt m :
  handles_agree m → handles_agree (spawnAgent_begin projectId prompt m).
Proof.
  intros H. apply agree_spawnAgent_begin.
  - intros k p _. apply H.
  - intros p Hp. apply (H _ _ Hp).
Qed.

Ltac quiet_tac :=
  intros ?; repeat case_match; simpl; (split; [reflexivity | tauto]).

Lemma agree_spawnAgent_settle proc projectId prompt now m :
  handles_agree m → handles_agree (spawnAgent_settle proc projectId prompt now m).
Proof.
  intros H. unfold spawnAgent_settle.
  apply agree_saveProject, agree_assign; [quiet_tac|]. by apply (agree_frame m).
Qed.

Lemma agree_createProject_begin nm dsc ts projectId now m :
  handles_agree m →
  handles_agree (createProject_begin nm dsc ts projectId now m).1.
Proof.
  intros H. unfold createProject_begin.
  destruct (getRunningCount m >=? maxConcurrentBuilds m); [done|]. simpl.
  apply agree_spawnAgent_begin.
  - intros k p Hne. rewrite projects_saveProject, saveProject_agentProcesses. simpl.
    rewrite get_set_ne by done. apply H.
  - intros p. rewrite projects_saveProject. simpl. rewrite get_set_eq.
    by intros [= <-].
Qed.

Lemma agree_openProject_begin projectId task now m :
  handles_agree m → handles_agree (openProject_begin projectId task now m).1.
Proof.
  intros H. unfold openProject_begin.
  destruct (JsMap.get projectId (projects m)) as [project|]; [|done].
  set (m1 := match agentProcesses m !! projectId with
             | Some _ => _ | None => m end).
  assert (H1 : handles_agree m1).
  { subst m1. destruct (agentProcesses m !! projectId); [|done].
    by apply agree_killAgentProcess. }
  destruct (getRunningCount m1 >=? maxConcurrentBuilds m1); [done|]. simpl.
  apply agree_respawn, agree_saveProject, agree_assign; [quiet_tac | done].
Qed.

Lemma agree_sendToProject projectId message now m :
  handles_agree m → handles_agree (sendToProject projectId message now m).1.
Proof.
  intros H. unfold sendToProject.
  destruct (JsMap.get projectId (projects m)); [|done].
  destruct (agentProcesses m !! projectId); [|done]. simpl.
  apply agree_saveProject, agree_assign; [quiet_tac|]. by apply (agree_frame m).
Qed.

Lemma agree_stopProject projectId now m :
  handles_agree m → handles_agree (stopProject projectId now m).1.
Proof.
  intros H. unfold stopProject.
  destruct (JsMap.get projectId (projects m)); [|done]. simpl.
  apply agree_saveProject, agree_assign; [quiet_tac|].
  by apply agree_killServerProcess, agree_killAgentProcess.
Qed.

Lemma agree_serveProject_begin projectId command host m :
  handles_agree m → handles_agree (serveProject_begin projectId command host m).1.
Proof.
  intros H. unfold serveProject_begin.
  destruct (JsMap.get projectId (projects m)); [|done].
  pose proof (agree_killServerProcess projectId m H) as H1.
  destruct (findAvailablePort (killServerProcess projectId m) (testPort host));
    simpl; [|done].
  by apply (agree_frame (killServerProcess projectId m)).
Qed.

Lemma agree_serveProject_settle proc ps earlyExit now m :
  handles_agree m →
  handles_agree (serveProject_settle proc ps earlyExit now m).1.
Proof.
  intros H. unfold serveProject_settle. destruct earlyExit; simpl;
    (apply agree_saveProject, agree_assign; [quiet_tac|]); by apply (agree_frame m).
Qed.

Lemma agree_serverExited projectId port now m :
  handles_agree m → handles_agree (serverExited projectId port now m).
Proof.
  intros H. unfold serverExited.
  set (m2 := set_serverProcesses _ (set_allocatedPorts _ m)).
  assert (H2 : handles_agree m2) by (by apply (agree_frame m)).
  destruct (JsMap.get projectId (projects m2)); [|done].
  destruct (bool_decide _); [|done].
  apply agree_saveProject, agree_assign; [quiet_tac | done].
Qed.

Lemma agree_agentExited projectId exitCode now m :
  handles_agree m → handles_agree (agentExited projectId exitCode now m).
Proof.
  intros H. unfold agentExited.
  set (m1 := set_agentProcesses _ m).
  destruct (JsMap.get projectId (projects m1)) as [p0|] eqn:E.
  - apply agree_emit, agree_saveProject. intros k p.
    rewrite assign_agentProcesses.
    destruct (decide (k = projectId)) as [->|Hne].
    + rewrite (get_assign_eq _ _ _ p0) by exact E. intros [= <-].
      subst m1. simpl. rewrite lookup_delete_eq.
      destruct (H projectId p0 E) as [_ Hs].
      cbv zeta. by case_match.
    + rewrite get_assign_ne by done. subst m1. simpl.
      rewrite lookup_delete_ne by done. apply H.
  - intros k p Hk. destruct (decide (k = projectId)) as [->|Hne]; [congruence|].
    subst m1. simpl. rewrite lookup_delete_ne by done. by apply H.
Qed.

Lemma agree_checkStalled now m projectId :
  handles_agree m → handles_agree (checkStalled now m projectId).
Proof.
  intros H. unfold checkStalled. repeat case_match; try done.
  apply agree_emit, agree_saveProject, agree_assign; [quiet_tac|].
  by apply agree_killAgentProcess.
Qed.

Lemma agree_stopAll m : handles_agree m → handles_agree (stopAll m).
Proof.
  intros H. unfold stopAll.
  set (m1 := foldl _ m _).
  apply (agree_frame m1); [done | done |].
  subst m1. apply agree_foldl; [|done].
  intros m0 k H0. by apply agree_killServerProcess, agree_killAgentProcess.
Qed.

Lemma agree_applyNotification projectId notification now m :
  handles_agree m → handles_agree (applyNotification projectId notification now m).
Proof.
  intros H. unfold applyNotification.
  apply agree_emit, agree_saveProject, agree_assign; [quiet_tac | done].
Qed.

Lemma agree_processBlocks projectId now blocks m :
  handles_agree m → handles_agree (processBlocks projectId now blocks m).1.
Proof.
  revert m. induction blocks as [|block more IH]; intros m H; simpl; [done|].
  repeat case_match; simpl; try done; try (by apply IH).
  by apply IH, agree_applyNotification.
Qed.

Lemma agree_processRecord projectId now message m :
  handles_agree m → handles_agree (processRecord projectId now message m).
Proof.
  intros H. unfold processRecord.
  destruct (prop message (str "type")) as [ty|]; [|done].
  set (m1 := if _ && _ then _ else m).
  assert (H1 : handles_agree m1).
  { subst m1. repeat case_match; try done. apply agree_assign; [quiet_tac | done]. }
  destruct (is_string ty "assistant").
  - destruct (messageContent message) as [[]|]; try (by apply agree_emit).
    pose proof (agree_processBlocks projectId now items m1 H1) as H2.
    destruct (processBlocks projectId now items m1) as [m2 []]; simpl in H2;
      [by apply agree_emit | done].
  - by apply agree_emit.
Qed.

Lemma agree_processLine JSON_parse projectId now m line :
  handles_agree m → handles_agree (processLine JSON_parse projectId now m line).
Proof.
  intros H. unfold processLine. repeat case_match; try done.
  by apply agree_processRecord.
Qed.

Lemma agree_readChunk JSON_parse projectId decoder value now m :
  handles_agree m →
  handles_agree (readChunk JSON_parse projectId decoder value now m).1.
Proof.
  intros H. unfold readChunk.
  destruct (JsMap.get projectId (projects m)) as [project|]; [|done].
  destruct (Utf8.decode decoder value) as [decoder' decoded].
  destruct (pop _) as [fragment lines]. simpl.
  apply agree_foldl; [intros; by apply agree_processLine|].
  apply agree_assign; [quiet_tac | done].
Qed.

Lemma agree_handle JSON_parse m i :
  handles_agree m → handles_agree (handle JSON_parse m i).
Proof.
  intros H. destruct i; simpl.
  - destruct (JsMap.has projectId (projects m)); [done|].
    by apply agree_createProject_begin.
  - by apply agree_openProject_begin.
  - destruct (pendingSpawns m !! proc) as [[projectId prompt]|]; [|done].
    by apply agree_spawnAgent_settle, (agree_frame m).
  - by apply agree_sendToProject.
  - by apply agree_stopProject.
  - by apply agree_serveProject_begin.
  - destruct (pendingServes m !! proc) as [ps|]; [|done].
    by apply agree_serveProject_settle, (agree_frame m).
  - by apply agree_stopAll.
  - destruct (readers m !! proc) as [[projectId decoder]|]; [|done].
    pose proof (agree_readChunk JSON_parse projectId decoder value now m H) as H1.
    destruct (readChunk JSON_parse projectId decoder value now m) as [m1 d1].
    by apply (agree_frame m1).
  - destruct (agentWatchers m !! proc) as [projectId|]; [|done].
    by apply agree_agentExited, (agree_frame m).
  - destruct (serverWatchers m !! proc) as [[projectId port]|]; [|done].
    by apply agree_serverExited, (agree_frame m).
  - unfold stalledCheck. apply agree_foldl; [|done].
    intros. by apply agree_checkStalled.
Qed.

Lemma agree_init m rows :
  agentProcesses m = ∅ →
  (∀ k p, JsMap.get k (projects m) = Some p →
     agentProcess p = None ∧ serverProcess p = None) →
  handles_agree (init m rows).
Proof.
  revert m. induction rows as [|row rows IH]; intros m Ha Hp.
  - change (init m []) with m. intros k p Hk. rewrite Ha, lookup_empty. exact (Hp k p Hk).
  - rewrite init_cons. apply IH; [done|]. simpl. intros k p.
    destruct (decide (row_id row = k)) as [<-|Hne].
    + rewrite get_set_eq. by intros [= <-].
    + rewrite get_set_ne by done. apply Hp.
Qed.

Lemma reachable_handles_agree JSON_parse m :
  reachable JSON_parse m → handles_agree m.
Proof.
  intros (dir & ps & pe & mx & host & rows & inputs & ->).
  unfold run. apply agree_foldl; [intros; by apply agree_handle|].
  by apply agree_init.
Qed.

(** X30. In every state that a manager reaches, the two places that
    hold the agent of a project agree: the agent field of a record is the
    entry of the agent table under the key of the project, so that a
    project has an agent for [sendToProject] or the stall sweep exactly
    when its record says so.  The server field of a record is never set:
    the preview process is held by the server table alone. *)
Theorem reachable_agent_field_is_table_entry JSON_parse m k p :
  reachable JSON_parse m →
  JsMap.get k (projects m) = Some p →
  agentProcess p = agentProcesses m !! k ∧ serverProcess p = None.
Proof. intros R H. exact (reachable_handles_agree JSON_parse m R k p H). Qed.

Lemma reachable_agent_field_is_table_entry_witness :
  reachable demo_parse demo_partial
  ∧ (agentProcess <$> JsMap.get proj_a (projects demo_partial)) = Some (Some 0%nat)
  ∧ agentProcesses demo_partial !! proj_a = Some 0%nat.
Proof.
  assert (R : reachable demo_parse demo_partial).
  { exists (str "/srv/projects"), None, None, None, None, [].
    eexists. reflexivity. }
  destruct (JsMap.get proj_a (projects demo_partial)) as [p|] eqn:H;
    [|vm_compute in H; discriminate].
  destruct (reachable_agent_field_is_table_entry demo_parse demo_partial proj_a p R H)
    as [Ha _].
  split; [exact R|]. simpl. rewrite Ha.
  split; [f_equal|]; vm_compute; reflexivity.
Defined.
